(** * Pixie Pal: query resolution, chat session and park-data service

    A shallow embedding of

    - [src/app/index.backup.tsx]: [formatTime], [formatDate],
      [analyzeQuery], and the handlers of the [PixiePalChat] component
      ([tryPatternMatch], [processUserInput], [sendMessage],
      [handleFeedback], [loadAttractions]);
    - [src/services/PixiePalDataService.ts]: [getWaitTimes],
      [getParkHours], [getEntertainment], [normalizeAttractions] and the
      static fallbacks.

    Conventions of the embedding.

    - A JavaScript string is a [string] holding the UTF-8 bytes of the
      text.  [includes], [split] on an ASCII separator and concatenation
      agree with the source on well-formed text.  [toLowerCase] and
      [toUpperCase] map the letters A-Z and a-z only (the source also maps
      cased letters beyond ASCII; every keyword table of the program is
      ASCII).  [substring] counts UTF-16 code units as the source
      does, one for a sequence of up to three bytes and two for a
      sequence of four; a surrogate that is cut from its pair is held in
      the three-byte form of generalised UTF-8.
    - A JavaScript number is a [Z]; [None] stands for [NaN] where
      [parseInt] can produce it.
    - Values that arrive as parsed JSON ([any] in the source) are [JSON]
      trees; [undefined] is [None] of [option JSON].
    - A computation that can throw returns an [Outcome]; rendering a
      parsed value in a template literal is one.
    - React state is a [Session] record.  A handler reads the values its
      closure captured at render time (the snapshot) and writes through
      setters to the pending state, so a handler is a function of the
      snapshot running in a state monad over the pending state and the
      outside [World]. *)

From Stdlib Require Import String Ascii List ZArith Lia Bool.
From Stdlib Require Import DecimalString.
Import ListNotations.

Set Warnings "-register-all".

Local Open Scope string_scope.
Local Open Scope Z_scope.

(** ** JavaScript strings *)

Module Js.

Definition chr (n : nat) : string := String (ascii_of_nat n) EmptyString.

(** The characters a Rocq literal cannot hold directly. *)
Definition nl : string := chr 10.
Definition dq : string := chr 34.

Definition lowerChar (c : ascii) : ascii :=
  let n := nat_of_ascii c in
  if (Nat.leb 65 n && Nat.leb n 90)%bool then ascii_of_nat (n + 32) else c.

Definition upperChar (c : ascii) : ascii :=
  let n := nat_of_ascii c in
  if (Nat.leb 97 n && Nat.leb n 122)%bool then ascii_of_nat (n - 32) else c.

Fixpoint mapChars (f : ascii -> ascii) (s : string) : string :=
  match s with
  | EmptyString => EmptyString
  | String c r => String (f c) (mapChars f r)
  end.

Definition toLowerCase : string -> string := mapChars lowerChar.
Definition toUpperCase : string -> string := mapChars upperChar.

(** [s.includes(sub)] *)
Fixpoint includes (s sub : string) : bool :=
  if String.prefix sub s then true
  else match s with
       | EmptyString => false
       | String _ r => includes r sub
       end.

(** [s.split(sep)] for a one-character separator. *)
Fixpoint split (sep : ascii) (s : string) : list string :=
  match s with
  | EmptyString => [EmptyString]
  | String c r =>
      if Ascii.eqb c sep then EmptyString :: split sep r
      else match split sep r with
           | h :: t => String c h :: t
           | [] => [String c EmptyString]
           end
  end.

(** [xs.join(sep)] on a list of strings. *)
Fixpoint join (sep : string) (xs : list string) : string :=
  match xs with
  | [] => EmptyString
  | [x] => x
  | x :: r => x ++ sep ++ join sep r
  end.

(** [s.charAt(0)] and [s.slice(1)] *)
Definition charAt0 (s : string) : string :=
  match s with EmptyString => EmptyString | String c _ => String c EmptyString end.

Definition slice1 (s : string) : string :=
  match s with EmptyString => EmptyString | String _ r => r end.

(** Truthiness of a string: the empty string is falsy. *)
Definition nonEmpty (s : string) : bool :=
  match s with EmptyString => false | _ => true end.

(** [`${n}`] for an integral number. *)
Definition ofZ (n : Z) : string := NilZero.string_of_int (Z.to_int n).

Definition ofNat (n : nat) : string := ofZ (Z.of_nat n).

(** *** White space and [trim]

    The white space of ECMAScript: TAB, LF, VT, FF, CR, SP, and in UTF-8
    U+00A0 (C2 A0), U+1680 (E1 9A 80), U+2000-U+200A (E2 80 80-8A),
    U+2028, U+2029 (E2 80 A8-A9), U+202F (E2 80 AF), U+205F (E2 81 9F),
    U+3000 (E3 80 80) and U+FEFF (EF BB BF). *)

Definition asciiSpace (n : nat) : bool :=
  ((Nat.leb 9 n && Nat.leb n 13) || Nat.eqb n 32)%bool.

Definition space2 (a b : nat) : bool := (Nat.eqb a 194 && Nat.eqb b 160)%bool.

Definition space3 (a b c : nat) : bool :=
  ((Nat.eqb a 225 && Nat.eqb b 154 && Nat.eqb c 128)
   || (Nat.eqb a 226 && Nat.eqb b 128
       && ((Nat.leb 128 c && Nat.leb c 138) || Nat.eqb c 168 || Nat.eqb c 169
           || Nat.eqb c 175))
   || (Nat.eqb a 226 && Nat.eqb b 129 && Nat.eqb c 159)
   || (Nat.eqb a 227 && Nat.eqb b 128 && Nat.eqb c 128)
   || (Nat.eqb a 239 && Nat.eqb b 187 && Nat.eqb c 191))%bool.

(** Strips leading white space from a list of bytes; [fwd] tells whether
    the bytes are in reading order or reversed. *)
Fixpoint dropSpace (fwd : bool) (l : list nat) : list nat :=
  match l with
  | [] => []
  | a :: r =>
      if asciiSpace a then dropSpace fwd r
      else match r with
           | b :: r2 =>
               if (if fwd then space2 a b else space2 b a) then dropSpace fwd r2
               else match r2 with
                    | c :: r3 =>
                        if (if fwd then space3 a b c else space3 c b a)
                        then dropSpace fwd r3 else l
                    | [] => l
                    end
           | [] => l
           end
  end.

Definition bytes (s : string) : list nat := map nat_of_ascii (list_ascii_of_string s).
Definition ofBytes (l : list nat) : string := string_of_list_ascii (map ascii_of_nat l).

Definition trim (s : string) : string :=
  ofBytes (rev (dropSpace false (rev (dropSpace true (bytes s))))).

(** *** [s.substring(0, n)]

    JavaScript counts UTF-16 code units, and a text is held here as its
    UTF-8 bytes: a sequence of one, two or three bytes is one unit, a
    sequence of four bytes (a character outside the basic plane, as most
    emoji are) is two.  When the cut falls between the two units of such
    a character, the result ends with its high surrogate alone, held in
    the three-byte form of generalised UTF-8. *)

(** The bytes that follow a lead byte in its sequence. *)
Definition continuation (lead : nat) : nat :=
  if Nat.ltb lead 192 then 0%nat
  else if Nat.ltb lead 224 then 1%nat
  else if Nat.ltb lead 240 then 2%nat
  else 3%nat.

(** The high surrogate of the character a four-byte sequence holds is
    D800 plus the top ten bits of the code point less 10000 (hex); of the
    three bytes that hold it the first is ED. *)
Definition highSurrogate (b0 b1 b2 : nat) : list nat :=
  let top := ((b0 mod 8) * 256 + (b1 mod 64) * 4 + (b2 mod 64) / 16 - 64)%nat in
  [237%nat; (160 + top / 64)%nat; (128 + top mod 64)%nat].

(** Takes [n] code units; [pending] counts the bytes still to copy of a
    sequence that has been counted. *)
Fixpoint takeUnits (n pending : nat) (l : list nat) : list nat :=
  match l with
  | [] => []
  | b :: r =>
      match pending with
      | S k => b :: takeUnits n k r
      | O =>
          match n with
          | O => []
          | S m =>
              if Nat.ltb b 240 then b :: takeUnits m (continuation b) r
              else
                match m with
                | S m' => b :: takeUnits m' 3 r
                | O =>
                    match r with
                    | b1 :: b2 :: _ => highSurrogate b b1 b2
                    | _ => []
                    end
                end
          end
      end
  end.

Definition substring0 (n : nat) (s : string) : string :=
  ofBytes (takeUnits n 0 (bytes s)).

(** *** [parseInt(s)] with no radix argument

    Leading white space is skipped, one sign is read, a [0x] or [0X]
    prefix selects base 16, and the longest run of digits is converted;
    no digit at all gives [NaN] ([None]). *)

Definition digitVal (radix : nat) (n : nat) : option Z :=
  let d :=
    if (Nat.leb 48 n && Nat.leb n 57)%bool then Some (n - 48)%nat
    else if (Nat.leb 97 n && Nat.leb n 122)%bool then Some (n - 87)%nat
    else if (Nat.leb 65 n && Nat.leb n 90)%bool then Some (n - 55)%nat
    else None in
  match d with
  | Some v => if Nat.ltb v radix then Some (Z.of_nat v) else None
  | None => None
  end.

Fixpoint digitsFrom (radix : nat) (acc : option Z) (l : list nat) : option Z :=
  match l with
  | [] => acc
  | n :: r =>
      match digitVal radix n with
      | Some d =>
          digitsFrom radix
            (Some (match acc with Some a => a * Z.of_nat radix + d | None => d end)) r
      | None => acc
      end
  end.

Definition parseInt (s : string) : option Z :=
  let l := dropSpace true (bytes s) in
  let (neg, l1) :=
    match l with
    | 45%nat :: r => (true, r)
    | 43%nat :: r => (false, r)
    | _ => (false, l)
    end in
  let (radix, l2) :=
    match l1 with
    | 48%nat :: 120%nat :: r => (16%nat, r)
    | 48%nat :: 88%nat :: r => (16%nat, r)
    | _ => (10%nat, l1)
    end in
  match digitsFrom radix None l2 with
  | Some v => Some (if neg then - v else v)
  | None => None
  end.

End Js.

(** ** Values parsed from JSON, and computations that can throw *)

Inductive JSON : Type :=
| JNull
| JBool (b : bool)
| JNum (n : Z)
| JStr (s : string)
| JArr (items : list JSON)
| JObj (fields : list (string * JSON)).

Inductive Outcome (A : Type) : Type :=
| Ok (a : A)
| Raised.
Arguments Ok {A} a.
Arguments Raised {A}.

Definition obind {A B} (c : Outcome A) (k : A -> Outcome B) : Outcome B :=
  match c with Ok a => k a | Raised => Raised end.

Notation "'try!' x <- c ; k" := (obind c (fun x => k))
  (at level 10, x name, c at level 100, k at level 200).

Module Val.

(** A JavaScript value read out of parsed JSON; [None] is [undefined]. *)
Definition t := option JSON.

Definition truthyJ (v : JSON) : bool :=
  match v with
  | JNull => false
  | JBool b => b
  | JNum n => negb (n =? 0)
  | JStr s => Js.nonEmpty s
  | JArr _ | JObj _ => true
  end.

Definition truthy (v : t) : bool :=
  match v with Some j => truthyJ j | None => false end.

(** [a || b] *)
Definition or (a b : t) : t := if truthy a then a else b.

(** [JSON.parse] keeps the last of several members with one key. *)
Fixpoint field (k : string) (fs : list (string * JSON)) : t :=
  match fs with
  | [] => None
  | (k', v) :: r =>
      match field k r with
      | Some w => Some w
      | None => if String.eqb k k' then Some v else None
      end
  end.

(** [v.k] for a key [k] that names no built-in property ([length], a
    method, an index): reading it from [null] or [undefined] throws, from
    an object it looks the member up, from any other value it is
    [undefined]. *)
Definition get (v : t) (k : string) : Outcome t :=
  match v with
  | None | Some JNull => Raised
  | Some (JObj fs) => Ok (field k fs)
  | Some _ => Ok None
  end.

(** [v?.k] *)
Definition getOpt (v : t) (k : string) : t :=
  match v with
  | Some (JObj fs) => field k fs
  | _ => None
  end.

(** [v[0]] *)
Definition first (v : t) : Outcome t :=
  match v with
  | None | Some JNull => Raised
  | Some (JArr l) => Ok (hd_error l)
  | Some (JStr s) => Ok (match s with EmptyString => None | _ => Some (JStr (Js.charAt0 s)) end)
  | Some (JObj fs) => Ok (field "0" fs)
  | Some _ => Ok None
  end.

Definition isString (v : t) : bool :=
  match v with Some (JStr _) => true | _ => false end.

(** [String(v)], as a template literal renders [v].  An object parsed
    from JSON has [Object.prototype.toString] unless it has a member
    [toString] of its own; such a member is never callable, and then
    neither [toString] nor [valueOf] yields a primitive: a [TypeError].
    An array joins its elements, [null] as the empty text, and throws
    when one of them does. *)
Fixpoint strJ (v : JSON) : Outcome string :=
  match v with
  | JNull => Ok "null"
  | JBool true => Ok "true"
  | JBool false => Ok "false"
  | JNum n => Ok (Js.ofZ n)
  | JStr s => Ok s
  | JArr l =>
      try! texts <-
        (fix each (l : list JSON) : Outcome (list string) :=
           match l with
           | [] => Ok []
           | x :: r =>
               try! text <- match x with JNull => Ok EmptyString | _ => strJ x end ;
               try! texts <- each r ;
               Ok (text :: texts)
           end) l ;
      Ok (Js.join "," texts)
  | JObj fs =>
      match field "toString" fs with
      | Some _ => Raised
      | None => Ok "[object Object]"
      end
  end.

End Val.

(** ** Parks *)

Inductive ParkId : Type := magicKingdom | epcot | hollywoodStudios | animalKingdom.

(** [type ExtendedParkId = ParkId | 'disneySprings' | 'resorts'] *)
Inductive ExtendedParkId : Type :=
| Park (p : ParkId)
| disneySprings
| resorts.

Coercion Park : ParkId >-> ExtendedParkId.

Definition ParkId_eqb (a b : ParkId) : bool :=
  match a, b with
  | magicKingdom, magicKingdom | epcot, epcot
  | hollywoodStudios, hollywoodStudios | animalKingdom, animalKingdom => true
  | _, _ => false
  end.

Definition park_eqb (a b : ExtendedParkId) : bool :=
  match a, b with
  | Park p, Park q => ParkId_eqb p q
  | disneySprings, disneySprings | resorts, resorts => true
  | _, _ => false
  end.

(** The string a park identifier is at run time. *)
Definition parkKey (p : ExtendedParkId) : string :=
  match p with
  | Park magicKingdom => "magicKingdom"
  | Park epcot => "epcot"
  | Park hollywoodStudios => "hollywoodStudios"
  | Park animalKingdom => "animalKingdom"
  | disneySprings => "disneySprings"
  | resorts => "resorts"
  end.

Definition PARK_NAMES (p : ExtendedParkId) : string :=
  match p with
  | Park magicKingdom => "Magic Kingdom"
  | Park epcot => "EPCOT"
  | Park hollywoodStudios => "Disney's Hollywood Studios"
  | Park animalKingdom => "Disney's Animal Kingdom"
  | disneySprings => "Disney Springs"
  | resorts => "Resorts"
  end.

(** ** Outcomes of an HTTP request *)

(** What [await response.json()] yields: a parse failure or a value. *)
Inductive Body : Type :=
| Unparsable
| Parsed (v : JSON).

(** What [await fetch(...)] yields: a rejected promise or a response. *)
Inductive FetchOutcome : Type :=
| NetworkError
| Response (status : Z) (body : Body).

(** [response.ok] *)
Definition statusOk (status : Z) : bool := (200 <=? status) && (status <=? 299).

(** * The chat screen ([src/app/index.backup.tsx]) *)

Module Chat.

(** ** Types

    Cached park data is modelled at the shapes the screen's interfaces
    declare ([Attraction], [CharacterMeet], the entertainment and hours
    members the handlers read); an optional member is an [option]. *)

Inductive FeedbackType : Type := positive | negative.

Record Feedback : Type := {
  f_type : FeedbackType;
  f_comment : option string;
  f_timestamp : Z
}.

(** [interface Message]; the text is whatever [processUserInput]
    resolved to, a string on every path but one (see [completionBody]). *)
Record Message : Type := {
  m_id : string;
  m_text : JSON;
  m_isUser : bool;
  m_timestamp : Z;
  m_showFeedback : option bool;
  m_feedback : option Feedback
}.

(** [interface Attraction] *)
Record Attraction : Type := {
  a_id : string;
  a_name : string;
  a_waitTime : Z;
  a_isOpen : bool;
  a_hasLightningLane : option bool;
  a_park : string;
  a_land : option string
}.

(** A member of [entertainment] as the handlers read it. *)
Record Entertainment : Type := {
  e_name : string;
  e_type : option string;
  e_times : option (list string);
  e_location : option string;
  e_land : option string
}.

(** An element of [allEntertainment]: [{ park, entertainment }], the park
    being one of the four [loadAttractions] visits. *)
Record ParkEntertainment : Type := {
  pe_park : ParkId;
  pe_entertainment : list Entertainment
}.

(** [interface CharacterMeet] *)
Record CharacterMeet : Type := {
  c_characters : option (list string);
  c_character : option string;
  c_location : string;
  c_times : option (list string);
  c_time : option string;
  c_park : option string
}.

(** One day of park hours; [None] is [null]. *)
Record ParkHours : Type := {
  h_date : string;
  h_openingTime : option string;
  h_closingTime : option string
}.

(** An element of [allParkHours]: [{ park, hours: payload }];
    [ph_hours] is [payload.hours], [None] when the payload has none. *)
Record ParkHoursData : Type := {
  ph_park : ParkId;
  ph_hours : option (list ParkHours)
}.

Definition ATTRACTION_TO_PARK : list (string * ParkId) :=
  [ ("space mountain", magicKingdom);
    ("pirates of the caribbean", magicKingdom);
    ("haunted mansion", magicKingdom);
    ("big thunder mountain", magicKingdom);
    ("seven dwarfs mine train", magicKingdom);
    ("tiana's bayou adventure", magicKingdom);
    ("jungle cruise", magicKingdom);
    ("splash mountain", magicKingdom);
    ("tron lightcycle run", magicKingdom);
    ("guardians of the galaxy", epcot);
    ("test track", epcot);
    ("spaceship earth", epcot);
    ("frozen ever after", epcot);
    ("soarin", epcot);
    ("mission space", epcot);
    ("rise of the resistance", hollywoodStudios);
    ("millennium falcon", hollywoodStudios);
    ("tower of terror", hollywoodStudios);
    ("rock n roller coaster", hollywoodStudios);
    ("slinky dog dash", hollywoodStudios);
    ("mickey and minnie's runaway railway", hollywoodStudios);
    ("avatar flight of passage", animalKingdom);
    ("expedition everest", animalKingdom);
    ("kilimanjaro safaris", animalKingdom);
    ("dinosaur", animalKingdom);
    ("navi river journey", animalKingdom) ].

(** ** Pure helpers *)

(** A template literal renders [null] as the text [null]. *)
Definition render (v : option string) : string :=
  match v with Some s => s | None => "null" end.

(** [truthy] for a value that is a string or [null]/[undefined]. *)
Definition present (v : option string) : bool :=
  match v with Some s => Js.nonEmpty s | None => false end.

Definition formatTime (militaryTime : option string) : option string :=
  match militaryTime with
  | None => None
  | Some t =>
      if negb (Js.nonEmpty t) || negb (Js.includes t ":") then Some t
      else
        let parts := Js.split ":" t in
        let hours := nth_error parts 0 in
        let minutes :=
          match nth_error parts 1 with Some m => m | None => "undefined" end in
        let hour24 :=
          match hours with Some h => Js.parseInt h | None => None end in
        Some
          match hour24 with
          | Some h =>
              if h =? 0 then "12:" ++ minutes ++ " AM"
              else if h <? 12 then Js.ofZ h ++ ":" ++ minutes ++ " AM"
              else if h =? 12 then "12:" ++ minutes ++ " PM"
              else Js.ofZ (h - 12) ++ ":" ++ minutes ++ " PM"
          | None => "NaN:" ++ minutes ++ " PM"
          end
  end.

Definition formatDate (dateString : string) : string :=
  if negb (Js.nonEmpty dateString) || negb (Js.includes dateString "-")
  then dateString
  else
    match Js.split "-" dateString with
    | [year; month; day] => month ++ "-" ++ day ++ "-" ++ year
    | _ => dateString
    end.

Record Analysis : Type := {
  isTimeQuery : bool;
  isSpecificLocationTime : bool;
  isCharacterQuery : bool;
  isSpecificCharacterLocation : bool;
  isEntertainmentQuery : bool;
  isFireworksQuery : bool;
  isShowQuery : bool;
  isParadeQuery : bool;
  isAttractionQuery : bool;
  isCrossParks : bool;
  targetPark : option ExtendedParkId
}.

Definition analyzeQuery (input : string) : Analysis :=
  let lower := Js.toLowerCase input in
  let has := Js.includes lower in
  {| isTimeQuery := has "time" || has "hours" || has "open" || has "close";
     isSpecificLocationTime :=
       has "fairytale hall" || has "princess fairytale hall" || has "fairy hall"
       || has "theater" || has "sideshow";
     isCharacterQuery :=
       has "character" || has "meet" || has "mickey"
       || (has "princess" && negb (has "fairytale") && negb (has "fairy hall")
           && negb (has "princess fairytale hall"));
     isSpecificCharacterLocation :=
       has "fairytale hall" || has "princess fairytale hall" || has "fairy hall"
       || has "town square theater" || has "pete's silly sideshow";
     isEntertainmentQuery :=
       has "show" || has "parade" || has "firework" || has "entertainment";
     isFireworksQuery := has "firework";
     isShowQuery := has "show" && negb (has "firework") && negb (has "parade");
     isParadeQuery := has "parade";
     isAttractionQuery := has "ride" || has "attraction" || has "wait";
     isCrossParks :=
       has "flight of passage" || has "rise of the resistance"
       || has "frozen ever after";
     targetPark :=
       if has "mk" || has "magic kingdom" then Some (Park magicKingdom)
       else if has "epcot" || has "ep" then Some (Park epcot)
       else if has "hollywood" || has "hs" then Some (Park hollywoodStudios)
       else if has "animal" || has "ak" then Some (Park animalKingdom)
       else None |}.

(** ** State and effects *)

(** The component's [useState] cells. *)
Record Session : Type := {
  currentPark : ExtendedParkId;
  messages : list Message;
  inputText : string;
  isLoading : bool;
  allAttractions : list Attraction;
  allEntertainment : list ParkEntertainment;
  allParkHours : list ParkHoursData;
  allCharacterMeets : list CharacterMeet;
  conversationContext : list string
}.

(** The [pixie_pal_feedback] item of the key-value store: nothing (or the
    empty text), a text [JSON.parse] rejects, or a text that parses. *)
Inductive Stored : Type :=
| Absent
| Garbage
| Blob (v : JSON).

(** What lies outside the component: how many times the clock or the
    random source was read, the prompts sent to the completion endpoint
    (oldest first), and the feedback item of the store. *)
Record World : Type := {
  tick : nat;
  completionLog : list string;
  feedbackStore : Stored
}.

(** A handler step: it may change the pending state and the world. *)
Definition M (A : Type) : Type := Session -> World -> A * Session * World.

Definition ret {A} (a : A) : M A := fun s w => (a, s, w).

Definition bind {A B} (c : M A) (k : A -> M B) : M B :=
  fun s w => let '(a, s1, w1) := c s w in k a s1 w1.

Notation "'let!' x <- c ; k" := (bind c (fun x => k))
  (at level 10, x name, c at level 100, k at level 200).
Notation "c ;; k" := (bind c (fun _ => k))
  (at level 100, k at level 200, right associativity).

Definition when (b : bool) (c : M unit) : M unit := if b then c else ret tt.

Definition setCurrentPark (p : ExtendedParkId) : M unit :=
  fun s w =>
    (tt, {| currentPark := p; messages := messages s; inputText := inputText s;
            isLoading := isLoading s; allAttractions := allAttractions s;
            allEntertainment := allEntertainment s; allParkHours := allParkHours s;
            allCharacterMeets := allCharacterMeets s;
            conversationContext := conversationContext s |}, w).

(** [setMessages(prev => f(prev))] *)
Definition setMessages (f : list Message -> list Message) : M unit :=
  fun s w =>
    (tt, {| currentPark := currentPark s; messages := f (messages s);
            inputText := inputText s; isLoading := isLoading s;
            allAttractions := allAttractions s;
            allEntertainment := allEntertainment s; allParkHours := allParkHours s;
            allCharacterMeets := allCharacterMeets s;
            conversationContext := conversationContext s |}, w).

Definition setInputText (t : string) : M unit :=
  fun s w =>
    (tt, {| currentPark := currentPark s; messages := messages s;
            inputText := t; isLoading := isLoading s;
            allAttractions := allAttractions s;
            allEntertainment := allEntertainment s; allParkHours := allParkHours s;
            allCharacterMeets := allCharacterMeets s;
            conversationContext := conversationContext s |}, w).

Definition setIsLoading (b : bool) : M unit :=
  fun s w =>
    (tt, {| currentPark := currentPark s; messages := messages s;
            inputText := inputText s; isLoading := b;
            allAttractions := allAttractions s;
            allEntertainment := allEntertainment s; allParkHours := allParkHours s;
            allCharacterMeets := allCharacterMeets s;
            conversationContext := conversationContext s |}, w).

(** [setConversationContext(prev => f(prev))] *)
Definition setConversationContext (f : list string -> list string) : M unit :=
  fun s w =>
    (tt, {| currentPark := currentPark s; messages := messages s;
            inputText := inputText s; isLoading := isLoading s;
            allAttractions := allAttractions s;
            allEntertainment := allEntertainment s; allParkHours := allParkHours s;
            allCharacterMeets := allCharacterMeets s;
            conversationContext := f (conversationContext s) |}, w).

(** ** The pattern responder *)

(** [attraction.land || fallback] *)
Definition landOr (fallback : string) (a : Attraction) : string :=
  if present (a_land a) then render (a_land a) else fallback.

Definition lightning (a : Attraction) : bool :=
  match a_hasLightningLane a with Some b => b | None => false end.

(** [rideName.split(' ').map(w => w.charAt(0).toUpperCase() + w.slice(1)).join(' ')] *)
Definition titleCase (rideName : string) : string :=
  Js.join " "
    (map (fun w => Js.toUpperCase (Js.charAt0 w) ++ Js.slice1 w) (Js.split " " rideName)).

(** The predicate of [allAttractions.find] in the attraction loop. *)
Definition liveRecord (parkId : ParkId) (rideName : string) (a : Attraction) : bool :=
  String.eqb (a_park a) (parkKey parkId)
  && Js.includes (Js.toLowerCase (a_name a)) rideName.

Definition attractionAnswer (lowerInput : string) (effectivePark : ExtendedParkId)
    (parkId : ParkId) (attraction : Attraction) : string :=
  let switched :=
    if negb (park_eqb parkId effectivePark) then "(Switched parks for you!) "
    else EmptyString in
  if Js.includes lowerInput "wait" || Js.includes lowerInput "how long"
     || Js.includes lowerInput "open" || negb (Js.includes lowerInput "where")
  then
    let lightningLane :=
      if lightning attraction then " ⚡ Lightning Lane available!" else EmptyString in
    "🎢 **" ++ a_name attraction ++ "** currently has a **" ++
    Js.ofZ (a_waitTime attraction) ++ " minute wait**!" ++ lightningLane ++
    Js.nl ++ Js.nl ++ "🏰 Located at " ++ PARK_NAMES parkId ++ " in " ++
    landOr "the park" attraction ++ "! " ++ switched ++ "✨"
  else
    "🎢 **" ++ a_name attraction ++ "** is located at " ++
    PARK_NAMES parkId ++ " in " ++ landOr "the park" attraction ++ "! " ++
    switched ++ "✨".

Definition locationOnlyAnswer (rideName : string) (parkId : ParkId) : string :=
  "🎢 " ++ titleCase rideName ++ " is located at " ++ PARK_NAMES parkId ++
  "! I've switched you to the correct park. ✨" ++ Js.nl ++ Js.nl ++
  "Try asking about it again for current wait times!".

(** The [for] loop over [Object.entries(ATTRACTION_TO_PARK)]: [Some r] when
    the loop returned [r], [None] when it ran to its end.  [snap] is what
    the closure captured. *)
Fixpoint scanAttractions (snap : Session) (lowerInput : string)
    (effectivePark : ExtendedParkId) (table : list (string * ParkId))
  : M (option string) :=
  match table with
  | [] => ret None
  | (rideName, parkId) :: rest =>
      if Js.includes lowerInput rideName then
        match find (liveRecord parkId rideName) (allAttractions snap) with
        | Some attraction =>
            when (negb (park_eqb parkId (currentPark snap))) (setCurrentPark parkId) ;;
            ret (Some (attractionAnswer lowerInput effectivePark parkId attraction))
        | None =>
            if negb (park_eqb parkId effectivePark) then
              setCurrentPark parkId ;;
              ret (Some (locationOnlyAnswer rideName parkId))
            else scanAttractions snap lowerInput effectivePark rest
        end
      else scanAttractions snap lowerInput effectivePark rest
  end.

Definition generalHours (p : ExtendedParkId) : string :=
  match p with
  | Park magicKingdom => "9:00 AM - 10:00 PM"
  | Park epcot => "9:00 AM - 9:00 PM"
  | Park hollywoodStudios => "9:00 AM - 9:00 PM"
  | Park animalKingdom => "8:00 AM - 8:00 PM"
  | disneySprings => "10:00 AM - 11:00 PM"
  | resorts => "24/7 for guests"
  end.

(** The answer built from cached hours: [todayHours :: later] is the
    non-empty [parkHoursData.hours.hours]. *)
Definition hoursAnswer (parkName : string) (todayHours : ParkHours)
    (later : list ParkHours) : string :=
  let response := "🕐 **" ++ parkName ++ " Hours:**" ++ Js.nl ++ Js.nl in
  let response :=
    if present (h_openingTime todayHours) && present (h_closingTime todayHours)
    then
      let openTime := formatTime (h_openingTime todayHours) in
      let closeTime := formatTime (h_closingTime todayHours) in
      response ++ "📅 **Today:** " ++ render openTime ++ " - " ++ render closeTime ++
      Js.nl
    else response in
  let response :=
    if Js.nonEmpty (h_date todayHours)
    then response ++ "📆 **Date:** " ++ formatDate (h_date todayHours) ++ Js.nl
    else response in
  let response :=
    match later with
    | tomorrowHours :: _ =>
        let tomorrowOpen := formatTime (h_openingTime tomorrowHours) in
        let tomorrowClose := formatTime (h_closingTime tomorrowHours) in
        response ++ "📅 **Tomorrow:** " ++ render tomorrowOpen ++ " - " ++
      render tomorrowClose ++ Js.nl
    | [] => response
    end in
  response ++ Js.nl ++
    "✨ These are today's official operating hours! Have a magical day! 🏰".

Definition typicalHoursAnswer (effectivePark : ExtendedParkId) : string :=
  let parkName := PARK_NAMES effectivePark in
  let hours := generalHours effectivePark in
  "🕐 **" ++ parkName ++ " Hours:**" ++ Js.nl ++ Js.nl ++ "⏰ **Typical:** " ++
  hours ++ Js.nl ++ Js.nl ++
  "✨ Check the Disney World app for today's exact hours!".

Definition disneySpringsHours : string :=
  "🕐 **Disney Springs Hours:**" ++ Js.nl ++ Js.nl ++
  "⏰ **Typical:** 10:00 AM - 11:00 PM" ++ Js.nl ++
  "📱 **Status:** Open daily" ++ Js.nl ++ Js.nl ++
  "✨ Individual shop and restaurant hours may vary. Check the Disney World app for specific store hours!".

Definition disneySpringsInfo : string :=
  "🛍️ **Disney Springs** is Disney's shopping and dining district! I don't have live data for Springs yet, but it's open daily from 10 AM to 11 PM. Check the Disney World app for specific store and restaurant information! ✨".

Definition resortsInfo : string :=
  "🏨 **Disney Resort Hotels** are available 24/7 for guests! I don't have specific resort data yet, but you can check the Disney World app or call your resort directly for amenities, dining reservations, and transportation schedules! ✨".

(** What [tryPatternMatch] does once the attraction loop has run to its
    end. *)
Definition afterScan (snap : Session) (input : string)
    (effectivePark : ExtendedParkId) : option string :=
  let analysis := analyzeQuery input in
  match effectivePark with
  | disneySprings =>
      if isTimeQuery analysis then Some disneySpringsHours
      else Some disneySpringsInfo
  | resorts => Some resortsInfo
  | Park _ =>
      if isTimeQuery analysis && negb (isSpecificLocationTime analysis) then
        let parkName := PARK_NAMES effectivePark in
        let parkHoursData :=
          find (fun p => park_eqb (ph_park p) effectivePark)
               (allParkHours snap) in
        match parkHoursData with
        | Some {| ph_hours := Some (todayHours :: later) |} =>
            Some (hoursAnswer parkName todayHours later)
        | _ => Some (typicalHoursAnswer effectivePark)
        end
      else None
  end.

(** [tryPatternMatch(input, contextPark?)]; [None] is [null]. *)
Definition tryPatternMatch (snap : Session) (input : string)
    (contextPark : option ExtendedParkId) : M (option string) :=
  let lowerInput := Js.toLowerCase input in
  let effectivePark :=
    match contextPark with Some p => p | None => currentPark snap end in
  let! hit <- scanAttractions snap lowerInput effectivePark ATTRACTION_TO_PARK ;
  match hit with
  | Some answer => ret (Some answer)
  | None => ret (afterScan snap input effectivePark)
  end.

(** ** The resolution pipeline *)

(** [v || fallback] for a string-or-absent [v]. *)
Definition orText (v : option string) (fallback : string) : string :=
  if present v then render v else fallback.

(** [xs?.join(', ')] *)
Definition joinOpt (xs : option (list string)) : option string :=
  match xs with Some l => Some (Js.join ", " l) | None => None end.

(** [xs.slice(-n)] *)
Definition lastN {A} (n : nat) (xs : list A) : list A := skipn (length xs - n) xs.

Definition inPark (targetPark : ExtendedParkId) (a : Attraction) : bool :=
  String.eqb (a_park a) (parkKey targetPark).

(** [allEntertainment.find(e => e.park === targetPark)?.entertainment || []] *)
Definition entertainmentOf (snap : Session) (targetPark : ExtendedParkId)
  : list Entertainment :=
  match find (fun e => park_eqb (pe_park e) targetPark)
             (allEntertainment snap) with
  | Some e => pe_entertainment e
  | None => []
  end.

Definition charactersOf (snap : Session) (targetPark : ExtendedParkId)
  : list CharacterMeet :=
  filter (fun meet =>
            match c_park meet with
            | Some p => String.eqb p (parkKey targetPark)
            | None => false
            end)
         (allCharacterMeets snap).

Definition attractionLine (a : Attraction) : string :=
  a_name a ++ " (" ++ landOr "park" a ++ ") - " ++ Js.ofZ (a_waitTime a) ++
  " min wait" ++
  (if lightning a then " (Lightning Lane available)" else EmptyString) ++
  (if negb (a_isOpen a) then " (CLOSED)" else EmptyString).

Definition entertainmentLine (e : Entertainment) : string :=
  let times := orText (joinOpt (e_times e)) "Times vary" in
  let location :=
    if present (e_location e) then render (e_location e)
    else orText (e_land e) "Multiple locations" in
  let type :=
    if present (e_type e) then
      let ty := render (e_type e) in "[" ++ ty ++ "]"
    else EmptyString in
  e_name e ++ " " ++ type ++ " - " ++ times ++ " (" ++ location ++ ")".

Definition characterNames (meet : CharacterMeet) : string :=
  if present (joinOpt (c_characters meet)) then render (joinOpt (c_characters meet))
  else orText (c_character meet) "Character".

Definition characterTimes (meet : CharacterMeet) : string :=
  if present (joinOpt (c_times meet)) then render (joinOpt (c_times meet))
  else orText (c_time meet) "Check times".

Definition characterLine (meet : CharacterMeet) : string :=
  let characters := characterNames meet in
  let times := characterTimes meet in
  characters ++ " - " ++ c_location meet ++ " (" ++ times ++ ")".

Definition aiPrompt (snap : Session) (input : string)
    (targetPark : ExtendedParkId) : string :=
  let currentParkAttractions := filter (inPark targetPark) (allAttractions snap) in
  let currentParkEntertainment := entertainmentOf snap targetPark in
  let currentParkCharacters := charactersOf snap targetPark in
  let attractionsContext := Js.join Js.nl (map attractionLine currentParkAttractions) in
  let entertainmentContext :=
    match currentParkEntertainment with
    | _ :: _ => Js.join Js.nl (map entertainmentLine currentParkEntertainment)
    | [] => "No scheduled entertainment found"
    end in
  let characterContext :=
    match currentParkCharacters with
    | _ :: _ => Js.join Js.nl (map characterLine currentParkCharacters)
    | [] => "No character meet data available"
    end in
  "You are Pixie Pal, a Disney assistant! 🏰" ++ Js.nl ++ Js.nl ++
  "CONTEXT:" ++ Js.nl ++ "- Current Park: " ++ PARK_NAMES targetPark ++
  Js.nl ++ "- User Question: " ++ Js.dq ++ input ++ Js.dq ++ Js.nl ++
  Js.nl ++ "LIVE " ++ PARK_NAMES targetPark ++ " DATA:" ++ Js.nl ++ Js.nl ++
  "ATTRACTIONS & WAIT TIMES:" ++ Js.nl ++ attractionsContext ++ Js.nl ++
  Js.nl ++ "ENHANCED ENTERTAINMENT & SHOWS:" ++ Js.nl ++
  entertainmentContext ++ Js.nl ++ Js.nl ++ "CHARACTER MEETS:" ++ Js.nl ++
  characterContext ++ Js.nl ++ Js.nl ++ "RESPONSE RULES:" ++ Js.nl ++
  "1. Be specific and direct - don't ask for clarification" ++ Js.nl ++
  "2. Use exact location names from the data" ++ Js.nl ++
  "3. Include times when available" ++ Js.nl ++
  "4. Don't greet (we're already talking)" ++ Js.nl ++
  "5. Focus on exactly what they asked for" ++ Js.nl ++ Js.nl ++
  "Answer the user's question using this enhanced Disney data!".

Definition processingPlaceholder : string :=
  "I had a magical moment processing that! ✨".

(** [aiData.choices[0]?.message?.content || '...'] *)
Definition completionBody (aiData : JSON) : Outcome JSON :=
  try! choices <- Val.get (Some aiData) "choices" ;
  try! choice <- Val.first choices ;
  let content := Val.getOpt (Val.getOpt choice "message") "content" in
  Ok (match content with
      | Some c => if Val.truthyJ c then c else JStr processingPlaceholder
      | None => JStr processingPlaceholder
      end).

(** The [catch] block: an answer composed from the cache alone. *)
Definition fallbackAnswer (snap : Session) (input : string)
    (targetPark : ExtendedParkId) : string :=
  let analysis := analyzeQuery input in
  let currentParkAttractions := filter (inPark targetPark) (allAttractions snap) in
  let currentParkCharacters := charactersOf snap targetPark in
  let currentParkEntertainment := entertainmentOf snap targetPark in
  if isEntertainmentQuery analysis && negb (Nat.eqb (length currentParkEntertainment) 0)
  then
    let response := "🎭 **Entertainment at " ++ PARK_NAMES targetPark ++ ":**" ++ Js.nl ++
      Js.nl in
    let entertainmentShows :=
      firstn 5
        (filter (fun show =>
                   negb (match e_type show with
                         | Some ty => Js.includes ty "character-meet"
                         | None => false
                         end))
                currentParkEntertainment) in
    let response :=
      fold_left
        (fun response show =>
           let times := orText (joinOpt (e_times show)) "Check times" in
           response ++ "🎪 **" ++ e_name show ++ "** - " ++ times ++ Js.nl)
        entertainmentShows response in
    response ++ Js.nl ++ "✨ Enhanced entertainment data! Check Disney app for updates! 🎭"
  else if isCharacterQuery analysis && negb (Nat.eqb (length currentParkCharacters) 0)
  then
    let response := "🧚‍♀️ **Character Meets at " ++ PARK_NAMES targetPark ++ ":**" ++
      Js.nl ++ Js.nl in
    let response :=
      fold_left
        (fun response meet =>
           let characters := characterNames meet in
           let times := characterTimes meet in
           response ++ "✨ **" ++ characters ++ "** at " ++ c_location meet ++ " (" ++
           times ++ ")" ++ Js.nl)
        (firstn 3 currentParkCharacters) response in
    response ++ Js.nl ++ "💫 Character times can change - arrive early! ✨"
  else if isAttractionQuery analysis && negb (Nat.eqb (length currentParkAttractions) 0)
  then
    let list :=
      Js.join Js.nl
        (map (fun a => "🎢 " ++ a_name a ++ " - " ++ Js.ofZ (a_waitTime a) ++ " min" ++
          (if lightning a then " ⚡" else EmptyString))
             (firstn 5 currentParkAttractions)) in
    "🏰 **" ++ PARK_NAMES targetPark ++ " Top Attractions:**" ++ Js.nl ++
    Js.nl ++ list ++ Js.nl ++ Js.nl ++ "✨ Live wait times updated regularly!"
  else
    "✨ I'm having a magical moment with the AI! But I have enhanced data including " ++
    Js.ofNat (length currentParkAttractions) ++ " attractions, " ++
    Js.ofNat (length currentParkEntertainment) ++
    " entertainment shows, and " ++
    Js.ofNat (length currentParkCharacters) ++ " character meets at " ++
    PARK_NAMES targetPark ++ ". Try asking " ++ Js.dq ++
    "show me all rides" ++ Js.dq ++ ", " ++ Js.dq ++
    "what shows are happening" ++ Js.dq ++ ", or " ++ Js.dq ++
    "character meets" ++ Js.dq ++ "! 🏰".

Definition disneySpringsStatic : string :=
  "🛍️ **Disney Springs** is Disney's shopping and dining district!" ++
  Js.nl ++ Js.nl ++
  "📍 **What's there:** World-class shopping, amazing restaurants, live entertainment" ++
  Js.nl ++ "🕐 **Hours:** 10:00 AM - 11:00 PM daily" ++ Js.nl ++
  "🚗 **Parking:** Free parking available" ++ Js.nl ++ Js.nl ++
  "✨ Check the Disney World app for specific store and restaurant hours!".

Definition resortsStatic : string :=
  "🏨 **Disney Resort Hotels** offer magical accommodations!" ++ Js.nl ++
  Js.nl ++
  "🏰 **Deluxe Resorts:** Grand Floridian, Polynesian, Contemporary" ++
  Js.nl ++
  "🌟 **Moderate Resorts:** Port Orleans, Caribbean Beach, Coronado Springs" ++
  Js.nl ++
  "💰 **Value Resorts:** All-Star Movies/Music/Sports, Pop Century, Art of Animation" ++
  Js.nl ++ Js.nl ++
  "✨ Each resort has unique theming, dining, and transportation to the parks!".

Definition welcomeText : string :=
  "🏰 Welcome to the magic! I'm Pixie Pal!" ++ Js.nl ++ Js.nl ++
  "✨ I know EVERYTHING about Disney World:" ++ Js.nl ++
  "🎢 Live wait times" ++ Js.nl ++ "🎭 Show schedules  " ++ Js.nl ++
  "🍽️ Dining reservations" ++ Js.nl ++ "⚡ Lightning Lane tips" ++ Js.nl ++
  Js.nl ++ "Ready to make some Disney magic? What's your first question! 🌟".

Definition apologyText : string :=
  "Something magical went wrong! ✨ Try asking me about wait times or park hours!".

Section Handlers.

(** The outside world as the handlers meet it: the time the clock shows
    at its n-th reading (milliseconds), the text of the n-th random
    number, the ISO rendering of a time, and what the completion endpoint
    does with the n-th request. *)
Variable clock : nat -> Z.
Variable random : nat -> string.
Variable toISOString : Z -> string.
Variable complete : nat -> string -> FetchOutcome.

(** [Date.now()], [new Date()] *)
Definition readClock : M Z :=
  fun s w =>
    (clock (tick w), s,
     {| tick := S (tick w); completionLog := completionLog w;
        feedbackStore := feedbackStore w |}).

(** [Math.random()], as a template literal renders it. *)
Definition readRandom : M string :=
  fun s w =>
    (random (tick w), s,
     {| tick := S (tick w); completionLog := completionLog w;
        feedbackStore := feedbackStore w |}).

(** [await fetch('https://api.openai.com/v1/chat/completions', ...)] *)
Definition fetchCompletion (prompt : string) : M FetchOutcome :=
  fun s w =>
    (complete (length (completionLog w)) prompt, s,
     {| tick := tick w; completionLog := (completionLog w ++ [prompt])%list;
        feedbackStore := feedbackStore w |}).

(** The [try] block of [processUserInput]. *)
Definition askCompletion (snap : Session) (input : string)
    (targetPark : ExtendedParkId) : M (Outcome JSON) :=
  let! response <- fetchCompletion (aiPrompt snap input targetPark) ;
  ret match response with
      | NetworkError => Raised
      | Response status body =>
          if negb (statusOk status) then Raised
          else match body with
               | Unparsable => Raised
               | Parsed aiData => completionBody aiData
               end
      end.

(** The fallback composer: the [try]/[catch] that ends [processUserInput]. *)
Definition composeFallback (snap : Session) (input : string)
    (targetPark : ExtendedParkId) : M (Outcome JSON) :=
  let! attempt <- askCompletion snap input targetPark ;
  match attempt with
  | Ok aiResponse => ret (Ok aiResponse)
  | Raised => ret (Ok (JStr (fallbackAnswer snap input targetPark)))
  end.

(** [processUserInput(input)].  With the cache at its declared shapes
    nothing outside the [try] can throw; the last two static answers
    stand where the source has them, after the pattern responder. *)
Definition processUserInput (snap : Session) (input : string) : M (Outcome JSON) :=
  setConversationContext (fun prev => (lastN 4 prev ++ [input])%list) ;;
  let analysis := analyzeQuery input in
  let targetPark :=
    match targetPark analysis with Some p => p | None => currentPark snap end in
  when (negb (park_eqb targetPark (currentPark snap))) (setCurrentPark targetPark) ;;
  let! patternResult <- tryPatternMatch snap input (Some targetPark) ;
  if present patternResult then ret (Ok (JStr (render patternResult)))
  else
    match targetPark with
    | disneySprings => ret (Ok (JStr disneySpringsStatic))
    | resorts => ret (Ok (JStr resortsStatic))
    | Park _ => composeFallback snap input targetPark
    end.

(** The message literals of [sendMessage]: the id is the prefix, then
    [Date.now()], an underscore and [Math.random()]; the timestamp is a
    further [new Date()]. *)
Definition newMessage (prefix : string) (text : JSON) (isUser : bool)
    (showFeedback : option bool) : M Message :=
  let! now <- readClock ;
  let! rnd <- readRandom ;
  let! stamp <- readClock ;
  ret {| m_id := prefix ++ Js.ofZ now ++ "_" ++ rnd; m_text := text;
         m_isUser := isUser; m_timestamp := stamp;
         m_showFeedback := showFeedback; m_feedback := None |}.

(** [sendMessage(messageText?)] *)
Definition sendMessage (snap : Session) (messageText : option string) : M unit :=
  let textToSend :=
    if present messageText then render messageText else Js.trim (inputText snap) in
  if negb (Js.nonEmpty textToSend) then ret tt
  else if isLoading snap then ret tt
  else
    let! userMessage <- newMessage "user_" (JStr textToSend) true None ;
    setMessages (fun prev => (prev ++ [userMessage])%list) ;;
    setInputText EmptyString ;;
    setIsLoading true ;;
    let! response <- processUserInput snap textToSend ;
    (match response with
     | Ok text =>
         let! aiMessage <- newMessage "ai_" text false (Some true) ;
         setMessages (fun prev => (prev ++ [aiMessage])%list)
     | Raised =>
         let! errorMessage <- newMessage "error_" (JStr apologyText) false (Some true) ;
         setMessages (fun prev => (prev ++ [errorMessage])%list)
     end) ;;
    setIsLoading false.

(** ** Feedback *)

(** What the updater of [handleFeedback] makes of one message, given the
    feedback record: [{ ...msg, feedback }] for a message with the id,
    the message itself otherwise. *)
Definition attach (messageId : string) (fb : Feedback) (msg : Message) : Message :=
  if String.eqb (m_id msg) messageId then
    {| m_id := m_id msg; m_text := m_text msg; m_isUser := m_isUser msg;
       m_timestamp := m_timestamp msg; m_showFeedback := m_showFeedback msg;
       m_feedback := Some fb |}
  else msg.

(** [messages.find(m => m.id === messageId)?.text?.substring(0, 100)]:
    [undefined] when no message has the id, and a [TypeError] when the
    text is a value without a [substring] method. *)
Definition messageTextOf (snap : Session) (messageId : string) : Outcome (option string) :=
  match find (fun m => String.eqb (m_id m) messageId) (messages snap) with
  | None => Ok None
  | Some m =>
      match m_text m with
      | JStr s => Ok (Some (Js.substring0 100 s))
      | JNull => Ok None
      | _ => Raised
      end
  end.

Definition feedbackTypeKey (t : FeedbackType) : string :=
  match t with positive => "positive" | negative => "negative" end.

Definition member (k : string) (v : option string) : list (string * JSON) :=
  match v with Some s => [(k, JStr s)] | None => [] end.

(** [feedbackData] as [JSON.stringify] writes it: a member whose value is
    [undefined] is left out. *)
Definition feedbackData (messageId : string) (feedbackType : FeedbackType)
    (comment : option string) (timestamp : string) (park : ExtendedParkId)
    (messageText : option string) : JSON :=
  JObj ([("messageId", JStr messageId);
         ("feedbackType", JStr (feedbackTypeKey feedbackType))]
        ++ member "comment" comment
        ++ [("timestamp", JStr timestamp); ("park", JStr (parkKey park))]
        ++ member "messageText" messageText)%list.

(** The [try] block that persists an entry: read the item, parse it (or
    start from [[]]), push, write back.  A text that does not parse, or
    parses to something without [push], throws; the [catch] only logs, so
    the item is left as it was. *)
Definition saveFeedback (entry : JSON) : M unit :=
  fun s w =>
    let store :=
      match feedbackStore w with
      | Absent => Blob (JArr [entry])
      | Blob (JArr feedbackArray) => Blob (JArr (feedbackArray ++ [entry]))
      | Blob v => Blob v
      | Garbage => Garbage
      end in
    (tt, s, {| tick := tick w; completionLog := completionLog w;
               feedbackStore := store |}).

(** The callback of [prev.map] in the updater of [handleFeedback]:
    [new Date()] stands in the branch of a message with the id, so the
    clock is read there, once for each such message, and not at all when
    no message has the id. *)
Definition attachNow (messageId : string) (feedbackType : FeedbackType)
    (comment : option string) (msg : Message) : M Message :=
  if String.eqb (m_id msg) messageId then
    let! now <- readClock ;
    ret {| m_id := m_id msg; m_text := m_text msg; m_isUser := m_isUser msg;
           m_timestamp := m_timestamp msg; m_showFeedback := m_showFeedback msg;
           m_feedback :=
             Some {| f_type := feedbackType; f_comment := comment;
                     f_timestamp := now |} |}
  else ret msg.

(** [prev.map(callback)] for a callback with effects, in list order. *)
Fixpoint mapEach (callback : Message -> M Message) (prev : list Message)
  : M (list Message) :=
  match prev with
  | [] => ret []
  | msg :: rest =>
      let! msg' <- callback msg ;
      let! rest' <- mapEach callback rest ;
      ret (msg' :: rest')
  end.

Definition readMessages : M (list Message) := fun s w => (messages s, s, w).

(** [handleFeedback(messageId, feedbackType, comment?)].  The updater is
    run on the pending messages when it is handed to [setMessages]; the
    time of the log entry is read after it. *)
Definition handleFeedback (snap : Session) (messageId : string)
    (feedbackType : FeedbackType) (comment : option string) : M (Outcome unit) :=
  let! prev <- readMessages ;
  let! next <- mapEach (attachNow messageId feedbackType comment) prev ;
  setMessages (fun _ => next) ;;
  let! logged <- readClock ;
  match messageTextOf snap messageId with
  | Raised => ret Raised
  | Ok messageText =>
      saveFeedback
        (feedbackData messageId feedbackType comment (toISOString logged)
           (currentPark snap) messageText) ;;
      ret (Ok tt)
  end.

End Handlers.

End Chat.

(** * The park-data service ([src/services/PixiePalDataService.ts]) *)

Module DataService.

(** [interface Attraction], with the members [normalizeAttractions]
    copies from the payload at the type the payload gives them. *)
Record Attraction : Type := {
  id : string;
  name : JSON;
  land : Val.t;
  waitTime : Z;
  isOpen : bool;
  hasLightningLane : JSON;
  lastUpdated : Val.t;
  park : ParkId
}.

Record ParkData : Type := {
  pd_parkName : string;
  pd_parkId : ParkId;
  pd_attractions : list Attraction;
  pd_lastUpdated : string;
  pd_source : string
}.

Definition parkMap (parkId : ParkId) : string :=
  match parkId with
  | magicKingdom => "magic-kingdom"
  | epcot => "epcot"
  | hollywoodStudios => "hollywood-studios"
  | animalKingdom => "animal-kingdom"
  end.

Definition getParkName (parkId : ParkId) : string := PARK_NAMES parkId.

(** [a || b] where [b] is a literal. *)
Definition orJ (a : Val.t) (b : JSON) : JSON :=
  match a with
  | Some j => if Val.truthyJ j then j else b
  | None => b
  end.

Section Clock.

(** The text of [new Date().toISOString()] read while the element at a
    given index is normalised, and the one read for the record itself. *)
Variable stampAt : nat -> string.
Variable stampEnd : string.

(** The callback of [attractions.map] in [normalizeAttractions]. *)
Definition normalizeOne (parkId : ParkId) (index : nat) (attraction : JSON)
  : Outcome Attraction :=
  try! rawId <- Val.get (Some attraction) "id" ;
  try! rawName <- Val.get (Some attraction) "name" ;
  try! rawLand <- Val.get (Some attraction) "land" ;
  try! rawArea <- Val.get (Some attraction) "area" ;
  try! rawWait <- Val.get (Some attraction) "waitTime" ;
  try! rawOpen <- Val.get (Some attraction) "isOpen" ;
  try! rawLane <- Val.get (Some attraction) "hasLightningLane" ;
  try! rawPass <- Val.get (Some attraction) "fastPassAvailable" ;
  try! rawUpdated <- Val.get (Some attraction) "lastUpdated" ;
  try! idText <- Val.strJ (orJ rawId (JNum (Z.of_nat index))) ;
  Ok {| id := parkKey parkId ++ "-" ++ idText;
        name := orJ rawName (JStr "Unknown Attraction");
        land := Some (orJ (Val.or rawLand rawArea) (JStr "Unknown Area"));
        waitTime := match rawWait with Some (JNum n) => n | _ => 0 end;
        isOpen := match rawOpen with Some (JBool false) => false | _ => true end;
        hasLightningLane := orJ (Val.or rawLane rawPass) (JBool false);
        lastUpdated := Some (orJ rawUpdated (JStr (stampAt index)));
        park := parkId |}.

Fixpoint normalizeFrom (parkId : ParkId) (index : nat) (attractions : list JSON)
  : Outcome (list Attraction) :=
  match attractions with
  | [] => Ok []
  | attraction :: rest =>
      try! a <- normalizeOne parkId index attraction ;
      try! r <- normalizeFrom parkId (S index) rest ;
      Ok (a :: r)
  end.

(** [normalizeAttractions(attractions, parkId)]: the argument is whatever
    the payload held; only an array has a [map]. *)
Definition normalizeAttractions (attractions : JSON) (parkId : ParkId)
  : Outcome (list Attraction) :=
  match attractions with
  | JArr items => normalizeFrom parkId 0 items
  | _ => Raised
  end.

Definition getFallbackWaitTimes (parkId : ParkId) : ParkData :=
  {| pd_parkName := getParkName parkId;
     pd_parkId := parkId;
     pd_attractions :=
       [ {| id := parkKey parkId ++ "-fallback-1";
            name := JStr "Check Disney World App";
            land := None;
            waitTime := 0;
            isOpen := true;
            hasLightningLane := JBool false;
            lastUpdated := None;
            park := parkId |} ];
     pd_lastUpdated := stampEnd;
     pd_source := "fallback" |}.

Definition getFallbackParkHours (parkId : ParkId) : JSON :=
  JArr [ JObj [ ("date", JStr "Today");
                ("openingTime", JStr "9:00 AM");
                ("closingTime", JStr "10:00 PM");
                ("type", JStr "Operating") ] ].

Definition getFallbackEntertainment (parkId : ParkId) : JSON :=
  match parkId with
  | magicKingdom =>
      JArr [ JObj [ ("name", JStr "Festival of Fantasy Parade");
                    ("time", JStr "3:00 PM");
                    ("location", JStr "Frontierland → Main Street USA");
                    ("duration", JStr "20 minutes");
                    ("type", JStr "parade") ];
             JObj [ ("name", JStr "Happily Ever After");
                    ("time", JStr "9:00 PM");
                    ("location", JStr "Cinderella Castle");
                    ("type", JStr "fireworks") ] ]
  | epcot =>
      JArr [ JObj [ ("name", JStr "EPCOT Forever");
                    ("time", JStr "9:00 PM");
                    ("location", JStr "World Showcase Lagoon");
                    ("type", JStr "fireworks") ] ]
  | hollywoodStudios =>
      JArr [ JObj [ ("name", JStr "Fantasmic!");
                    ("time", JStr "8:30 PM");
                    ("location", JStr "Hollywood Hills Amphitheater");
                    ("type", JStr "show") ] ]
  | animalKingdom => JArr []
  end.

(** The [try] block of [getWaitTimes]. *)
Definition waitTimesBody (parkId : ParkId) (response : FetchOutcome) : Outcome ParkData :=
  match response with
  | NetworkError => Raised
  | Response status body =>
      if statusOk status then
        match body with
        | Unparsable => Raised
        | Parsed data =>
            try! raw <- Val.get (Some data) "attractions" ;
            try! attractions <- normalizeAttractions (orJ raw (JArr [])) parkId ;
            Ok {| pd_parkName := getParkName parkId;
                  pd_parkId := parkId;
                  pd_attractions := attractions;
                  pd_lastUpdated := stampEnd;
                  pd_source := "disney_proxy" |}
        end
      else Raised
  end.

(** [getWaitTimes(parkId)], given what the request to the proxy yields. *)
Definition getWaitTimes (parkId : ParkId) (response : FetchOutcome) : ParkData :=
  match waitTimesBody parkId response with
  | Ok data => data
  | Raised => getFallbackWaitTimes parkId
  end.

End Clock.

(** The [try] block shared in shape by [getParkHours] and
    [getEntertainment]: [return data.<member> || []]. *)
Definition memberBody (member : string) (response : FetchOutcome) : Outcome JSON :=
  match response with
  | NetworkError => Raised
  | Response status body =>
      if statusOk status then
        match body with
        | Unparsable => Raised
        | Parsed data =>
            try! raw <- Val.get (Some data) member ;
            Ok (orJ raw (JArr []))
        end
      else Raised
  end.

Definition getParkHours (parkId : ParkId) (response : FetchOutcome) : JSON :=
  match memberBody "schedule" response with
  | Ok schedule => schedule
  | Raised => getFallbackParkHours parkId
  end.

Definition getEntertainment (parkId : ParkId) (response : FetchOutcome) : JSON :=
  match memberBody "entertainment" response with
  | Ok events => events
  | Raised => getFallbackEntertainment parkId
  end.

End DataService.

(** * Loading the cache ([loadAttractions] of the chat screen)

    The loader is modelled on the payloads as they arrive, so what it
    collects is kept at the payload's own type. *)

Module Loader.

(** An element of [allData]: the object literal built from an attraction
    of the service. *)
Record LoadedAttraction : Type := {
  id : string;
  name : JSON;
  waitTime : Z;
  isOpen : bool;
  hasLightningLane : JSON;
  park : ParkId;
  land : Val.t
}.

(** The four local arrays of [loadAttractions].  An entertainment entry
    is [{ park, entertainment }], an hours entry [{ park, hours }], a
    character meet [{ ...meet, park }]; each is kept as the park with the
    payload value. *)
Record Collected : Type := {
  allData : list LoadedAttraction;
  allEntertainment : list (ParkId * JSON);
  allParkHours : list (ParkId * JSON);
  allCharacterMeets : list (ParkId * JSON)
}.

Definition nothing : Collected :=
  {| allData := []; allEntertainment := []; allParkHours := [];
     allCharacterMeets := [] |}.

(** What the requests for one park yield. *)
Record ParkResponses : Type := {
  waitTimes : FetchOutcome;
  entertainment : FetchOutcome;
  characterMeets : FetchOutcome;
  parkHours : FetchOutcome
}.

(** The inner [try]/[catch] around a direct request: the variable keeps
    its initial [null] ([None]) unless the response is ok and parses. *)
Definition directFetch (response : FetchOutcome) : Val.t :=
  match response with
  | Response status (Parsed data) => if statusOk status then Some data else None
  | _ => None
  end.

Definition fromService (parkId : ParkId) (attraction : DataService.Attraction)
  : LoadedAttraction :=
  {| id := DataService.parkMap parkId ++ "-" ++ DataService.id attraction;
     name := DataService.name attraction;
     waitTime := DataService.waitTime attraction;
     isOpen := true;
     hasLightningLane :=
       DataService.orJ (Some (DataService.hasLightningLane attraction)) (JBool false);
     park := parkId;
     land := DataService.land attraction |}.

(** [array.map(show => show.type)] throws on a value without [map] and
    on a [null] element. *)
Definition typesReadable (entertainment : JSON) : bool :=
  match entertainment with
  | JArr shows =>
      forallb (fun show => match show with JNull => false | _ => true end) shows
  | _ => false
  end.

(** The four [if] blocks that close the loop body.  The second and the
    third can throw, which they do before they push: [None] is a throw. *)
Definition pushAttractions (parkId : ParkId) (data : DataService.ParkData)
    (acc : Collected) : Collected :=
  {| allData :=
       (allData acc ++ map (fromService parkId) (DataService.pd_attractions data))%list;
     allEntertainment := allEntertainment acc;
     allParkHours := allParkHours acc;
     allCharacterMeets := allCharacterMeets acc |}.

Definition pushEntertainment (parkId : ParkId) (entertainmentData : Val.t)
    (acc : Collected) : option Collected :=
  match Val.getOpt entertainmentData "entertainment" with
  | Some shows =>
      if Val.truthy entertainmentData && Val.truthyJ shows then
        if typesReadable shows then
          Some {| allData := allData acc;
                  allEntertainment := (allEntertainment acc ++ [(parkId, shows)])%list;
                  allParkHours := allParkHours acc;
                  allCharacterMeets := allCharacterMeets acc |}
        else None
      else Some acc
  | None => Some acc
  end.

Definition pushCharacterMeets (parkId : ParkId) (characterMeetData : Val.t)
    (acc : Collected) : option Collected :=
  match Val.getOpt characterMeetData "characterMeets" with
  | Some meets =>
      if Val.truthy characterMeetData && Val.truthyJ meets then
        match meets with
        | JArr items =>
            Some {| allData := allData acc;
                    allEntertainment := allEntertainment acc;
                    allParkHours := allParkHours acc;
                    allCharacterMeets :=
                      (allCharacterMeets acc
                       ++ map (fun meet => (parkId, meet)) items)%list |}
        | _ => None
        end
      else Some acc
  | None => Some acc
  end.

Definition pushParkHours (parkId : ParkId) (parkHoursData : Val.t)
    (acc : Collected) : Collected :=
  match parkHoursData with
  | Some hours =>
      if Val.truthyJ hours then
        {| allData := allData acc;
           allEntertainment := allEntertainment acc;
           allParkHours := (allParkHours acc ++ [(parkId, hours)])%list;
           allCharacterMeets := allCharacterMeets acc |}
      else acc
  | None => acc
  end.

Section OnePark.

Variable stampAt : nat -> string.
Variable stampEnd : string.

(** The body of the [for] loop for one park, started from what earlier
    parks collected.  A throw is caught by the loop's own [catch]: what
    was pushed before it stays and the rest of the body is skipped. *)
Definition loadPark (parkId : ParkId) (r : ParkResponses) (acc : Collected) : Collected :=
  let data := DataService.getWaitTimes stampAt stampEnd parkId (waitTimes r) in
  let entertainmentData := directFetch (entertainment r) in
  let characterMeetData := directFetch (characterMeets r) in
  let parkHoursData := directFetch (parkHours r) in
  let acc1 := pushAttractions parkId data acc in
  match pushEntertainment parkId entertainmentData acc1 with
  | None => acc1
  | Some acc2 =>
      match pushCharacterMeets parkId characterMeetData acc2 with
      | None => acc2
      | Some acc3 => pushParkHours parkId parkHoursData acc3
      end
  end.

End OnePark.

Section AllParks.

(** The clock readings of the service, per park. *)
Variable stampAt : ParkId -> nat -> string.
Variable stampEnd : ParkId -> string.

Definition parks : list ParkId :=
  [magicKingdom; epcot; hollywoodStudios; animalKingdom].

Definition collect (responses : ParkId -> ParkResponses) : Collected :=
  fold_left
    (fun acc parkId =>
       loadPark (stampAt parkId) (stampEnd parkId) parkId (responses parkId) acc)
    parks nothing.

(** [loadAttractions]: [Some c] when the four setters are called with
    what was collected, [None] when the cache is left as it was
    ([allData.length] is 0). *)
Definition loadAttractions (responses : ParkId -> ParkResponses) : option Collected :=
  let c := collect responses in
  match allData c with
  | [] => None
  | _ :: _ => Some c
  end.

End AllParks.

End Loader.

(** * More of the park-data service: parade times, the combined fetch
    and the chat formatters *)

Module ServiceMore.

Definition getFallbackParadeTimes (parkId : ParkId) : JSON :=
  match parkId with
  | magicKingdom =>
      JArr [ JObj [ ("name", JStr "Festival of Fantasy Parade");
                    ("time", JStr "3:00 PM");
                    ("location", JStr "Frontierland → Main Street USA");
                    ("duration", JStr "20 minutes");
                    ("type", JStr "parade") ] ]
  | _ => JArr []
  end.

(** [getParadeTimes(parkId)]: [return data.parades || []], with the
    fallback in the [catch]. *)
Definition getParadeTimes (parkId : ParkId) (response : FetchOutcome) : JSON :=
  match DataService.memberBody "parades" response with
  | Ok parades => parades
  | Raised => getFallbackParadeTimes parkId
  end.

Record CompleteParkData : Type := {
  cp_waitTimes : DataService.ParkData;
  cp_parkHours : JSON;
  cp_entertainment : JSON;
  cp_parades : JSON
}.

(** [getCompleteParkData(parkId)], given what the four requests yield.
    None of the four fetchers rejects, so [Promise.all] resolves and the
    [catch] of this method is never entered. *)
Definition getCompleteParkData (stampAt : nat -> string) (stampEnd : string)
    (parkId : ParkId) (waitTimes parkHours entertainment parades : FetchOutcome)
  : CompleteParkData :=
  {| cp_waitTimes := DataService.getWaitTimes stampAt stampEnd parkId waitTimes;
     cp_parkHours := DataService.getParkHours parkId parkHours;
     cp_entertainment := DataService.getEntertainment parkId entertainment;
     cp_parades := getParadeTimes parkId parades |}.

End ServiceMore.

(** The formatters take values of their declared parameter types. *)

Module ServiceFormat.

Inductive DayType : Type := Operating | Closed.

(** [interface ParkHours] *)
Record ParkHours : Type := {
  date : string;
  openingTime : option string;
  closingTime : option string;
  type : DayType
}.

Inductive EventType : Type := parade | fireworks | show | characterMeet.

(** [string | number] *)
Inductive Duration : Type :=
| Minutes (n : Z)
| Text (s : string).

(** [interface EntertainmentEvent] *)
Record EntertainmentEvent : Type := {
  ev_name : string;
  ev_time : option string;
  ev_times : option (list string);
  ev_location : string;
  ev_duration : option Duration;
  ev_type : option EventType
}.

(** A template literal renders [null] as [null] and [undefined] as
    [undefined]. *)
Definition render (v : option string) : string :=
  match v with Some s => s | None => "null" end.

Definition renderU (v : option string) : string :=
  match v with Some s => s | None => "undefined" end.

Definition present (v : option string) : bool :=
  match v with Some s => Js.nonEmpty s | None => false end.

Definition todayLine (today : ParkHours) : string :=
  "📅 " ++ render (openingTime today) ++ " - " ++ render (closingTime today).

Definition upcomingLine (day : ParkHours) : list string :=
  if present (openingTime day) && present (closingTime day)
  then ["• " ++ date day ++ ": " ++ render (openingTime day) ++ " - " ++
       render (closingTime day)]
  else [].

(** [formatParkHours(schedule)]; the [for] loop runs over the indices 1
    to [Math.min(4, schedule.length) - 1]. *)
Definition formatParkHours (schedule : list ParkHours) : string :=
  match schedule with
  | [] =>
      "🕐 Park hours not available right now. Check the Disney World app for current hours! ✨"
  | today :: rest =>
      match type today with
      | Closed => "🚫 The park is closed today. Check back tomorrow! ✨"
      | Operating =>
          let lines := ["🕐 **Park Hours Today:**"] in
          let lines :=
            if present (openingTime today) && present (closingTime today)
            then (lines ++ [todayLine today])%list
            else lines in
          let lines :=
            match rest with
            | _ :: _ =>
                (lines ++ [EmptyString; "📅 **Upcoming Days:**"]
                 ++ flat_map upcomingLine (firstn 3 rest))%list
            | [] => lines
            end in
          Js.join Js.nl (lines ++ [EmptyString; "✨ Have a magical day!"])%list
      end
  end.

Definition hasType (t : EventType) (e : EntertainmentEvent) : bool :=
  match ev_type e, t with
  | Some parade, parade | Some fireworks, fireworks
  | Some show, show | Some characterMeet, characterMeet => true
  | _, _ => false
  end.

Definition eventLine (event : EntertainmentEvent) : string :=
  "• " ++ ev_name event ++ " - " ++ renderU (ev_time event) ++ " at " ++
  ev_location event.

(** [formatEntertainment(events)] *)
Definition formatEntertainment (events : list EntertainmentEvent) : string :=
  match events with
  | [] =>
      "🎭 No entertainment schedule available right now. Check the Disney World app for showtimes! ✨"
  | _ :: _ =>
      let lines := ["🎭 **Entertainment Today:**"; EmptyString] in
      let parades := filter (hasType parade) events in
      let fireworks := filter (hasType fireworks) events in
      let shows := filter (hasType show) events in
      let lines :=
        match parades with
        | _ :: _ =>
            (lines ++ ["🎪 **Parades:**"] ++ map eventLine parades
             ++ [EmptyString])%list
        | [] => lines
        end in
      let lines :=
        match fireworks with
        | _ :: _ =>
            (lines ++ ["🎆 **Fireworks:**"] ++ map eventLine fireworks
             ++ [EmptyString])%list
        | [] => lines
        end in
      let lines :=
        match shows with
        | _ :: _ => (lines ++ ["🎬 **Shows:**"] ++ map eventLine shows)%list
        | [] => lines
        end in
      Js.join Js.nl
        (lines ++ [EmptyString; "✨ Check times throughout the day - schedules may change!"])%list
  end.

(** [parade.times ? parade.times[0] : (parade.time || 'Check Disney app')] *)
Definition timeValueOf (parade : EntertainmentEvent) : string :=
  match ev_times parade with
  | Some times => renderU (hd_error times)
  | None => if present (ev_time parade) then renderU (ev_time parade)
            else "Check Disney app"
  end.

Definition paradeNameLine (parade : EntertainmentEvent) : string :=
  "🎭 **" ++ ev_name parade ++ "**".

Definition paradeTimeLine (parade : EntertainmentEvent) : string :=
  let timeValue := timeValueOf parade in
  "⏰ Time: " ++ timeValue.

Definition paradeLocationLine (parade : EntertainmentEvent) : string :=
  "📍 Location: " ++ ev_location parade.

Definition durationLine (durationText : string) : string :=
  "⏱️ Duration: " ++ durationText.

(** [if (parade.duration)] and the text it is given. *)
Definition durationLines (parade : EntertainmentEvent) : list string :=
  match ev_duration parade with
  | Some (Minutes n) =>
      if negb (n =? 0) then [durationLine (Js.ofZ n ++ " minutes")] else []
  | Some (Text s) => if Js.nonEmpty s then [durationLine s] else []
  | None => []
  end.

(** The lines one parade contributes. *)
Definition paradeLines (parade : EntertainmentEvent) : list string :=
  ([paradeNameLine parade; paradeTimeLine parade; paradeLocationLine parade]
   ++ durationLines parade ++ [EmptyString])%list.

(** [formatParadeTimes(parades)] *)
Definition formatParadeTimes (parades : list EntertainmentEvent) : string :=
  match parades with
  | [] =>
      "🎪 No parades scheduled today. Check the Disney World app for updates! ✨"
  | _ :: _ =>
      Js.join Js.nl
        (["🎪 **Parade Times Today:**"; EmptyString]
         ++ flat_map paradeLines parades
         ++ ["✨ Arrive early for the best viewing spots!"])%list
  end.

End ServiceFormat.

(** * More of the chat screen *)

Module ChatMore.

Import Chat.

(** [getParkAbbreviation(park)] *)
Definition getParkAbbreviation (park : ExtendedParkId) : string :=
  match park with
  | Park magicKingdom => "MK"
  | Park epcot => "EP"
  | Park hollywoodStudios => "HS"
  | Park animalKingdom => "AK"
  | disneySprings => "DS"
  | resorts => "RS"
  end.

(** [addWelcomeMessage()]: [setMessages([welcomeMessage])] replaces
    whatever the list held. *)
Definition addWelcomeMessage (clock : nat -> Z) : M unit :=
  let! now <- readClock clock ;
  let! stamp <- readClock clock ;
  setMessages
    (fun _ =>
       [ {| m_id := "welcome_" ++ Js.ofZ now; m_text := JStr welcomeText;
            m_isUser := false; m_timestamp := stamp;
            m_showFeedback := Some true; m_feedback := None |} ]).

(** The [onPress] of a park button. *)
Definition selectPark (park : ExtendedParkId) : M unit := setCurrentPark park.

End ChatMore.

(** * Vocabulary of the statements *)

Module ChatTerms.

Import Chat.

(** An entry of the attraction table answers an input when the input
    names it and either the cache holds a live record for it or its park
    is not the effective park: the two cases in which the attraction
    loop returns. *)
Definition answers (snap : Session) (effectivePark : ExtendedParkId)
    (lowerInput : string) (entry : string * ParkId) : bool :=
  Js.includes lowerInput (fst entry)
  && (existsb (liveRecord (snd entry) (fst entry)) (allAttractions snap)
      || negb (park_eqb (snd entry) effectivePark)).

(** The effective park of a call. *)
Definition effective (snap : Session) (contextPark : option ExtendedParkId)
  : ExtendedParkId :=
  match contextPark with Some p => p | None => currentPark snap end.

(** The cached record of the Space Mountain scenario; the scenario does
    not fix its id, its open flag or its land. *)
Definition spaceMountain (aid : string) (open : bool) (land : option string) : Attraction :=
  {| a_id := aid; a_name := "Space Mountain"; a_waitTime := 45; a_isOpen := open;
     a_hasLightningLane := Some true; a_park := "magicKingdom"; a_land := land |}.

(** A world in which nothing has happened yet. *)
Definition emptyWorld : World :=
  {| tick := 0; completionLog := []; feedbackStore := Absent |}.

(** A session with nothing but a current park and cached attractions. *)
Definition sessionWith (p : ExtendedParkId) (cache : list Attraction) : Session :=
  {| currentPark := p; messages := []; inputText := ""; isLoading := false;
     allAttractions := cache; allEntertainment := []; allParkHours := [];
     allCharacterMeets := []; conversationContext := [] |}.

(** The pending state and the world a handler step leaves. *)
Definition stateOf {A} (r : A * Session * World) : Session := snd (fst r).
Definition worldOf {A} (r : A * Session * World) : World := snd r.

(** The park [processUserInput] resolves for an input. *)
Definition resolvedPark (snap : Session) (input : string) : ExtendedParkId :=
  match targetPark (analyzeQuery input) with
  | Some p => p
  | None => currentPark snap
  end.

(** The current park once the two steps that can change it have run:
    the switch [processUserInput] makes to the resolved park, and
    [tryPatternMatch]. *)
Definition parkAfterPattern (snap : Session) (input : string) (pending : Session)
  : ExtendedParkId :=
  let target := resolvedPark snap input in
  currentPark
    (stateOf
       (bind (when (negb (park_eqb target (currentPark snap))) (setCurrentPark target))
             (fun _ => tryPatternMatch snap input (Some target))
             pending emptyWorld)).

(** The feedback log a stored item holds, when it holds one: nothing
    stored is the empty log. *)
Definition logOf (st : Stored) : option (list JSON) :=
  match st with
  | Absent => Some []
  | Blob (JArr entries) => Some entries
  | _ => None
  end.

(** A session with its messages replaced. *)
Definition withMessages (s : Session) (ms : list Message) : Session :=
  {| currentPark := currentPark s; messages := ms; inputText := inputText s;
     isLoading := isLoading s; allAttractions := allAttractions s;
     allEntertainment := allEntertainment s; allParkHours := allParkHours s;
     allCharacterMeets := allCharacterMeets s;
     conversationContext := conversationContext s |}.

(** The messages the updater of [handleFeedback] leaves when it starts
    with the clock at its n-th reading: the messages with the id, in list
    order, get the feedback with one reading after the other as its time;
    the other messages are kept. *)
Fixpoint attached (clock : nat -> Z) (messageId : string) (feedbackType : FeedbackType)
    (comment : option string) (n : nat) (prev : list Message) : list Message :=
  match prev with
  | [] => []
  | msg :: rest =>
      if String.eqb (m_id msg) messageId then
        attach messageId
          {| f_type := feedbackType; f_comment := comment; f_timestamp := clock n |} msg
        :: attached clock messageId feedbackType comment (S n) rest
      else msg :: attached clock messageId feedbackType comment n rest
  end.

(** How many messages have the id. *)
Definition carriers (messageId : string) (ms : list Message) : nat :=
  length (filter (fun m => String.eqb (m_id m) messageId) ms).

(** The world after the clock was read [k] more times. *)
Definition later (k : nat) (w : World) : World :=
  {| tick := k + tick w; completionLog := completionLog w;
     feedbackStore := feedbackStore w |}.

(** The world after one request to the completion endpoint. *)
Definition afterRequest (w : World) (prompt : string) : World :=
  {| tick := tick w; completionLog := (completionLog w ++ [prompt])%list;
     feedbackStore := feedbackStore w |}.

(** What the composer returns is a non-empty text, or the truthy value
    that a well-received body carried as the first choice's content
    where a text was expected. *)
Definition answerShape (complete : nat -> string -> FetchOutcome)
    (v : JSON) (w : World) (prompt : string) : Prop :=
  (exists text, v = JStr text /\ text <> "")
  \/ (Val.isString (Some v) = false
      /\ Val.truthyJ v = true
      /\ exists status aiData,
           complete (length (completionLog w)) prompt = Response status (Parsed aiData)
           /\ statusOk status = true
           /\ completionBody aiData = Ok v).

End ChatTerms.

Module ServiceTerms.

Import DataService.

(** A member of a payload element, [undefined] when the element is not
    an object or has no such member. *)
Definition raw (attraction : JSON) (k : string) : Val.t :=
  Val.getOpt (Some attraction) k.

(** What [normalizeAttractions] guarantees of the record it builds from a
    payload element. *)
Definition normalised (parkId : ParkId) (attraction : JSON) (a : Attraction) : Prop :=
  park a = parkId
  /\ waitTime a = match raw attraction "waitTime" with Some (JNum n) => n | _ => 0 end
  /\ (isOpen a = false <-> raw attraction "isOpen" = Some (JBool false))
  /\ name a = orJ (raw attraction "name") (JStr "Unknown Attraction")
  /\ Val.truthyJ (name a) = true
  /\ (Val.isString (raw attraction "name") = true
      \/ Val.truthy (raw attraction "name") = false ->
      exists text, name a = JStr text /\ text <> "").

(** The request was rejected or the status is outside 200-299. *)
Definition failed (response : FetchOutcome) : Prop :=
  response = NetworkError
  \/ exists status body, response = Response status body /\ statusOk status = false.

(** The response is ok and its body is an object without the member. *)
Definition lacks (member : string) (response : FetchOutcome) : Prop :=
  exists status fields,
    response = Response status (Parsed (JObj fields))
    /\ statusOk status = true
    /\ Val.field member fields = None.

(** The request brings nothing for the member. *)
Definition quiet (member : string) (response : FetchOutcome) : Prop :=
  failed response \/ lacks member response.

(** The response is ok and its body is an object that holds a truthy
    value as the member. *)
Definition brings (member : string) (response : FetchOutcome) (v : JSON) : Prop :=
  exists status fields,
    response = Response status (Parsed (JObj fields))
    /\ statusOk status = true
    /\ Val.field member fields = Some v
    /\ Val.truthyJ v = true.

(** The response is ok and its body is the truthy value. *)
Definition bringsBody (response : FetchOutcome) (v : JSON) : Prop :=
  exists status,
    response = Response status (Parsed v)
    /\ statusOk status = true
    /\ Val.truthyJ v = true.

(** The responses of a park with one request taken as rejected. *)
Definition withoutEntertainment (r : Loader.ParkResponses) : Loader.ParkResponses :=
  {| Loader.waitTimes := Loader.waitTimes r;
     Loader.entertainment := NetworkError;
     Loader.characterMeets := Loader.characterMeets r;
     Loader.parkHours := Loader.parkHours r |}.

Definition withoutCharacterMeets (r : Loader.ParkResponses) : Loader.ParkResponses :=
  {| Loader.waitTimes := Loader.waitTimes r;
     Loader.entertainment := Loader.entertainment r;
     Loader.characterMeets := NetworkError;
     Loader.parkHours := Loader.parkHours r |}.

Definition noon : string := "2025-07-04T12:00:00.000Z".

End ServiceTerms.

(** * Vocabulary of the further properties *)

Module MoreTerms.

(** The hour of the 12-hour clock and the half of the day. *)
Definition hour12 (h : Z) : Z := if h mod 12 =? 0 then 12 else h mod 12.

Definition meridiem (h : Z) : string := if h <? 12 then " AM" else " PM".

(** A text without the character. *)
Definition free (c : string) (s : string) : Prop := Js.includes s c = false.

(** The days of cached hours [tryPatternMatch] finds for a park: none
    when the park has no entry or its payload has no [hours]. *)
Definition cachedDays (snap : Chat.Session) (park : ExtendedParkId)
  : list Chat.ParkHours :=
  match find (fun p => park_eqb (Chat.ph_park p) park) (Chat.allParkHours snap) with
  | Some entry =>
      match Chat.ph_hours entry with Some days => days | None => [] end
  | None => []
  end.

(** Two sessions that differ at most in the current park and the recent
    inputs. *)
Definition sameData (s s' : Chat.Session) : Prop :=
  Chat.messages s' = Chat.messages s
  /\ Chat.inputText s' = Chat.inputText s
  /\ Chat.isLoading s' = Chat.isLoading s
  /\ Chat.allAttractions s' = Chat.allAttractions s
  /\ Chat.allEntertainment s' = Chat.allEntertainment s
  /\ Chat.allParkHours s' = Chat.allParkHours s
  /\ Chat.allCharacterMeets s' = Chat.allCharacterMeets s.

(** The entries of a payload list whose [type] is [parade]. *)
Definition isParade (event : JSON) : bool :=
  match Val.getOpt (Some event) "type" with
  | Some (JStr t) => String.eqb t "parade"
  | _ => false
  end.

Definition paradesOf (events : JSON) : JSON :=
  match events with
  | JArr items => JArr (filter isParade items)
  | other => other
  end.

(** The events [formatEntertainment] has a heading for. *)
Definition listed (e : ServiceFormat.EntertainmentEvent) : bool :=
  ServiceFormat.hasType ServiceFormat.parade e
  || ServiceFormat.hasType ServiceFormat.fireworks e
  || ServiceFormat.hasType ServiceFormat.show e.

(** A payload element whose [id] is truthy and cannot be rendered in
    the template literal of [normalizeAttractions]. *)
Definition unreadableId (element : JSON) : Prop :=
  exists v,
    ServiceTerms.raw element "id" = Some v
    /\ Val.truthyJ v = true
    /\ Val.strJ v = Raised.

(** A payload element whose [id] is missing or is [null], a boolean, a
    number or a text. *)
Definition plainId (element : JSON) : bool :=
  match ServiceTerms.raw element "id" with
  | Some (JArr _) | Some (JObj _) => false
  | _ => true
  end.

(** The first 100 UTF-16 code units of the welcome text: the emoji of
    the first and third lines count two each, so the text runs to the end
    of the third line. *)
Definition welcomeShown : string :=
  "🏰 Welcome to the magic! I'm Pixie Pal!" ++ Js.nl ++ Js.nl ++
  "✨ I know EVERYTHING about Disney World:" ++ Js.nl ++
  "🎢 Live wait times" ++ Js.nl.

(** The wait-times results a load works from, park by park. *)
Definition waitTimesOf (stamps : ParkId -> nat -> string) (ends : ParkId -> string)
    (responses : ParkId -> Loader.ParkResponses) (p : ParkId) : DataService.ParkData :=
  DataService.getWaitTimes (stamps p) (ends p) p (Loader.waitTimes (responses p)).

(** The four requests of a park all rejected. *)
Definition offline : Loader.ParkResponses :=
  {| Loader.waitTimes := NetworkError; Loader.entertainment := NetworkError;
     Loader.characterMeets := NetworkError; Loader.parkHours := NetworkError |}.

End MoreTerms.


(** * Properties *)

(** ** Parks *)

Lemma ParkId_eqb_eq (a b : ParkId) : ParkId_eqb a b = true <-> a = b.
Proof. destruct a, b; simpl; split; intro H; try reflexivity; discriminate. Qed.

Lemma park_eqb_eq (a b : ExtendedParkId) : park_eqb a b = true <-> a = b.
Proof.
  destruct a as [p| |], b as [q| |]; simpl; split; intro H;
    try reflexivity; try discriminate.
  - apply ParkId_eqb_eq in H. now subst.
  - injection H as ->. now apply ParkId_eqb_eq.
Qed.

Lemma park_eqb_refl (a : ExtendedParkId) : park_eqb a a = true.
Proof. now apply park_eqb_eq. Qed.

Lemma parkKey_inj (a b : ExtendedParkId) : parkKey a = parkKey b -> a = b.
Proof.
  destruct a as [[]| |], b as [[]| |]; simpl; intro H;
    try reflexivity; discriminate.
Qed.

Lemma parkKey_eqb (a b : ExtendedParkId) :
  String.eqb (parkKey a) (parkKey b) = park_eqb a b.
Proof. destruct a as [[]| |], b as [[]| |]; reflexivity. Qed.

(** ** Strings *)

Module JsFacts.

Lemma append_assoc (a b c : string) : ((a ++ b) ++ c = a ++ (b ++ c))%string.
Proof. induction a as [|x a IH]; simpl; [reflexivity | now rewrite IH]. Qed.

Lemma prefix_empty (s : string) : String.prefix "" s = true.
Proof. destruct s; reflexivity. Qed.

Lemma prefix_append (p s : string) : String.prefix p (p ++ s) = true.
Proof.
  induction p as [|x p IH]; simpl.
  - apply prefix_empty.
  - destruct (ascii_dec x x) as [_|n]; [exact IH | now destruct n].
Qed.

Lemma prefix_append_l (p a b : string) :
  String.prefix p a = true -> String.prefix p (a ++ b) = true.
Proof.
  revert a; induction p as [|x p IH]; intros a H; simpl.
  - apply prefix_empty.
  - destruct a as [|y a]; simpl in *; [discriminate|].
    destruct (ascii_dec x y); [now apply IH | discriminate].
Qed.

Lemma includes_empty (s : string) : Js.includes s "" = true.
Proof. destruct s; reflexivity. Qed.

Lemma includes_unfold (s sub : string) :
  Js.includes s sub =
  if String.prefix sub s then true
  else match s with
       | EmptyString => false
       | String _ r => Js.includes r sub
       end.
Proof. destruct s; reflexivity. Qed.

Lemma includes_cons (x : ascii) (r sub : string) :
  Js.includes (String x r) sub =
  if String.prefix sub (String x r) then true else Js.includes r sub.
Proof. reflexivity. Qed.

Lemma includes_here (sub s : string) : Js.includes (sub ++ s) sub = true.
Proof. now rewrite includes_unfold, prefix_append. Qed.

Lemma includes_append_r (sub a b : string) :
  Js.includes b sub = true -> Js.includes (a ++ b) sub = true.
Proof.
  intro H. induction a as [|x a IH]; [exact H|].
  change (String x a ++ b)%string with (String x (a ++ b)).
  rewrite includes_cons, IH. now destruct (String.prefix sub (String x (a ++ b))).
Qed.

Lemma includes_append_l (sub a b : string) :
  Js.includes a sub = true -> Js.includes (a ++ b) sub = true.
Proof.
  induction a as [|x a IH]; intro H.
  - destruct sub; [apply includes_empty | discriminate].
  - rewrite includes_cons in H.
    destruct (String.prefix sub (String x a)) eqn:P.
    + now rewrite includes_unfold, (prefix_append_l _ _ _ P).
    + change (String x a ++ b)%string with (String x (a ++ b)).
      rewrite includes_cons, (IH H).
      now destruct (String.prefix sub (String x (a ++ b))).
Qed.

Lemma nonEmpty_append_r (a b : string) :
  Js.nonEmpty b = true -> Js.nonEmpty (a ++ b) = true.
Proof. destruct a; simpl; [easy | reflexivity]. Qed.

Lemma nonEmpty_spec (s : string) : Js.nonEmpty s = true <-> s <> ""%string.
Proof. destruct s; simpl; split; intro H; try easy. Qed.

Lemma dropSpace_ascii (fwd : bool) (l : list nat) :
  forallb Js.asciiSpace l = true -> Js.dropSpace fwd l = [].
Proof.
  induction l as [|a l IH]; simpl; [reflexivity|].
  destruct (Js.asciiSpace a); simpl; [exact IH | discriminate].
Qed.

(** A text of ASCII white space only trims to the empty text. *)
Lemma trim_ascii_space (s : string) :
  forallb Js.asciiSpace (Js.bytes s) = true -> Js.trim s = ""%string.
Proof.
  intro H. unfold Js.trim. now rewrite (dropSpace_ascii true _ H).
Qed.

End JsFacts.

(** ** Sanity checks of the helpers on the spec's own examples *)

Example lower_ex : Js.toLowerCase "How Long is EPCOT" = "how long is epcot".
Proof. reflexivity. Qed.
Example trim_ex : Js.trim ("  hi there" ++ Js.nl ++ " ") = "hi there".
Proof. reflexivity. Qed.
Example split_ex : Js.split ":" "09:00" = ["09"; "00"].
Proof. reflexivity. Qed.
Example parse_ex : Js.parseInt "09" = Some 9.
Proof. reflexivity. Qed.
Example ofz_ex : Js.ofZ 45 = "45" /\ Js.ofZ 0 = "0" /\ Js.ofZ (-3) = "-3".
Proof. repeat split; reflexivity. Qed.
Example field_last : Val.field "a" [("a", JNum 1); ("b", JNull); ("a", JNum 2)] = Some (JNum 2).
Proof. reflexivity. Qed.
Example str_arr : Val.strJ (JArr [JNum 1; JNull; JStr "x"]) = Ok "1,,x".
Proof. reflexivity. Qed.
Example formatTime_morning : Chat.formatTime (Some "09:00") = Some "9:00 AM".
Proof. reflexivity. Qed.
Example formatTime_evening : Chat.formatTime (Some "22:30") = Some "10:30 PM".
Proof. reflexivity. Qed.
Example formatTime_midnight : Chat.formatTime (Some "00:15") = Some "12:15 AM".
Proof. reflexivity. Qed.
Example formatTime_noon : Chat.formatTime (Some "12:00") = Some "12:00 PM".
Proof. reflexivity. Qed.
Example formatTime_plain : Chat.formatTime (Some "9am") = Some "9am".
Proof. reflexivity. Qed.
Example formatDate_iso : Chat.formatDate "2025-07-04" = "07-04-2025".
Proof. reflexivity. Qed.
Example analyze_epcot :
  Chat.targetPark (Chat.analyzeQuery "what are epcot's hours") = Some (Park epcot)
  /\ Chat.isTimeQuery (Chat.analyzeQuery "what are epcot's hours") = true.
Proof. split; reflexivity. Qed.

(** ** The pattern responder *)

Module PatternFacts.

Import Chat ChatTerms JsFacts.

Lemma find_existsb {A} (p : A -> bool) (l : list A) :
  existsb p l = match find p l with Some _ => true | None => false end.
Proof.
  induction l as [|x l IH]; simpl; [reflexivity|].
  destruct (p x); simpl; [reflexivity | exact IH].
Qed.

Ltac step := unfold bind, ret, when, setCurrentPark; simpl.

Lemma scan_cons snap lowerInput effectivePark rideName parkId rest :
  scanAttractions snap lowerInput effectivePark ((rideName, parkId) :: rest)
  = if Js.includes lowerInput rideName then
      match find (liveRecord parkId rideName) (allAttractions snap) with
      | Some attraction =>
          bind (when (negb (park_eqb parkId (currentPark snap))) (setCurrentPark parkId))
               (fun _ => ret (Some (attractionAnswer lowerInput effectivePark parkId attraction)))
      | None =>
          if negb (park_eqb parkId effectivePark) then
            bind (setCurrentPark parkId)
                 (fun _ => ret (Some (locationOnlyAnswer rideName parkId)))
          else scanAttractions snap lowerInput effectivePark rest
      end
    else scanAttractions snap lowerInput effectivePark rest.
Proof. reflexivity. Qed.

Ltac find_text :=
  repeat first [ apply includes_here | apply includes_append_r ].

Lemma attractionAnswer_names_park lowerInput effectivePark parkId attraction :
  Js.includes (attractionAnswer lowerInput effectivePark parkId attraction)
              (PARK_NAMES parkId) = true.
Proof.
  unfold attractionAnswer.
  destruct (_ || _ || _ || _); find_text.
Qed.

Lemma locationOnlyAnswer_names_park rideName parkId :
  Js.includes (locationOnlyAnswer rideName parkId) (PARK_NAMES parkId) = true.
Proof. unfold locationOnlyAnswer. find_text. Qed.

(** The loop returns at the first entry that answers, with the park set
    to that entry's park. *)
Lemma scan_first_answer (snap : Session) (lowerInput : string)
    (effectivePark : ExtendedParkId) (table : list (string * ParkId)) :
  forall (pending : Session) (w : World) rideName parkId,
    find (answers snap effectivePark lowerInput) table = Some (rideName, parkId) ->
    currentPark pending = currentPark snap \/ Park parkId <> currentPark snap ->
    exists answer s',
      scanAttractions snap lowerInput effectivePark table pending w
      = (Some answer, s', w)
      /\ currentPark s' = Park parkId
      /\ Js.includes answer (PARK_NAMES parkId) = true.
Proof.
  induction table as [|[ride park] rest IH]; intros pending w rideName parkId Hfind Hcur;
    [discriminate|].
  rewrite scan_cons.
  cbn [find] in Hfind. unfold answers at 1 in Hfind. cbn [fst snd] in Hfind.
  rewrite find_existsb in Hfind.
  destruct (Js.includes lowerInput ride); cbn [andb] in Hfind; [|now eapply IH; eauto].
  destruct (find (liveRecord park ride) (allAttractions snap)) as [a|];
    cbn [orb] in Hfind.
  - injection Hfind as <- <-.
    exists (attractionAnswer lowerInput effectivePark park a).
    destruct (park_eqb park (currentPark snap)) eqn:E; step.
    + exists pending. repeat split.
      * apply park_eqb_eq in E. destruct Hcur as [Hcur|Hcur]; congruence.
      * apply attractionAnswer_names_park.
    + eexists; repeat split. apply attractionAnswer_names_park.
  - destruct (park_eqb park effectivePark); cbn [negb] in *.
    + now eapply IH; eauto.
    + injection Hfind as <- <-. step.
      do 2 eexists; repeat split. apply locationOnlyAnswer_names_park.
Qed.

(** When no entry answers, the loop runs to its end and changes nothing. *)
Lemma scan_no_answer (snap : Session) (lowerInput : string)
    (effectivePark : ExtendedParkId) (table : list (string * ParkId)) :
  forall (pending : Session) (w : World),
    find (answers snap effectivePark lowerInput) table = None ->
    scanAttractions snap lowerInput effectivePark table pending w = (None, pending, w).
Proof.
  induction table as [|[ride park] rest IH]; intros pending w Hfind; [reflexivity|].
  rewrite scan_cons.
  cbn [find] in Hfind. unfold answers at 1 in Hfind. cbn [fst snd] in Hfind.
  rewrite find_existsb in Hfind.
  destruct (Js.includes lowerInput ride); cbn [andb] in Hfind; [|now apply IH].
  destruct (find (liveRecord park ride) (allAttractions snap));
    cbn [orb] in Hfind; [discriminate|].
  destruct (park_eqb park effectivePark); cbn [negb] in *;
    [now apply IH | discriminate].
Qed.

(** C1, as stated, fails: an input can name two attractions of different
    parks.  With Space Mountain cached and Magic Kingdom current, the
    input below contains the keyword [test track], whose park is EPCOT,
    yet the answer is about Space Mountain and the current park stays
    Magic Kingdom. *)
Lemma C1_counterexample :
  let snap := sessionWith (Park magicKingdom) [spaceMountain "mk-1" true None] in
  let input := "test track or space mountain" in
  In ("test track", epcot) ATTRACTION_TO_PARK
  /\ Js.includes (Js.toLowerCase input) "test track" = true
  /\ exists answer s',
       tryPatternMatch snap input None snap emptyWorld = (Some answer, s', emptyWorld)
       /\ currentPark s' = Park magicKingdom
       /\ currentPark s' <> Park epcot
       /\ Js.includes answer (PARK_NAMES epcot) = false.
Proof.
  cbv zeta. split; [| split].
  - simpl. do 10 right. now left.
  - reflexivity.
  - do 2 eexists. split; [vm_compute; reflexivity|].
    split; [reflexivity|]. split; [discriminate | vm_compute; reflexivity].
Qed.

(** C1 (amended).  Whatever the current park and the context park, if
    [(rideName, parkId)] is the first entry of the attraction table, in
    table order, that answers the lower-cased input (the input names it,
    and it has a live record or its park is not the effective park),
    then [tryPatternMatch] returns an answer that names that entry's
    park, and the current park after the call is that park.  The call
    runs from a pending state whose current park is the one the closure
    captured, or the entry's park differs from the captured one. *)
Theorem tryPatternMatch_resolves_first_answering_entry
    (snap pending : Session) (input : string) (contextPark : option ExtendedParkId)
    (w : World) (rideName : string) (parkId : ParkId) :
  find (answers snap (effective snap contextPark) (Js.toLowerCase input))
       ATTRACTION_TO_PARK = Some (rideName, parkId) ->
  currentPark pending = currentPark snap \/ Park parkId <> currentPark snap ->
  exists answer s',
    tryPatternMatch snap input contextPark pending w = (Some answer, s', w)
    /\ currentPark s' = Park parkId
    /\ Js.includes answer (PARK_NAMES parkId) = true.
Proof.
  intros Hfind Hcur. unfold tryPatternMatch, bind.
  destruct (scan_first_answer snap _ _ _ pending w _ _ Hfind Hcur)
    as (answer & s' & Hrun & Hpark & Hname).
  fold (effective snap contextPark). rewrite Hrun.
  exists answer, s'. now repeat split.
Qed.

Lemma tryPatternMatch_resolves_first_answering_entry_witness :
  let snap := sessionWith (Park magicKingdom) [] in
  find (answers snap (effective snap None) (Js.toLowerCase "Is Test Track open?"))
       ATTRACTION_TO_PARK = Some ("test track", epcot)
  /\ exists answer s',
       tryPatternMatch snap "Is Test Track open?" None snap emptyWorld
       = (Some answer, s', emptyWorld)
       /\ currentPark s' = Park epcot
       /\ Js.includes answer (PARK_NAMES epcot) = true.
Proof.
  cbv zeta. split; [reflexivity|].
  apply (tryPatternMatch_resolves_first_answering_entry
           (sessionWith (Park magicKingdom) []) (sessionWith (Park magicKingdom) [])
           "Is Test Track open?" None emptyWorld "test track" epcot).
  - reflexivity.
  - left; reflexivity.
Defined.

(** C2.  The Space Mountain scenario: with the record cached and EPCOT
    current, the answer to the question states the 45 minute wait and
    the Lightning Lane, and the current park becomes Magic Kingdom; this
    holds for [tryPatternMatch] called on its own and for the whole
    [processUserInput], which then sends nothing to the completion
    endpoint.  The members the scenario leaves open are arbitrary. *)
Theorem space_mountain_scenario
    (complete : nat -> string -> FetchOutcome)
    (msgs : list Message) (text : string) (loading : bool)
    (ents : list ParkEntertainment) (hours : list ParkHoursData)
    (meets : list CharacterMeet) (context : list string)
    (aid : string) (open : bool) (w : World) :
  let snap :=
    {| currentPark := Park epcot; messages := msgs; inputText := text;
       isLoading := loading; allAttractions := [spaceMountain aid open None];
       allEntertainment := ents; allParkHours := hours;
       allCharacterMeets := meets; conversationContext := context |} in
  let input := "how long is the wait for space mountain" in
  exists response s' s'',
    tryPatternMatch snap input None snap w = (Some response, s', w)
    /\ processUserInput complete snap input snap w = (Ok (JStr response), s'', w)
    /\ Js.includes response "45 minute wait" = true
    /\ Js.includes response "Lightning Lane available" = true
    /\ currentPark s' = Park magicKingdom
    /\ currentPark s'' = Park magicKingdom.
Proof.
  cbv zeta. do 3 eexists.
  split; [vm_compute; reflexivity|].
  split; [vm_compute; reflexivity|].
  repeat split; vm_compute; reflexivity.
Qed.

(** The answer does not depend on anything but the input, the context
    park, the cached attractions and hours, and the captured current
    park. *)
Lemma scan_answer_eq (s1 s2 : Session) (lowerInput : string)
    (effectivePark : ExtendedParkId) (table : list (string * ParkId)) :
  allAttractions s1 = allAttractions s2 ->
  currentPark s1 = currentPark s2 ->
  forall p1 p2 w1 w2,
    fst (fst (scanAttractions s1 lowerInput effectivePark table p1 w1))
    = fst (fst (scanAttractions s2 lowerInput effectivePark table p2 w2)).
Proof.
  intros Ha Hc. induction table as [|[ride park] rest IH]; intros p1 p2 w1 w2;
    [reflexivity|].
  rewrite !scan_cons, Ha, Hc.
  destruct (Js.includes lowerInput ride); [|apply IH].
  destruct (find (liveRecord park ride) (allAttractions s2)).
  - destruct (park_eqb park (currentPark s2)); reflexivity.
  - destruct (park_eqb park effectivePark); [apply IH | reflexivity].
Qed.

Lemma tryPatternMatch_answer (snap : Session) input contextPark pending w :
  fst (fst (tryPatternMatch snap input contextPark pending w))
  = match fst (fst (scanAttractions snap (Js.toLowerCase input)
                      (effective snap contextPark) ATTRACTION_TO_PARK pending w)) with
    | Some answer => Some answer
    | None => afterScan snap input (effective snap contextPark)
    end.
Proof.
  unfold tryPatternMatch, bind. fold (effective snap contextPark).
  destruct (scanAttractions _ _ _ _ pending w) as [[[answer|] s'] w']; reflexivity.
Qed.

(** C6.  Two calls of [tryPatternMatch] on the same input and context
    park, from snapshots that agree on the cached attractions, the cached
    hours and the current park, give the same answer or both give no
    match, whatever else differs (messages, other cached data, pending
    state, the world). *)
Theorem tryPatternMatch_deterministic
    (s1 s2 p1 p2 : Session) (w1 w2 : World) (input : string)
    (contextPark : option ExtendedParkId) :
  allAttractions s1 = allAttractions s2 ->
  allParkHours s1 = allParkHours s2 ->
  currentPark s1 = currentPark s2 ->
  fst (fst (tryPatternMatch s1 input contextPark p1 w1))
  = fst (fst (tryPatternMatch s2 input contextPark p2 w2)).
Proof.
  intros Ha Hh Hc. rewrite !tryPatternMatch_answer.
  assert (He : effective s1 contextPark = effective s2 contextPark)
    by (unfold effective; now rewrite Hc).
  rewrite He, (scan_answer_eq s1 s2 _ _ _ Ha Hc p1 p2 w1 w2).
  destruct (fst (fst (scanAttractions s2 _ _ _ p2 w2))); [reflexivity|].
  unfold afterScan. now rewrite Hh.
Qed.

Lemma tryPatternMatch_deterministic_witness :
  let s1 := sessionWith (Park epcot) [spaceMountain "a" true None] in
  let s2 :=
    {| currentPark := Park epcot; messages := []; inputText := "typed";
       isLoading := true; allAttractions := [spaceMountain "a" true None];
       allEntertainment := []; allParkHours := []; allCharacterMeets := [];
       conversationContext := ["earlier"] |} in
  fst (fst (tryPatternMatch s1 "where is space mountain" None s1 emptyWorld))
  = fst (fst (tryPatternMatch s2 "where is space mountain" None s2 emptyWorld)).
Proof.
  cbv zeta.
  apply (tryPatternMatch_deterministic
           (sessionWith (Park epcot) [spaceMountain "a" true None]));
    reflexivity.
Defined.

(** *** Time queries *)

(** The answer built from cached hours shows today's two times whenever
    both are non-empty. *)
Lemma hoursAnswer_today (parkName : string) (todayHours : ParkHours)
    (later : list ParkHours) (o c : string) :
  h_openingTime todayHours = Some o ->
  h_closingTime todayHours = Some c ->
  o <> "" -> c <> "" ->
  Js.includes (hoursAnswer parkName todayHours later)
    ("**Today:** " ++ render (formatTime (Some o)) ++ " - "
     ++ render (formatTime (Some c))) = true.
Proof.
  intros Ho Hc No Nc. unfold hoursAnswer. rewrite Ho, Hc.
  apply nonEmpty_spec in No, Nc. unfold present. rewrite No, Nc. cbn [andb].
  set (fo := render (formatTime (Some o))). set (fc := render (formatTime (Some c))).
  assert (Hline : forall rest,
             Js.includes ("**Today:** " ++ fo ++ " - " ++ fc ++ rest)
                         ("**Today:** " ++ fo ++ " - " ++ fc) = true).
  { intro rest.
    replace ("**Today:** " ++ fo ++ " - " ++ fc ++ rest)
      with (("**Today:** " ++ fo ++ " - " ++ fc) ++ rest)
      by now rewrite !append_assoc.
    apply includes_here. }
  destruct (Js.nonEmpty (h_date todayHours)); destruct later as [|tomorrow rest];
    rewrite !append_assoc;
    do 5 apply includes_append_r;
    change "📅 **Today:** " with ("📅 " ++ "**Today:** ");
    rewrite !append_assoc; apply includes_append_r, Hline.
Qed.

(** A text included in a part is included in the whole. *)
Lemma includes_trans_here (whole a b : string) :
  Js.includes whole (a ++ b) = true -> Js.includes whole a = true.
Proof.
  revert a b. induction whole as [|x whole IH]; intros a b H.
  - destruct a; [reflexivity | discriminate].
  - rewrite includes_cons in *.
    destruct (String.prefix (a ++ b) (String x whole)) eqn:P.
    + assert (Pa : String.prefix a (String x whole) = true).
      { clear -P. revert P. generalize (String x whole) as t.
        induction a as [|y a IHa]; intros t P; [apply prefix_empty|].
        destruct t as [|z t]; simpl in *; [discriminate|].
        destruct (ascii_dec y z); [now apply IHa | discriminate]. }
      now rewrite Pa.
    + rewrite (IH _ _ H). now destruct (String.prefix a (String x whole)).
Qed.

Lemma includes_suffix_part (whole a b : string) :
  Js.includes whole (a ++ b) = true -> Js.includes whole b = true.
Proof.
  revert whole. induction a as [|y a IHa]; intros whole H; [exact H|].
  induction whole as [|x whole IHw]; [discriminate|].
  rewrite includes_cons in H.
  destruct (String.prefix (String y a ++ b) (String x whole)) eqn:P.
  - simpl in P. destruct (ascii_dec y x); [|discriminate].
    rewrite includes_cons.
    assert (Hin : Js.includes whole b = true).
    { apply IHa. rewrite includes_unfold, P. reflexivity. }
    rewrite Hin. now destruct (String.prefix b (String x whole)).
  - rewrite includes_cons, (IHw H).
    now destruct (String.prefix b (String x whole)).
Qed.

(** C5, as stated, fails: a time query that names a cached attraction is
    answered by the attraction step, which says nothing of the hours. *)
Lemma C5_counterexample :
  let snap :=
    {| currentPark := Park magicKingdom; messages := []; inputText := "";
       isLoading := false; allAttractions := [spaceMountain "mk-1" true None];
       allEntertainment := [];
       allParkHours :=
         [ {| ph_park := magicKingdom;
              ph_hours :=
                Some [ {| h_date := "2025-07-04"; h_openingTime := Some "09:00";
                          h_closingTime := Some "22:00" |} ] |} ];
       allCharacterMeets := []; conversationContext := [] |} in
  let input := "what time does space mountain open" in
  isTimeQuery (analyzeQuery input) = true
  /\ formatTime (Some "09:00") = Some "9:00 AM"
  /\ formatTime (Some "22:00") = Some "10:00 PM"
  /\ exists answer s',
       tryPatternMatch snap input None snap emptyWorld = (Some answer, s', emptyWorld)
       /\ Js.includes answer "9:00 AM" = false
       /\ Js.includes answer "10:00 PM" = false.
Proof.
  cbv zeta. repeat split; try reflexivity.
  do 2 eexists. split; [vm_compute; reflexivity|].
  split; vm_compute; reflexivity.
Qed.

(** A closing time that is the empty text is not [null], yet it makes the
    guard of the Today line fail, and the opening time is not shown. *)
Example today_line_needs_both_times :
  let snap :=
    {| currentPark := Park epcot; messages := []; inputText := "";
       isLoading := false; allAttractions := []; allEntertainment := [];
       allParkHours :=
         [ {| ph_park := epcot;
              ph_hours :=
                Some [ {| h_date := "2025-07-04"; h_openingTime := Some "09:00";
                          h_closingTime := Some "" |} ] |} ];
       allCharacterMeets := []; conversationContext := [] |} in
  exists answer,
    tryPatternMatch snap "what are the hours" None snap emptyWorld
    = (Some answer, snap, emptyWorld)
    /\ Js.includes answer "9:00 AM" = false.
Proof.
  cbv zeta. eexists. split; vm_compute; reflexivity.
Qed.

(** C5 (amended).  For an input classified as a time query and not as a
    specific-location time query, that no entry of the attraction table
    answers, and whose effective park has cached hours whose first day
    has a non-empty opening and a non-empty closing time: the pattern
    responder returns an answer, changes nothing, and the answer carries
    a Today line with both times as [formatTime] renders them, so it
    contains each of them.  [formatTime] renders 09:00 as 9:00 AM. *)
Theorem time_query_answer_shows_cached_hours
    (snap pending : Session) (input : string) (contextPark : option ExtendedParkId)
    (w : World) (entry : ParkHoursData) (todayHours : ParkHours)
    (later : list ParkHours) (o c : string) :
  isTimeQuery (analyzeQuery input) = true ->
  isSpecificLocationTime (analyzeQuery input) = false ->
  find (answers snap (effective snap contextPark) (Js.toLowerCase input))
       ATTRACTION_TO_PARK = None ->
  find (fun p => park_eqb (ph_park p) (effective snap contextPark))
       (allParkHours snap) = Some entry ->
  ph_hours entry = Some (todayHours :: later) ->
  h_openingTime todayHours = Some o ->
  h_closingTime todayHours = Some c ->
  o <> "" -> c <> "" ->
  exists response,
    tryPatternMatch snap input contextPark pending w = (Some response, pending, w)
    /\ Js.includes response
         ("**Today:** " ++ render (formatTime (Some o)) ++ " - "
          ++ render (formatTime (Some c))) = true
    /\ Js.includes response (render (formatTime (Some o))) = true
    /\ Js.includes response (render (formatTime (Some c))) = true
    /\ formatTime (Some "09:00") = Some "9:00 AM".
Proof.
  intros Htime Hspecific Hscan Hfind Hhours Ho Hc No Nc.
  exists (hoursAnswer (PARK_NAMES (effective snap contextPark)) todayHours later).
  pose proof (hoursAnswer_today (PARK_NAMES (effective snap contextPark))
                todayHours later o c Ho Hc No Nc) as Hline.
  split; [|split; [exact Hline|]].
  - unfold tryPatternMatch, bind. fold (effective snap contextPark).
    rewrite (scan_no_answer _ _ _ _ pending w Hscan). unfold ret, afterScan.
    rewrite Htime, Hspecific, Hfind. cbn [andb negb].
    destruct (find_some _ _ Hfind) as [_ Hpark].
    apply park_eqb_eq in Hpark. rewrite <- Hpark.
    destruct entry as [p h]. simpl in Hhours. now rewrite Hhours.
  - repeat split.
    + apply includes_suffix_part in Hline.
      now apply includes_trans_here in Hline.
    + now do 3 apply includes_suffix_part in Hline.
Qed.

Lemma time_query_answer_shows_cached_hours_witness :
  let today :=
    {| h_date := "2025-07-04"; h_openingTime := Some "09:00";
       h_closingTime := Some "22:00" |} in
  let entry := {| ph_park := epcot; ph_hours := Some [today] |} in
  let snap :=
    {| currentPark := Park epcot; messages := []; inputText := "";
       isLoading := false; allAttractions := []; allEntertainment := [];
       allParkHours := [entry]; allCharacterMeets := [];
       conversationContext := [] |} in
  exists response,
    tryPatternMatch snap "what are epcot's hours" (Some (Park epcot)) snap emptyWorld
    = (Some response, snap, emptyWorld)
    /\ Js.includes response "**Today:** 9:00 AM - 10:00 PM" = true
    /\ Js.includes response "9:00 AM" = true
    /\ Js.includes response "10:00 PM" = true
    /\ formatTime (Some "09:00") = Some "9:00 AM".
Proof.
  cbv zeta.
  apply (time_query_answer_shows_cached_hours
           _ _ "what are epcot's hours" (Some (Park epcot)) emptyWorld
           {| ph_park := epcot;
              ph_hours :=
                Some [ {| h_date := "2025-07-04"; h_openingTime := Some "09:00";
                          h_closingTime := Some "22:00" |} ] |}
           {| h_date := "2025-07-04"; h_openingTime := Some "09:00";
              h_closingTime := Some "22:00" |}
           [] "09:00" "22:00");
    try reflexivity; discriminate.
Defined.

End PatternFacts.

(** ** The resolution pipeline and the session *)

Module PipelineFacts.

Import Chat ChatTerms JsFacts PatternFacts.

(** *** What the pattern responder leaves alone *)

Lemma scan_frame (snap : Session) (lowerInput : string)
    (effectivePark : ExtendedParkId) (table : list (string * ParkId)) :
  forall p1 p2 w1 w2,
    currentPark p1 = currentPark p2 ->
    currentPark (stateOf (scanAttractions snap lowerInput effectivePark table p1 w1))
    = currentPark (stateOf (scanAttractions snap lowerInput effectivePark table p2 w2)).
Proof.
  induction table as [|[ride park] rest IH]; intros p1 p2 w1 w2 H; [exact H|].
  rewrite !scan_cons.
  destruct (Js.includes lowerInput ride); [|now apply IH].
  destruct (find (liveRecord park ride) (allAttractions snap)).
  - destruct (park_eqb park (currentPark snap)); [exact H | reflexivity].
  - destruct (park_eqb park effectivePark); [now apply IH | reflexivity].
Qed.

Lemma scan_world (snap : Session) (lowerInput : string)
    (effectivePark : ExtendedParkId) (table : list (string * ParkId)) :
  forall p w, worldOf (scanAttractions snap lowerInput effectivePark table p w) = w.
Proof.
  induction table as [|[ride park] rest IH]; intros p w; [reflexivity|].
  rewrite scan_cons.
  destruct (Js.includes lowerInput ride); [|apply IH].
  destruct (find (liveRecord park ride) (allAttractions snap)).
  - destruct (park_eqb park (currentPark snap)); reflexivity.
  - destruct (park_eqb park effectivePark); [apply IH | reflexivity].
Qed.

Lemma tryPatternMatch_frame snap input contextPark p1 p2 w1 w2 :
  currentPark p1 = currentPark p2 ->
  currentPark (stateOf (tryPatternMatch snap input contextPark p1 w1))
  = currentPark (stateOf (tryPatternMatch snap input contextPark p2 w2)).
Proof.
  intro H. unfold tryPatternMatch, bind.
  pose proof (scan_frame snap (Js.toLowerCase input) (effective snap contextPark)
                ATTRACTION_TO_PARK p1 p2 w1 w2 H) as F.
  fold (effective snap contextPark).
  destruct (scanAttractions _ _ _ _ p1 w1) as [[[a1|] s1] w1'];
    destruct (scanAttractions _ _ _ _ p2 w2) as [[[a2|] s2] w2']; exact F.
Qed.

Lemma tryPatternMatch_world snap input contextPark p w :
  worldOf (tryPatternMatch snap input contextPark p w) = w.
Proof.
  unfold tryPatternMatch, bind.
  pose proof (scan_world snap (Js.toLowerCase input)
                (match contextPark with Some q => q | None => currentPark snap end)
                ATTRACTION_TO_PARK p w) as F.
  destruct (scanAttractions _ _ _ _ p w) as [[[a|] s] w']; exact F.
Qed.

(** *** The fallback composer *)

Lemma fallbackAnswer_nonEmpty snap input targetPark :
  Js.nonEmpty (fallbackAnswer snap input targetPark) = true.
Proof.
  unfold fallbackAnswer.
  destruct (_ && _); [now apply nonEmpty_append_r|].
  destruct (_ && _); [now apply nonEmpty_append_r|].
  destruct (_ && _); reflexivity.
Qed.

Lemma completionBody_value (aiData v : JSON) :
  completionBody aiData = Ok v ->
  Val.truthyJ v = true
  /\ (Val.isString (Some v) = true -> exists text, v = JStr text /\ text <> "").
Proof.
  unfold completionBody, obind. intro H.
  destruct (Val.get (Some aiData) "choices") as [choices|]; [|discriminate].
  destruct (Val.first choices) as [choice|]; [|discriminate].
  destruct (Val.getOpt (Val.getOpt choice "message") "content") as [c|].
  - destruct (Val.truthyJ c) eqn:T; injection H as <-.
    + split; [exact T|]. destruct c; try discriminate.
      intros _. exists s. split; [reflexivity|]. now apply nonEmpty_spec.
    + split; [reflexivity|]. intros _. eexists. split; [reflexivity | discriminate].
  - injection H as <-. split; [reflexivity|].
    intros _. eexists. split; [reflexivity | discriminate].
Qed.

(** *** Feedback *)




Lemma attach_other messageId fb m :
  m_id m <> messageId -> attach messageId fb m = m.
Proof.
  intro H. unfold attach. destruct (String.eqb_spec (m_id m) messageId); congruence.
Qed.




Lemma carriers_none messageId (ms : list Message) :
  carriers messageId ms = 0%nat <-> forall m, In m ms -> m_id m <> messageId.
Proof.
  unfold carriers. induction ms as [|m ms IH]; [now split|].
  cbn [filter]. destruct (String.eqb_spec (m_id m) messageId) as [E|E].
  - split; [discriminate|]. intro H. now destruct (H m (or_introl eq_refl)).
  - rewrite IH. split.
    + intros H x [<- | Hx]; [exact E | now apply H].
    + intros H x Hx. apply H. now right.
Qed.

Lemma attached_unknown clock messageId feedbackType comment (ms : list Message) :
  forall n,
    (forall m, In m ms -> m_id m <> messageId) ->
    attached clock messageId feedbackType comment n ms = ms.
Proof.
  induction ms as [|m ms IH]; intros n H; [reflexivity|].
  cbn [attached]. destruct (String.eqb_spec (m_id m) messageId) as [E|E].
  - now destruct (H m (or_introl eq_refl)).
  - rewrite IH; [reflexivity|]. intros x Hx. apply H. now right.
Qed.

Lemma map_attach_unknown messageId fb (ms : list Message) :
  (forall m, In m ms -> m_id m <> messageId) -> map (attach messageId fb) ms = ms.
Proof.
  intro H. rewrite <- (map_id ms) at 2. apply map_ext_in.
  intros m Hin. apply attach_other. now apply H.
Qed.

(** With one message of the id, the updater is a [map] of [attach] with
    the first reading. *)
Lemma attached_single clock messageId feedbackType comment (ms : list Message) :
  forall n,
    carriers messageId ms = 1%nat ->
    attached clock messageId feedbackType comment n ms
    = map (attach messageId
             {| f_type := feedbackType; f_comment := comment; f_timestamp := clock n |})
          ms.
Proof.
  induction ms as [|m ms IH]; intros n H; [reflexivity|].
  cbn [attached map]. unfold carriers in H. cbn [filter] in H.
  destruct (String.eqb_spec (m_id m) messageId) as [E|E].
  - cbn [length] in H. injection H as H.
    pose proof (proj1 (carriers_none messageId ms) H) as U.
    now rewrite (attached_unknown _ _ _ _ ms _ U), (map_attach_unknown _ _ ms U).
  - rewrite (attach_other _ _ _ E). now rewrite IH.
Qed.





Lemma messageTextOf_texts s key :
  (forall m, In m (messages s) -> exists text, m_text m = JStr text) ->
  exists messageText, messageTextOf s key = Ok messageText.
Proof.
  intro H. unfold messageTextOf.
  destruct (find _ (messages s)) as [m|] eqn:F; [|now eexists].
  destruct (H m) as [text ->]; [now apply (find_some _ _ F) | now eexists].
Qed.

Section Oracles.

Variable clock : nat -> Z.
Variable random : nat -> string.
Variable toISOString : Z -> string.
Variable complete : nat -> string -> FetchOutcome.

Lemma composeFallback_run snap input targetPark pending w :
  exists v,
    composeFallback complete snap input targetPark pending w
    = (Ok v, pending, afterRequest w (aiPrompt snap input targetPark))
    /\ answerShape complete v w (aiPrompt snap input targetPark).
Proof.
  unfold composeFallback, askCompletion, fetchCompletion, bind, ret, answerShape.
  fold (afterRequest w (aiPrompt snap input targetPark)).
  pose proof (fallbackAnswer_nonEmpty snap input targetPark) as NE.
  apply nonEmpty_spec in NE.
  destruct (complete _ _) as [|status [|aiData]] eqn:E; cbn [negb].
  - eexists; split; [reflexivity|]. left; eauto.
  - destruct (statusOk status); cbn [negb]; eexists; (split; [reflexivity|]); left; eauto.
  - destruct (statusOk status) eqn:S; cbn [negb].
    + destruct (completionBody aiData) as [v|] eqn:B.
      * exists v. split; [reflexivity|].
        destruct (completionBody_value _ _ B) as [T Hs].
        destruct (Val.isString (Some v)) eqn:I.
        -- left. now apply Hs.
        -- right. repeat split; trivial. now exists status, aiData.
      * eexists; split; [reflexivity|]. left; eauto.
    + eexists; split; [reflexivity|]. left; eauto.
Qed.

Lemma processUserInput_run snap input pending w :
  exists v s' w',
    processUserInput complete snap input pending w = (Ok v, s', w')
    /\ currentPark s' = parkAfterPattern snap input pending
    /\ (w' = w
        \/ exists targetPark,
             w' = afterRequest w (aiPrompt snap input targetPark)
             /\ answerShape complete v w (aiPrompt snap input targetPark))
    /\ (w' = w -> exists text, v = JStr text /\ text <> "").
Proof.
  unfold processUserInput, parkAfterPattern, bind.
  fold (resolvedPark snap input). set (t := resolvedPark snap input).
  unfold setConversationContext at 1. cbv beta iota.
  set (p0 := {| currentPark := currentPark pending;
                conversationContext := _ |}).
  assert (F : currentPark
                (stateOf (when (negb (park_eqb t (currentPark snap)))
                               (setCurrentPark t) p0 w))
              = currentPark
                  (stateOf (when (negb (park_eqb t (currentPark snap)))
                                 (setCurrentPark t) pending emptyWorld)))
    by (destruct (park_eqb t (currentPark snap)); reflexivity).
  assert (W : worldOf (when (negb (park_eqb t (currentPark snap)))
                            (setCurrentPark t) p0 w) = w)
    by (destruct (park_eqb t (currentPark snap)); reflexivity).
  destruct (when _ _ p0 w) as [[u1 p1] w1].
  destruct (when _ _ pending emptyWorld) as [[u2 p2] w2].
  unfold stateOf, worldOf in F, W. simpl in F, W. subst w1.
  pose proof (tryPatternMatch_frame snap input (Some t) p1 p2 w w2 F) as G.
  pose proof (tryPatternMatch_world snap input (Some t) p1 w) as V.
  destruct (tryPatternMatch snap input (Some t) p1 w) as [[r s2] w3].
  destruct (tryPatternMatch snap input (Some t) p2 w2) as [[r2 s3] w4].
  unfold stateOf, worldOf in G, V. simpl in G, V. subst w3.
  unfold stateOf. simpl.
  destruct (present r) eqn:P.
  - unfold ret. do 3 eexists. split; [reflexivity|].
    split; [exact G|]. split; [now left|].
    intros _. eexists. split; [reflexivity|].
    destruct r as [x|]; [|discriminate]. now apply nonEmpty_spec.
  - destruct t as [park| |].
    + destruct (composeFallback_run snap input (Park park) s2 w) as (v & Hrun & Hshape).
      rewrite Hrun. do 3 eexists. split; [reflexivity|].
      split; [exact G|]. split; [right; eauto|].
      intro Hw. exfalso. apply (f_equal completionLog) in Hw. simpl in Hw.
      apply (f_equal (@length string)) in Hw. rewrite length_app in Hw.
      simpl in Hw. lia.
    + unfold ret. do 3 eexists. split; [reflexivity|].
      split; [exact G|]. split; [now left|].
      intros _. eexists. split; [reflexivity | discriminate].
    + unfold ret. do 3 eexists. split; [reflexivity|].
      split; [exact G|]. split; [now left|].
      intros _. eexists. split; [reflexivity | discriminate].
Qed.

Lemma parkAfterPattern_frame snap input p1 p2 :
  currentPark p1 = currentPark p2 ->
  parkAfterPattern snap input p1 = parkAfterPattern snap input p2.
Proof.
  intro H. unfold parkAfterPattern, bind, when.
  destruct (negb (park_eqb _ _)); unfold setCurrentPark, ret;
    now apply tryPatternMatch_frame.
Qed.

Lemma sendMessage_park snap messageText pending w :
  let text :=
    if present messageText then render messageText else Js.trim (inputText snap) in
  currentPark (stateOf (sendMessage clock random complete snap messageText pending w))
  = if negb (Js.nonEmpty text) || isLoading snap then currentPark pending
    else parkAfterPattern snap text pending.
Proof.
  cbv zeta. unfold sendMessage.
  destruct (Js.nonEmpty _); cbn [negb orb]; [|reflexivity].
  destruct (isLoading snap); [reflexivity|].
  unfold bind, newMessage, bind, readClock, readRandom, setMessages, setInputText,
    setIsLoading, ret.
  cbv beta iota zeta.
  match goal with
  | |- context [processUserInput complete snap ?t ?p ?v] =>
      destruct (processUserInput_run snap t p v) as (r & s' & w' & Hrun & Hpark & _);
      rewrite Hrun, (parkAfterPattern_frame snap t p pending eq_refl) in *
  end.
  cbv beta iota zeta. exact Hpark.
Qed.

(** C3 (amended).  The fallback composer never raises and sends exactly
    one request to the completion endpoint, whatever the endpoint does
    (rejected request, status outside 200-299, body that does not parse,
    body without a usable first choice, or an answer).  What it returns
    is a non-empty text in every case but one: when a well-received body
    carries as the first choice's content a truthy value that is not a
    text, that value is returned as it is.  [processUserInput] as a
    whole never raises either and sends at most that one request. *)
Theorem fallback_composer_answers_with_one_request
    (snap : Session) (input : string) (targetPark : ExtendedParkId)
    (pending : Session) (w : World) :
  (exists v,
     composeFallback complete snap input targetPark pending w
     = (Ok v, pending, afterRequest w (aiPrompt snap input targetPark))
     /\ answerShape complete v w (aiPrompt snap input targetPark))
  /\ (exists v s' w',
        processUserInput complete snap input pending w = (Ok v, s', w')
        /\ (w' = w \/ exists t, w' = afterRequest w (aiPrompt snap input t))).
Proof.
  split; [apply composeFallback_run|].
  destruct (processUserInput_run snap input pending w)
    as (v & s' & w' & Hrun & _ & [Hw | (t & Hw & _)] & _);
    exists v, s', w'; split; eauto.
Qed.

(** C7 (amended).  While a message is resolved the current park is
    changed in two places only: the switch [processUserInput] makes to
    the park [analyzeQuery] resolved, and [tryPatternMatch].  The
    fallback composer leaves it alone, and after [processUserInput], as
    after an accepted [sendMessage], it is the park those two steps left;
    a rejected [sendMessage] leaves it as it was. *)
Theorem current_park_changes_in_switch_and_pattern_only
    (snap : Session) (input : string) (messageText : option string)
    (targetPark : ExtendedParkId) (pending : Session) (w : World) :
  currentPark (stateOf (composeFallback complete snap input targetPark pending w))
  = currentPark pending
  /\ currentPark (stateOf (processUserInput complete snap input pending w))
     = parkAfterPattern snap input pending
  /\ currentPark (stateOf (sendMessage clock random complete snap messageText pending w))
     = (let text :=
          if present messageText then render messageText
          else Js.trim (inputText snap) in
        if negb (Js.nonEmpty text) || isLoading snap then currentPark pending
        else parkAfterPattern snap text pending).
Proof.
  split; [|split].
  - destruct (composeFallback_run snap input targetPark pending w) as (v & Hrun & _).
    now rewrite Hrun.
  - destruct (processUserInput_run snap input pending w)
      as (v & s' & w' & Hrun & Hpark & _).
    now rewrite Hrun.
  - apply sendMessage_park.
Qed.

(** C4.  A submission with nothing to send (no text argument and an
    input field that trims to the empty text), or made while a resolution
    is in flight, changes neither the session nor the world: no message
    is appended, the pipeline is not entered, nothing is shown. *)
Theorem sendMessage_ignores_empty_or_busy
    (snap : Session) (messageText : option string) (pending : Session) (w : World) :
  (present messageText = false /\ Js.trim (inputText snap) = "")
  \/ isLoading snap = true ->
  sendMessage clock random complete snap messageText pending w = (tt, pending, w).
Proof.
  intros [[Hm Ht] | Hl]; unfold sendMessage.
  - now rewrite Hm, Ht.
  - rewrite Hl. now destruct (negb _).
Qed.

(** The updater of [handleFeedback], run: it reads the clock once for
    each message with the id. *)
Lemma mapEach_attachNow messageId feedbackType comment (prev : list Message) :
  forall s w,
    mapEach (attachNow clock messageId feedbackType comment) prev s w
    = (attached clock messageId feedbackType comment (tick w) prev, s,
       later (carriers messageId prev) w).
Proof.
  unfold carriers.
  induction prev as [|m prev IH]; intros s w; [now destruct w|].
  cbn [mapEach attached filter]. unfold bind, attachNow.
  destruct (String.eqb (m_id m) messageId) eqn:E.
  - unfold readClock, ret, bind. rewrite IH. cbn [tick completionLog feedbackStore].
    unfold attach. rewrite E. unfold later.
    cbn [tick completionLog feedbackStore length].
    now rewrite Nat.add_succ_r.
  - unfold ret. rewrite IH. unfold attach. reflexivity.
Qed.

(** One call of [handleFeedback], whatever the store holds and whatever
    the texts are. *)
Lemma handleFeedback_run_any snap pending w messageId feedbackType comment :
  handleFeedback clock toISOString snap messageId feedbackType comment pending w
  = let n := carriers messageId (messages pending) in
    let entry text :=
      feedbackData messageId feedbackType comment
        (toISOString (clock (n + tick w))) (currentPark snap) text in
    (match messageTextOf snap messageId with Ok _ => Ok tt | Raised => Raised end,
     withMessages pending
       (attached clock messageId feedbackType comment (tick w) (messages pending)),
     {| tick := S (n + tick w); completionLog := completionLog w;
        feedbackStore :=
          match messageTextOf snap messageId, feedbackStore w with
          | Ok text, Absent => Blob (JArr [entry text])
          | Ok text, Blob (JArr feedbackArray) =>
              Blob (JArr (feedbackArray ++ [entry text]))
          | _, store => store
          end |}).
Proof.
  unfold handleFeedback, bind, readMessages. rewrite mapEach_attachNow.
  unfold setMessages, readClock, saveFeedback, ret, later. cbv beta iota zeta.
  cbn [tick completionLog feedbackStore].
  destruct (messageTextOf snap messageId) as [text|]; cbv beta iota zeta.
  - cbn [tick completionLog feedbackStore].
    destruct (feedbackStore w) as [| |[]]; reflexivity.
  - now destruct (feedbackStore w).
Qed.

(** One call of [handleFeedback] on a log that can be read. *)
Lemma handleFeedback_run snap pending w messageId feedbackType comment messageText log :
  messageTextOf snap messageId = Ok messageText ->
  logOf (feedbackStore w) = Some log ->
  handleFeedback clock toISOString snap messageId feedbackType comment pending w
  = (Ok tt,
     withMessages pending
       (attached clock messageId feedbackType comment (tick w) (messages pending)),
     {| tick := S (carriers messageId (messages pending) + tick w);
        completionLog := completionLog w;
        feedbackStore :=
          Blob (JArr (log ++ [feedbackData messageId feedbackType comment
                                (toISOString
                                   (clock (carriers messageId (messages pending) + tick w)))
                                (currentPark snap) messageText])) |}).
Proof.
  intros Htext Hlog. rewrite handleFeedback_run_any. cbv zeta. rewrite Htext.
  destruct (feedbackStore w) as [| |[]]; try discriminate;
    injection Hlog as <-; reflexivity.
Qed.

(** The in-memory part of [handleFeedback] does not depend on the store
    or on the message texts: it runs before anything can throw. *)
Lemma handleFeedback_memory snap pending w messageId feedbackType comment :
  stateOf (handleFeedback clock toISOString snap messageId feedbackType comment pending w)
  = withMessages pending
      (attached clock messageId feedbackType comment (tick w) (messages pending)).
Proof. now rewrite handleFeedback_run_any. Qed.

(** A stored item that cannot be read as a log is left as it is: the
    [catch] swallows the error. *)
Lemma handleFeedback_unreadable_store snap pending w messageId feedbackType comment :
  logOf (feedbackStore w) = None ->
  feedbackStore
    (worldOf (handleFeedback clock toISOString snap messageId feedbackType comment
                pending w))
  = feedbackStore w.
Proof.
  intro H. rewrite handleFeedback_run_any. cbv zeta. unfold worldOf.
  cbn [snd feedbackStore].
  destruct (messageTextOf snap messageId); [|reflexivity].
  destruct (feedbackStore w) as [| |[]]; try discriminate; reflexivity.
Qed.

(** A text without [substring] makes the handler throw before it
    touches the store. *)
Lemma handleFeedback_raised snap pending w messageId feedbackType comment :
  messageTextOf snap messageId = Raised ->
  fst (fst (handleFeedback clock toISOString snap messageId feedbackType comment
              pending w)) = Raised
  /\ feedbackStore
       (worldOf (handleFeedback clock toISOString snap messageId feedbackType comment
                   pending w))
     = feedbackStore w.
Proof.
  intro H. rewrite handleFeedback_run_any. cbv zeta. rewrite H. now split.
Qed.


End Oracles.


(** C3, as stated, fails: a body received with status 200 whose first
    choice carries the number 42 as content makes [processUserInput]
    return that number, which is not a text. *)
Lemma C3_counterexample :
  let aiData :=
    JObj [("choices", JArr [JObj [("message", JObj [("content", JNum 42)])]])] in
  let complete := fun (_ : nat) (_ : string) => Response 200 (Parsed aiData) in
  let snap := sessionWith (Park magicKingdom) [] in
  exists s' w',
    processUserInput complete snap "tell me a story" snap emptyWorld
    = (Ok (JNum 42), s', w')
    /\ Val.isString (Some (JNum 42)) = false.
Proof.
  cbv zeta. do 2 eexists. split; [vm_compute; reflexivity | reflexivity].
Qed.

(** C7, as stated, fails: for an input that names a park,
    [processUserInput] itself switches the current park before the
    pattern responder runs, and the pattern responder changes nothing. *)
Lemma C7_counterexample :
  let snap := sessionWith (Park magicKingdom) [] in
  let input := "any shows at epcot" in
  let complete := fun (_ : nat) (_ : string) => NetworkError in
  (forall pending w,
     tryPatternMatch snap input (Some (Park epcot)) pending w = (None, pending, w))
  /\ currentPark snap = Park magicKingdom
  /\ currentPark (stateOf (processUserInput complete snap input snap emptyWorld))
     = Park epcot.
Proof.
  cbv zeta. split; [|split].
  - intros pending w. vm_compute. reflexivity.
  - reflexivity.
  - vm_compute. reflexivity.
Qed.

(** The switch of [processUserInput] and the pattern responder can
    disagree.  The responder compares the attraction's park with the
    current park its closure captured, not with the park the switch has
    just set: from Magic Kingdom, an input that names EPCOT and Space
    Mountain is answered with Magic Kingdom and the words that the park
    was switched, while the current park ends as EPCOT. *)
Example stale_current_park_after_named_park :
  let snap := sessionWith (Park magicKingdom) [spaceMountain "mk-1" true None] in
  let complete := fun (_ : nat) (_ : string) => NetworkError in
  exists answer s',
    processUserInput complete snap "space mountain at epcot" snap emptyWorld
    = (Ok (JStr answer), s', emptyWorld)
    /\ Js.includes answer "Located at Magic Kingdom" = true
    /\ Js.includes answer "(Switched parks for you!)" = true
    /\ currentPark s' = Park epcot.
Proof.
  cbv zeta. do 2 eexists. split; [vm_compute; reflexivity|].
  repeat split; vm_compute; reflexivity.
Qed.

Lemma sendMessage_ignores_empty_or_busy_witness :
  let snap :=
    {| currentPark := Park epcot; messages := []; inputText := "   ";
       isLoading := false; allAttractions := []; allEntertainment := [];
       allParkHours := []; allCharacterMeets := []; conversationContext := [] |} in
  sendMessage (fun _ => 0) (fun _ => "0.5") (fun _ _ => NetworkError)
    snap None snap emptyWorld = (tt, snap, emptyWorld).
Proof.
  cbv zeta.
  apply (sendMessage_ignores_empty_or_busy (fun _ => 0) (fun _ => "0.5")
           (fun _ _ => NetworkError)).
  left. split; reflexivity.
Defined.


End PipelineFacts.

(** ** The park-data service and the loader *)

Module ServiceFacts.

Import DataService ServiceTerms.

Lemma orJ_truthy (v : Val.t) (d : JSON) :
  Val.truthyJ d = true -> Val.truthyJ (orJ v d) = true.
Proof.
  intro H. unfold orJ. destruct v as [j|]; [|exact H].
  destruct (Val.truthyJ j) eqn:T; [exact T | exact H].
Qed.

Lemma orJ_text (v : Val.t) (d : string) :
  d <> "" ->
  Val.isString v = true \/ Val.truthy v = false ->
  exists text, orJ v (JStr d) = JStr text /\ text <> "".
Proof.
  intros Hd [Hs | Hf]; unfold orJ.
  - destruct v as [[]|]; try discriminate. simpl.
    destruct (Js.nonEmpty s) eqn:N; eexists; split; try reflexivity; trivial.
    now apply JsFacts.nonEmpty_spec.
  - destruct v as [j|]; [|now eexists].
    simpl in Hf. rewrite Hf. now eexists.
Qed.

Lemma get_raw (attraction : JSON) (k : string) (v : Val.t) :
  Val.get (Some attraction) k = Ok v -> v = raw attraction k.
Proof.
  unfold raw. destruct attraction; simpl; intro H; try discriminate;
    now injection H as <-.
Qed.

Section Clock.

Variable stampAt : nat -> string.
Variable stampEnd : string.

Lemma normalizeOne_normalised parkId index attraction a :
  normalizeOne stampAt parkId index attraction = Ok a ->
  normalised parkId attraction a.
Proof.
  unfold normalizeOne, obind. intro H.
  repeat match type of H with
         | match Val.get ?x ?k with _ => _ end = _ =>
             let E := fresh "E" in
             destruct (Val.get x k) eqn:E; [apply get_raw in E; subst|discriminate]
         end.
  destruct (Val.strJ _) as [idText|]; [|discriminate].
  injection H as <-. unfold normalised; cbn [park waitTime isOpen name].
  repeat split.
  - destruct (raw attraction "isOpen") as [[| [] | | | |]|]; congruence.
  - intros ->. reflexivity.
  - now apply orJ_truthy.
  - apply orJ_text. discriminate.
Qed.

Lemma normalizeFrom_normalised parkId items :
  forall index out,
    normalizeFrom stampAt parkId index items = Ok out ->
    Forall2 (normalised parkId) items out.
Proof.
  induction items as [|attraction rest IH]; intros index out H; simpl in H.
  - injection H as <-. constructor.
  - unfold obind in H.
    destruct (normalizeOne stampAt parkId index attraction) as [a|] eqn:E;
      [|discriminate].
    destruct (normalizeFrom stampAt parkId (S index) rest) as [r|] eqn:F;
      [|discriminate].
    injection H as <-. constructor; [now apply normalizeOne_normalised in E | eauto].
Qed.

(** C10 (amended).  Every record [normalizeAttractions] builds, and so
    every attraction of a [getWaitTimes] result that came from the proxy,
    has the requested park; a wait time that is the payload's when that
    is a number and 0 otherwise; an open flag that is false only when the
    payload says exactly [false]; and a name that is the payload's name
    when that is truthy and [Unknown Attraction] otherwise.  The name is
    thus never empty, and it is a non-empty text whenever the payload's
    name is a text or is missing or falsy; a truthy name of another type
    is kept as it is. *)
Theorem normalizeAttractions_invariant
    (parkId : ParkId) (items : list JSON) (out : list Attraction) :
  normalizeAttractions stampAt (JArr items) parkId = Ok out ->
  Forall2 (normalised parkId) items out
  /\ forall response data,
       waitTimesBody stampAt stampEnd parkId response = Ok data ->
       getWaitTimes stampAt stampEnd parkId response = data
       /\ exists payload, Forall2 (normalised parkId) payload (pd_attractions data).
Proof.
  intro H. split; [now apply normalizeFrom_normalised in H|].
  intros response data B. split; [unfold getWaitTimes; now rewrite B|].
  unfold waitTimesBody, obind in B.
  destruct response as [|status [|payload]]; try discriminate;
    destruct (statusOk status); try discriminate.
  destruct (Val.get (Some payload) "attractions") as [v|]; [|discriminate].
  destruct (normalizeAttractions stampAt (orJ v (JArr [])) parkId) as [l|] eqn:N;
    [|discriminate].
  injection B as <-. simpl.
  unfold normalizeAttractions in N.
  destruct (orJ v (JArr [])) as [| | | |payload'|]; try discriminate.
  exists payload'. now apply normalizeFrom_normalised in N.
Qed.

End Clock.

(** C10, as stated, fails: a payload element whose name is the number 42
    is normalised to a record whose name is that number, not a text. *)
Lemma C10_counterexample :
  exists a,
    normalizeAttractions (fun _ => noon) (JArr [JObj [("name", JNum 42)]]) magicKingdom
    = Ok [a]
    /\ name a = JNum 42
    /\ Val.isString (Some (name a)) = false.
Proof. eexists. split; [vm_compute; reflexivity|]. split; reflexivity. Qed.

Lemma normalizeAttractions_invariant_witness :
  let items := [JObj [("name", JStr "Test Track"); ("waitTime", JNum 30)]; JStr "x"] in
  exists out,
    normalizeAttractions (fun _ => noon) (JArr items) epcot = Ok out
    /\ Forall2 (normalised epcot) items out.
Proof.
  cbv zeta. eexists. split; [vm_compute; reflexivity|].
  apply (normalizeAttractions_invariant (fun _ => noon) noon epcot).
  vm_compute. reflexivity.
Defined.

(** *** When the proxy has no data *)

Lemma failed_body member response :
  failed response -> memberBody member response = Raised.
Proof.
  intros [-> | (status & body & -> & S)]; [reflexivity|].
  unfold memberBody. now rewrite S.
Qed.

Lemma lacks_body member response :
  lacks member response -> memberBody member response = Ok (JArr []).
Proof.
  intros (status & fields & -> & S & F). unfold memberBody, obind.
  rewrite S. simpl. now rewrite F.
Qed.

Lemma failed_direct response : failed response -> Loader.directFetch response = None.
Proof.
  intros [-> | (status & body & -> & S)]; [reflexivity|].
  unfold Loader.directFetch. rewrite S. now destruct body.
Qed.

Lemma lacks_direct member response :
  lacks member response ->
  Val.getOpt (Loader.directFetch response) member = None.
Proof.
  intros (status & fields & -> & S & F). unfold Loader.directFetch.
  rewrite S. exact F.
Qed.

Section Loading.

Variable stampAt : nat -> string.
Variable stampEnd : string.

Lemma failed_waitTimes parkId response :
  failed response ->
  getWaitTimes stampAt stampEnd parkId response = getFallbackWaitTimes stampEnd parkId.
Proof.
  intros [-> | (status & body & -> & S)]; [reflexivity|].
  unfold getWaitTimes, waitTimesBody. now rewrite S.
Qed.

Lemma lacks_waitTimes parkId response :
  lacks "attractions" response ->
  pd_attractions (getWaitTimes stampAt stampEnd parkId response) = []
  /\ pd_source (getWaitTimes stampAt stampEnd parkId response) = "disney_proxy".
Proof.
  intros (status & fields & -> & S & F).
  unfold getWaitTimes, waitTimesBody, obind. rewrite S. simpl. rewrite F.
  split; reflexivity.
Qed.

Import Loader.

Lemma pushParkHours_others parkId v acc :
  allData (pushParkHours parkId v acc) = allData acc
  /\ allEntertainment (pushParkHours parkId v acc) = allEntertainment acc
  /\ allCharacterMeets (pushParkHours parkId v acc) = allCharacterMeets acc.
Proof.
  unfold pushParkHours. destruct v as [h|]; [|now repeat split].
  destruct (Val.truthyJ h); now repeat split.
Qed.

Lemma pushCharacterMeets_others parkId v acc acc' :
  pushCharacterMeets parkId v acc = Some acc' ->
  allData acc' = allData acc
  /\ allEntertainment acc' = allEntertainment acc
  /\ allParkHours acc' = allParkHours acc.
Proof.
  unfold pushCharacterMeets. destruct (Val.getOpt v "characterMeets") as [m|].
  - destruct (_ && _).
    + destruct m; try discriminate. intro H; injection H as <-. now repeat split.
    + intro H; injection H as <-. now repeat split.
  - intro H; injection H as <-. now repeat split.
Qed.

Lemma pushEntertainment_others parkId v acc acc' :
  pushEntertainment parkId v acc = Some acc' ->
  allData acc' = allData acc
  /\ allCharacterMeets acc' = allCharacterMeets acc
  /\ allParkHours acc' = allParkHours acc.
Proof.
  unfold pushEntertainment. destruct (Val.getOpt v "entertainment") as [m|].
  - destruct (_ && _).
    + destruct (typesReadable m); [|discriminate].
      intro H; injection H as <-. now repeat split.
    + intro H; injection H as <-. now repeat split.
  - intro H; injection H as <-. now repeat split.
Qed.

(** Whatever the other requests yield, the attractions a park adds are
    those of its wait-times result. *)
Lemma loadPark_allData parkId r acc :
  allData (loadPark stampAt stampEnd parkId r acc)
  = (allData acc
     ++ map (fromService parkId)
          (pd_attractions (getWaitTimes stampAt stampEnd parkId (waitTimes r))))%list.
Proof.
  unfold loadPark.
  destruct (pushEntertainment _ _ _) as [acc2|] eqn:E; [|reflexivity].
  apply pushEntertainment_others in E. destruct E as (E & _).
  destruct (pushCharacterMeets _ _ acc2) as [acc3|] eqn:C.
  - apply pushCharacterMeets_others in C. destruct C as (C & _).
    destruct (pushParkHours_others parkId (directFetch (parkHours r)) acc3) as (H & _).
    now rewrite H, C, E.
  - now rewrite E.
Qed.

(** A request that brings nothing leaves its category as it was, and
    the rest of the loop body runs as if the request had been rejected. *)
Lemma loadPark_entertainment parkId r acc :
  Val.getOpt (directFetch (entertainment r)) "entertainment" = None ->
  allEntertainment (loadPark stampAt stampEnd parkId r acc) = allEntertainment acc
  /\ loadPark stampAt stampEnd parkId r acc
     = loadPark stampAt stampEnd parkId (withoutEntertainment r) acc.
Proof.
  intro He. unfold loadPark. cbn [withoutEntertainment entertainment characterMeets
                                   parkHours waitTimes directFetch].
  set (acc1 := pushAttractions _ _ acc).
  unfold pushEntertainment. rewrite He. cbn [Val.getOpt].
  split; [|reflexivity].
  destruct (pushCharacterMeets _ _ acc1) as [acc3|] eqn:C; [|reflexivity].
  apply pushCharacterMeets_others in C. destruct C as (_ & C & _).
  destruct (pushParkHours_others parkId (directFetch (parkHours r)) acc3) as (_ & H & _).
  now rewrite H, C.
Qed.

Lemma loadPark_characterMeets parkId r acc :
  Val.getOpt (directFetch (characterMeets r)) "characterMeets" = None ->
  allCharacterMeets (loadPark stampAt stampEnd parkId r acc) = allCharacterMeets acc
  /\ loadPark stampAt stampEnd parkId r acc
     = loadPark stampAt stampEnd parkId (withoutCharacterMeets r) acc.
Proof.
  intro Hc. unfold loadPark. cbn [withoutCharacterMeets entertainment characterMeets
                                   parkHours waitTimes directFetch].
  set (acc1 := pushAttractions _ _ acc).
  destruct (pushEntertainment _ _ acc1) as [acc2|] eqn:E; [|now split].
  unfold pushCharacterMeets. rewrite Hc. cbn [Val.getOpt].
  split; [|reflexivity].
  apply pushEntertainment_others in E. destruct E as (_ & E & _).
  destruct (pushParkHours_others parkId (directFetch (parkHours r)) acc2) as (_ & _ & H).
  now rewrite H, E.
Qed.

Lemma loadPark_parkHours parkId r acc :
  directFetch (parkHours r) = None ->
  allParkHours (loadPark stampAt stampEnd parkId r acc) = allParkHours acc.
Proof.
  intro Hh. unfold loadPark. rewrite Hh.
  set (acc1 := pushAttractions _ _ acc).
  destruct (pushEntertainment _ _ acc1) as [acc2|] eqn:E; [|reflexivity].
  apply pushEntertainment_others in E. destruct E as (_ & _ & E).
  destruct (pushCharacterMeets _ _ acc2) as [acc3|] eqn:C; [|exact E].
  apply pushCharacterMeets_others in C. destruct C as (_ & _ & C).
  cbn [pushParkHours]. now rewrite C, E.
Qed.

(** *** Requests that bring something *)

Lemma quiet_direct member response :
  quiet member response -> Val.getOpt (directFetch response) member = None.
Proof.
  intros [F|L]; [now rewrite (failed_direct _ F) | now apply lacks_direct].
Qed.

Lemma brings_direct member response v :
  brings member response v ->
  exists fields,
    directFetch response = Some (JObj fields)
    /\ Val.field member fields = Some v /\ Val.truthyJ v = true.
Proof.
  intros (status & fields & -> & S & F & T). exists fields.
  unfold directFetch. now rewrite S.
Qed.

Lemma pushEntertainment_quiet parkId response acc :
  quiet "entertainment" response ->
  pushEntertainment parkId (directFetch response) acc = Some acc.
Proof.
  intro Q. unfold pushEntertainment. now rewrite (quiet_direct _ _ Q).
Qed.

Lemma pushEntertainment_brings parkId response shows acc :
  brings "entertainment" response shows ->
  typesReadable shows = true ->
  pushEntertainment parkId (directFetch response) acc
  = Some {| allData := allData acc;
            allEntertainment := (allEntertainment acc ++ [(parkId, shows)])%list;
            allParkHours := allParkHours acc;
            allCharacterMeets := allCharacterMeets acc |}.
Proof.
  intros B R. destruct (brings_direct _ _ _ B) as (fields & -> & F & T).
  unfold pushEntertainment. cbn [Val.getOpt Val.truthy Val.truthyJ].
  now rewrite F, T, R.
Qed.

Lemma pushCharacterMeets_quiet parkId response acc :
  quiet "characterMeets" response ->
  pushCharacterMeets parkId (directFetch response) acc = Some acc.
Proof.
  intro Q. unfold pushCharacterMeets. now rewrite (quiet_direct _ _ Q).
Qed.

Lemma pushCharacterMeets_brings parkId response items acc :
  brings "characterMeets" response (JArr items) ->
  pushCharacterMeets parkId (directFetch response) acc
  = Some {| allData := allData acc;
            allEntertainment := allEntertainment acc;
            allParkHours := allParkHours acc;
            allCharacterMeets :=
              (allCharacterMeets acc ++ map (fun meet => (parkId, meet)) items)%list |}.
Proof.
  intro B. destruct (brings_direct _ _ _ B) as (fields & -> & F & T).
  unfold pushCharacterMeets. cbn [Val.getOpt Val.truthy Val.truthyJ].
  now rewrite F.
Qed.

Lemma pushParkHours_brings parkId response hours acc :
  bringsBody response hours ->
  pushParkHours parkId (directFetch response) acc
  = {| allData := allData acc;
       allEntertainment := allEntertainment acc;
       allParkHours := (allParkHours acc ++ [(parkId, hours)])%list;
       allCharacterMeets := allCharacterMeets acc |}.
Proof.
  intros (status & -> & S & T). unfold directFetch, pushParkHours. now rewrite S, T.
Qed.

(** The loop body when neither the entertainment block nor the
    character-meet block throws. *)
Lemma loadPark_smooth parkId r acc e c :
  pushEntertainment parkId (directFetch (entertainment r))
    (pushAttractions parkId (getWaitTimes stampAt stampEnd parkId (waitTimes r)) acc)
  = Some e ->
  pushCharacterMeets parkId (directFetch (characterMeets r)) e = Some c ->
  loadPark stampAt stampEnd parkId r acc
  = pushParkHours parkId (directFetch (parkHours r)) c.
Proof. intros E C. unfold loadPark. cbv zeta. now rewrite E, C. Qed.

(** A request that brings nothing does not keep the other categories of
    the park from being collected. *)
Lemma quiet_entertainment_lets_meets_through parkId r acc items :
  quiet "entertainment" (entertainment r) ->
  brings "characterMeets" (characterMeets r) (JArr items) ->
  allCharacterMeets (loadPark stampAt stampEnd parkId r acc)
  = (allCharacterMeets acc ++ map (fun meet => (parkId, meet)) items)%list.
Proof.
  intros Q B.
  rewrite (loadPark_smooth _ _ _ _ _ (pushEntertainment_quiet _ _ _ Q)
             (pushCharacterMeets_brings _ _ _ _ B)).
  now destruct (pushParkHours_others parkId (directFetch (parkHours r))
                  {| allData := allData (pushAttractions parkId
                       (getWaitTimes stampAt stampEnd parkId (waitTimes r)) acc);
                     allEntertainment := allEntertainment (pushAttractions parkId
                       (getWaitTimes stampAt stampEnd parkId (waitTimes r)) acc);
                     allParkHours := allParkHours (pushAttractions parkId
                       (getWaitTimes stampAt stampEnd parkId (waitTimes r)) acc);
                     allCharacterMeets :=
                       (allCharacterMeets (pushAttractions parkId
                          (getWaitTimes stampAt stampEnd parkId (waitTimes r)) acc)
                        ++ map (fun meet => (parkId, meet)) items)%list |})
    as (_ & _ & ->).
Qed.

Lemma quiet_entertainment_lets_hours_through parkId r acc hours :
  quiet "entertainment" (entertainment r) ->
  quiet "characterMeets" (characterMeets r)
  \/ (exists items, brings "characterMeets" (characterMeets r) (JArr items)) ->
  bringsBody (parkHours r) hours ->
  allParkHours (loadPark stampAt stampEnd parkId r acc)
  = (allParkHours acc ++ [(parkId, hours)])%list.
Proof.
  intros Q [Qc | [items B]] H.
  - rewrite (loadPark_smooth _ _ _ _ _ (pushEntertainment_quiet _ _ _ Q)
               (pushCharacterMeets_quiet _ _ _ Qc)).
    now rewrite (pushParkHours_brings _ _ _ _ H).
  - rewrite (loadPark_smooth _ _ _ _ _ (pushEntertainment_quiet _ _ _ Q)
               (pushCharacterMeets_brings _ _ _ _ B)).
    now rewrite (pushParkHours_brings _ _ _ _ H).
Qed.

Lemma readable_entertainment_is_collected parkId r acc shows :
  brings "entertainment" (entertainment r) shows ->
  typesReadable shows = true ->
  quiet "characterMeets" (characterMeets r)
  \/ (exists items, brings "characterMeets" (characterMeets r) (JArr items)) ->
  allEntertainment (loadPark stampAt stampEnd parkId r acc)
  = (allEntertainment acc ++ [(parkId, shows)])%list
  /\ forall hours,
       bringsBody (parkHours r) hours ->
       allParkHours (loadPark stampAt stampEnd parkId r acc)
       = (allParkHours acc ++ [(parkId, hours)])%list.
Proof.
  intros B R [Qc | [items Bc]].
  - rewrite (loadPark_smooth _ _ _ _ _ (pushEntertainment_brings _ _ _ _ B R)
               (pushCharacterMeets_quiet _ _ _ Qc)).
    split.
    + match goal with
      | |- allEntertainment (pushParkHours ?p ?v ?a) = _ =>
          now destruct (pushParkHours_others p v a) as (_ & -> & _)
      end.
    + intros hours H. now rewrite (pushParkHours_brings _ _ _ _ H).
  - rewrite (loadPark_smooth _ _ _ _ _ (pushEntertainment_brings _ _ _ _ B R)
               (pushCharacterMeets_brings _ _ _ _ Bc)).
    split.
    + match goal with
      | |- allEntertainment (pushParkHours ?p ?v ?a) = _ =>
          now destruct (pushParkHours_others p v a) as (_ & -> & _)
      end.
    + intros hours H. now rewrite (pushParkHours_brings _ _ _ _ H).
Qed.

Lemma readable_meets_are_collected parkId r acc shows items :
  brings "entertainment" (entertainment r) shows ->
  typesReadable shows = true ->
  brings "characterMeets" (characterMeets r) (JArr items) ->
  allCharacterMeets (loadPark stampAt stampEnd parkId r acc)
  = (allCharacterMeets acc ++ map (fun meet => (parkId, meet)) items)%list.
Proof.
  intros B R Bc.
  rewrite (loadPark_smooth _ _ _ _ _ (pushEntertainment_brings _ _ _ _ B R)
             (pushCharacterMeets_brings _ _ _ _ Bc)).
  match goal with
  | |- allCharacterMeets (pushParkHours ?p ?v ?a) = _ =>
      now destruct (pushParkHours_others p v a) as (_ & _ & ->)
  end.
Qed.

End Loading.

(** C9 (amended).  A park-data fetch never raises.  In the service, a
    rejected request or a status outside 200-299 yields the static
    fallback of the category (one placeholder attraction, a typical-hours
    day, the park's static entertainment list), and an ok response whose
    body is an object without the named member yields an empty list.  In
    [loadAttractions], an entertainment or character-meet request that
    failed or lacks its member adds nothing to its category, and the
    rest of the park is collected as if that request had been rejected;
    a failed park-hours request adds no hours.  Such a request does not
    keep the other categories back: the park's attractions are those of
    its wait-times result whatever the other requests yield; with no
    entertainment, an array of character meets is appended and truthy
    hours are appended; with no character meets, a readable list of shows
    is appended and truthy hours are appended; with no hours, a readable
    list of shows and an array of character meets are appended.  What was
    collected reaches the cache only if some attraction was collected:
    when every park's wait-times body lacks [attractions], nothing is
    stored. *)
Theorem park_data_fetch_degrades
    (stampAt : nat -> string) (stampEnd : string) (parkId : ParkId)
    (response : FetchOutcome) (r : Loader.ParkResponses) (acc : Loader.Collected) :
  (failed response ->
     getWaitTimes stampAt stampEnd parkId response = getFallbackWaitTimes stampEnd parkId
     /\ getParkHours parkId response = getFallbackParkHours parkId
     /\ getEntertainment parkId response = getFallbackEntertainment parkId)
  /\ (lacks "attractions" response ->
        pd_attractions (getWaitTimes stampAt stampEnd parkId response) = [])
  /\ (lacks "schedule" response -> getParkHours parkId response = JArr [])
  /\ (lacks "entertainment" response -> getEntertainment parkId response = JArr [])
  /\ (failed (Loader.entertainment r) \/ lacks "entertainment" (Loader.entertainment r) ->
      Loader.allEntertainment (Loader.loadPark stampAt stampEnd parkId r acc)
      = Loader.allEntertainment acc
      /\ Loader.loadPark stampAt stampEnd parkId r acc
         = Loader.loadPark stampAt stampEnd parkId (withoutEntertainment r) acc)
  /\ (failed (Loader.characterMeets r)
      \/ lacks "characterMeets" (Loader.characterMeets r) ->
      Loader.allCharacterMeets (Loader.loadPark stampAt stampEnd parkId r acc)
      = Loader.allCharacterMeets acc
      /\ Loader.loadPark stampAt stampEnd parkId r acc
         = Loader.loadPark stampAt stampEnd parkId (withoutCharacterMeets r) acc)
  /\ (failed (Loader.parkHours r) ->
      Loader.allParkHours (Loader.loadPark stampAt stampEnd parkId r acc)
      = Loader.allParkHours acc)
  /\ (forall (stamps : ParkId -> nat -> string) (ends : ParkId -> string)
             (responses : ParkId -> Loader.ParkResponses),
        (forall p, lacks "attractions" (Loader.waitTimes (responses p))) ->
        Loader.loadAttractions stamps ends responses = None)
  /\ Loader.allData (Loader.loadPark stampAt stampEnd parkId r acc)
     = (Loader.allData acc
        ++ map (Loader.fromService parkId)
             (pd_attractions
                (getWaitTimes stampAt stampEnd parkId (Loader.waitTimes r))))%list
  /\ (quiet "entertainment" (Loader.entertainment r) ->
      (forall items,
         brings "characterMeets" (Loader.characterMeets r) (JArr items) ->
         Loader.allCharacterMeets (Loader.loadPark stampAt stampEnd parkId r acc)
         = (Loader.allCharacterMeets acc
            ++ map (fun meet => (parkId, meet)) items)%list)
      /\ (forall hours,
            bringsBody (Loader.parkHours r) hours ->
            quiet "characterMeets" (Loader.characterMeets r)
            \/ (exists items,
                  brings "characterMeets" (Loader.characterMeets r) (JArr items)) ->
            Loader.allParkHours (Loader.loadPark stampAt stampEnd parkId r acc)
            = (Loader.allParkHours acc ++ [(parkId, hours)])%list))
  /\ (quiet "characterMeets" (Loader.characterMeets r) ->
      forall shows,
        brings "entertainment" (Loader.entertainment r) shows ->
        Loader.typesReadable shows = true ->
        Loader.allEntertainment (Loader.loadPark stampAt stampEnd parkId r acc)
        = (Loader.allEntertainment acc ++ [(parkId, shows)])%list
        /\ forall hours,
             bringsBody (Loader.parkHours r) hours ->
             Loader.allParkHours (Loader.loadPark stampAt stampEnd parkId r acc)
             = (Loader.allParkHours acc ++ [(parkId, hours)])%list)
  /\ (failed (Loader.parkHours r) ->
      forall shows items,
        brings "entertainment" (Loader.entertainment r) shows ->
        Loader.typesReadable shows = true ->
        brings "characterMeets" (Loader.characterMeets r) (JArr items) ->
        Loader.allEntertainment (Loader.loadPark stampAt stampEnd parkId r acc)
        = (Loader.allEntertainment acc ++ [(parkId, shows)])%list
        /\ Loader.allCharacterMeets (Loader.loadPark stampAt stampEnd parkId r acc)
           = (Loader.allCharacterMeets acc
              ++ map (fun meet => (parkId, meet)) items)%list).
Proof.
  split; [|split; [|split; [|split; [|split; [|split; [|split; [|split;
    [|split; [|split; [|split]]]]]]]]]].
  - intro F. split; [now apply failed_waitTimes|].
    unfold getParkHours, getEntertainment. now rewrite !(failed_body _ _ F).
  - intro L. now apply lacks_waitTimes.
  - intro L. unfold getParkHours. now rewrite (lacks_body _ _ L).
  - intro L. unfold getEntertainment. now rewrite (lacks_body _ _ L).
  - intro He. apply loadPark_entertainment.
    destruct He as [F|L]; [now rewrite (failed_direct _ F) | now apply lacks_direct].
  - intro Hc. apply loadPark_characterMeets.
    destruct Hc as [F|L]; [now rewrite (failed_direct _ F) | now apply lacks_direct].
  - intro F. apply loadPark_parkHours. now apply failed_direct.
  - intros stamps ends responses L. unfold Loader.loadAttractions.
    assert (D : Loader.allData (Loader.collect stamps ends responses) = []).
    { unfold Loader.collect, Loader.parks. cbn [fold_left].
      rewrite !loadPark_allData.
      now rewrite !(proj1 (lacks_waitTimes _ _ _ _ (L _))). }
    now rewrite D.
  - apply loadPark_allData.
  - intro Q. split.
    + intros items B. now apply quiet_entertainment_lets_meets_through.
    + intros hours H C. now apply quiet_entertainment_lets_hours_through.
  - intros Q shows B R.
    apply readable_entertainment_is_collected; [exact B | exact R | now left].
  - intros _ shows items B R Bc. split.
    + apply (readable_entertainment_is_collected stampAt stampEnd parkId r acc shows B R).
      right. now exists items.
    + now apply readable_meets_are_collected with (shows := shows).
Qed.

(** C9, as stated, fails: on a status outside 200-299 the service does
    not return an empty result but its static fallback. *)
Lemma C9_counterexample :
  statusOk 503 = false
  /\ map name (pd_attractions
                 (getWaitTimes (fun _ => noon) noon magicKingdom (Response 503 Unparsable)))
     = [JStr "Check Disney World App"]
  /\ getParkHours magicKingdom (Response 503 Unparsable) <> JArr []
  /\ getEntertainment magicKingdom (Response 503 Unparsable) <> JArr [].
Proof. repeat split; try reflexivity; vm_compute; discriminate. Qed.

Lemma park_data_fetch_degrades_witness :
  let meets := Response 200 (Parsed (JObj [("characterMeets", JArr [JStr "Mickey"])])) in
  let hours := Response 200 (Parsed (JArr [JStr "9-5"])) in
  let r := {| Loader.waitTimes := NetworkError; Loader.entertainment := NetworkError;
              Loader.characterMeets := meets; Loader.parkHours := hours |} in
  getWaitTimes (fun _ => noon) noon epcot NetworkError = getFallbackWaitTimes noon epcot
  /\ getParkHours epcot (Response 200 (Parsed (JObj []))) = JArr []
  /\ Loader.allCharacterMeets (Loader.loadPark (fun _ => noon) noon epcot r Loader.nothing)
     = [(epcot, JStr "Mickey")]
  /\ Loader.allParkHours (Loader.loadPark (fun _ => noon) noon epcot r Loader.nothing)
     = [(epcot, JArr [JStr "9-5"])].
Proof.
  cbv zeta.
  pose proof (park_data_fetch_degrades (fun _ => noon) noon epcot NetworkError
                {| Loader.waitTimes := NetworkError; Loader.entertainment := NetworkError;
                   Loader.characterMeets :=
                     Response 200
                       (Parsed (JObj [("characterMeets", JArr [JStr "Mickey"])]));
                   Loader.parkHours := Response 200 (Parsed (JArr [JStr "9-5"])) |}
                Loader.nothing) as (F & _ & _ & _ & _ & _ & _ & _ & _ & Q & _).
  pose proof (park_data_fetch_degrades (fun _ => noon) noon epcot
                (Response 200 (Parsed (JObj [])))
                {| Loader.waitTimes := NetworkError; Loader.entertainment := NetworkError;
                   Loader.characterMeets := NetworkError;
                   Loader.parkHours := NetworkError |} Loader.nothing)
    as (_ & _ & S & _).
  assert (B : brings "characterMeets"
                (Response 200 (Parsed (JObj [("characterMeets", JArr [JStr "Mickey"])])))
                (JArr [JStr "Mickey"]))
    by (exists 200, [("characterMeets", JArr [JStr "Mickey"])]; repeat split).
  destruct Q as (Qm & Qh); [left; left; reflexivity|].
  split; [|split; [|split]].
  - apply F. left. reflexivity.
  - apply S. exists 200, []. repeat split.
  - apply (Qm [JStr "Mickey"]). exact B.
  - apply (Qh (JArr [JStr "9-5"])).
    + exists 200. repeat split.
    + right. exists [JStr "Mickey"]. exact B.
Defined.

End ServiceFacts.

(** * Further properties *)

(** ** More on strings *)

Module TextFacts.

Import JsFacts.

(** A one-character text occurs in a text when it is its first
    character or occurs in the rest. *)
Lemma includes_char (x c : ascii) (s : string) :
  Js.includes (String x s) (String c EmptyString)
  = (Ascii.eqb c x || Js.includes s (String c EmptyString))%bool.
Proof.
  rewrite includes_cons. simpl.
  destruct (ascii_dec c x) as [->|n].
  - now rewrite Ascii.eqb_refl, prefix_empty.
  - apply Ascii.eqb_neq in n. now rewrite n.
Qed.

Lemma split_without (c : ascii) (s : string) :
  Js.includes s (String c EmptyString) = false -> Js.split c s = [s].
Proof.
  induction s as [|x s IH]; intro H; [reflexivity|].
  rewrite includes_char in H. apply orb_false_iff in H. destruct H as [Hx Hs].
  simpl. rewrite Ascii.eqb_sym, Hx, (IH Hs). reflexivity.
Qed.

(** Splitting at the first separator. *)
Lemma split_first (c : ascii) (s r : string) :
  Js.includes s (String c EmptyString) = false ->
  Js.split c (s ++ String c r) = s :: Js.split c r.
Proof.
  induction s as [|x s IH]; intro H.
  - simpl. now rewrite Ascii.eqb_refl.
  - rewrite includes_char in H. apply orb_false_iff in H. destruct H as [Hx Hs].
    simpl. rewrite Ascii.eqb_sym, Hx, (IH Hs). reflexivity.
Qed.

Lemma split_nonempty (c : ascii) (s : string) : Js.split c s <> [].
Proof.
  destruct s as [|x s]; simpl; [discriminate|].
  destruct (Ascii.eqb x c); [discriminate|].
  destruct (Js.split c s); discriminate.
Qed.

(** Joining what was split gives the text back. *)
Lemma join_split (c : ascii) (s : string) :
  Js.join (String c EmptyString) (Js.split c s) = s.
Proof.
  induction s as [|x s IH]; [reflexivity|].
  simpl. destruct (Ascii.eqb_spec x c) as [->|n].
  - pose proof (split_nonempty c s) as N.
    destruct (Js.split c s) as [|h t]; [contradiction|].
    change (Js.join (String c "") ("" :: h :: t))
      with (String c (Js.join (String c "") (h :: t))).
    now rewrite IH.
  - pose proof (split_nonempty c s) as N.
    destruct (Js.split c s) as [|h t]; [contradiction|].
    destruct t as [|h2 t]; simpl in *; now rewrite <- IH.
Qed.

Lemma lower_upper_char (c : ascii) : Js.lowerChar (Js.upperChar c) = Js.lowerChar c.
Proof. destruct c as [[] [] [] [] [] [] [] []]; reflexivity. Qed.

Lemma lower_lower_char (c : ascii) : Js.lowerChar (Js.lowerChar c) = Js.lowerChar c.
Proof. destruct c as [[] [] [] [] [] [] [] []]; reflexivity. Qed.

Lemma lower_upper (s : string) : Js.toLowerCase (Js.toUpperCase s) = Js.toLowerCase s.
Proof.
  unfold Js.toLowerCase, Js.toUpperCase.
  induction s as [|c s IH]; [reflexivity|].
  cbn [Js.mapChars]. now rewrite lower_upper_char, IH.
Qed.

Lemma lower_lower (s : string) : Js.toLowerCase (Js.toLowerCase s) = Js.toLowerCase s.
Proof.
  unfold Js.toLowerCase.
  induction s as [|c s IH]; [reflexivity|].
  cbn [Js.mapChars]. now rewrite lower_lower_char, IH.
Qed.

Lemma lower_append (a b : string) :
  Js.toLowerCase (a ++ b) = Js.toLowerCase a ++ Js.toLowerCase b.
Proof.
  unfold Js.toLowerCase.
  induction a as [|c a IH]; [reflexivity|].
  cbn [Js.mapChars append]. now rewrite IH.
Qed.

Lemma lower_join (sep : string) (xs : list string) :
  Js.toLowerCase (Js.join sep xs)
  = Js.join (Js.toLowerCase sep) (map Js.toLowerCase xs).
Proof.
  induction xs as [|x xs IH]; [reflexivity|].
  destruct xs as [|y xs]; [reflexivity|].
  change (Js.join sep (x :: y :: xs)) with (x ++ sep ++ Js.join sep (y :: xs)).
  rewrite !lower_append, IH. reflexivity.
Qed.

Lemma append_empty (a : string) : a ++ "" = a.
Proof. induction a as [|x a IH]; simpl; [reflexivity | now rewrite IH]. Qed.

(** A member of a joined list occurs in the joined text. *)
Lemma includes_join (sep x : string) (xs : list string) :
  In x xs -> Js.includes (Js.join sep xs) x = true.
Proof.
  induction xs as [|y xs IH]; [intros []|intros [<- | H]].
  - destruct xs as [|z xs]; simpl.
    + rewrite <- (append_empty y) at 1. apply includes_here.
    + apply includes_here.
  - destruct xs as [|z xs]; [destruct H|].
    change (Js.join sep (y :: z :: xs)) with (y ++ sep ++ Js.join sep (z :: xs)).
    now apply includes_append_r, includes_append_r, IH.
Qed.

Lemma prefix_split (p t : string) :
  String.prefix p t = true -> exists b, t = p ++ b.
Proof.
  revert t. induction p as [|x p IH]; intros t H; [now exists t|].
  destruct t as [|y t]; simpl in H; [discriminate|].
  destruct (ascii_dec x y) as [->|]; [|discriminate].
  destruct (IH t H) as [b ->]. now exists b.
Qed.

(** A text occurs in another exactly when it lies between two parts of it. *)
Lemma includes_split (part sub : string) :
  Js.includes part sub = true -> exists a b, part = a ++ sub ++ b.
Proof.
  induction part as [|x part IH]; intro H.
  - destruct sub; [now exists "", "" | discriminate].
  - rewrite includes_cons in H.
    destruct (String.prefix sub (String x part)) eqn:P.
    + destruct (prefix_split _ _ P) as [b E]. exists "", b. exact E.
    + destruct (IH H) as (a & b & ->). now exists (String x a), b.
Qed.

(** Occurrence is transitive. *)
Lemma includes_trans (whole part sub : string) :
  Js.includes whole part = true ->
  Js.includes part sub = true ->
  Js.includes whole sub = true.
Proof.
  intros Hw Hp. destruct (includes_split _ _ Hp) as (a & b & ->).
  apply PatternFacts.includes_suffix_part in Hw.
  now apply PatternFacts.includes_trans_here in Hw.
Qed.

End TextFacts.

(** ** The pure helpers of the chat screen *)

Module HelperFacts.

Import Chat MoreTerms JsFacts TextFacts.

Lemma includes_colon_between (a b : string) : Js.includes (a ++ ":" ++ b) ":" = true.
Proof. apply includes_append_r. apply (includes_here ":" b). Qed.

Lemma nonEmpty_between (a c b : string) :
  Js.nonEmpty c = true -> Js.nonEmpty (a ++ c ++ b) = true.
Proof.
  intro H. apply nonEmpty_append_r. destruct c; [discriminate | reflexivity].
Qed.

(** [formatTime] on a text whose first two colon-separated parts are
    known. *)
Lemma formatTime_parts (t hours minutes : string) (rest : list string) :
  Js.nonEmpty t = true ->
  Js.includes t ":" = true ->
  Js.split ":" t = hours :: minutes :: rest ->
  formatTime (Some t)
  = Some match Js.parseInt hours with
         | Some h =>
             if h =? 0 then "12:" ++ minutes ++ " AM"
             else if h <? 12 then Js.ofZ h ++ ":" ++ minutes ++ " AM"
             else if h =? 12 then "12:" ++ minutes ++ " PM"
             else Js.ofZ (h - 12) ++ ":" ++ minutes ++ " PM"
         | None => "NaN:" ++ minutes ++ " PM"
         end.
Proof.
  intros N I S. unfold formatTime. rewrite N, I, S. reflexivity.
Qed.

(** X1.  [formatTime] turns a 24-hour time into a 12-hour time: for an
    hour text that [parseInt] reads as h with 0 <= h < 24, the result is
    the hour of the 12-hour clock (between 1 and 12, 12 for hours 0 and
    12), the minutes as given, and AM before noon, PM from noon on. *)
Theorem formatTime_converts_24_hour_times (hours minutes : string) (h : Z) :
  free ":" hours -> free ":" minutes ->
  Js.parseInt hours = Some h ->
  0 <= h < 24 ->
  formatTime (Some (hours ++ ":" ++ minutes))
  = Some (Js.ofZ (hour12 h) ++ ":" ++ minutes ++ meridiem h)
  /\ 1 <= hour12 h <= 12.
Proof.
  intros Fh Fm P R.
  rewrite (formatTime_parts _ hours minutes []).
  - rewrite P. unfold hour12, meridiem.
    destruct (Z.eqb_spec h 0) as [->|N0]; [split; [reflexivity | simpl; lia]|].
    destruct (Z.ltb_spec h 12) as [L|G].
    + rewrite Z.mod_small by lia.
      destruct (Z.eqb_spec h 0); [lia|]. split; [reflexivity | lia].
    + destruct (Z.eqb_spec h 12) as [->|N12]; [split; [reflexivity | simpl; lia]|].
      assert (E : h mod 12 = h - 12).
      { symmetry. apply (Z.mod_unique_pos h 12 1); lia. }
      rewrite E. destruct (Z.eqb_spec (h - 12) 0); [lia|]. split; [reflexivity | lia].
  - now apply nonEmpty_between.
  - apply includes_colon_between.
  - change (hours ++ ":" ++ minutes) with (hours ++ String ":" minutes).
    rewrite (split_first _ _ _ Fh). now rewrite (split_without _ _ Fm).
Qed.

Lemma formatTime_converts_24_hour_times_witness :
  formatTime (Some ("17" ++ ":" ++ "45")) = Some ("5" ++ ":" ++ "45" ++ " PM")
  /\ 1 <= hour12 17 <= 12.
Proof.
  apply (formatTime_converts_24_hour_times "17" "45" 17);
    try reflexivity; lia.
Defined.

(** X2.  [formatTime] reads the first two colon-separated parts only:
    seconds, or anything else after a second colon, are dropped. *)
Theorem formatTime_drops_seconds (hours minutes tail : string) :
  free ":" hours -> free ":" minutes ->
  formatTime (Some (hours ++ ":" ++ minutes ++ ":" ++ tail))
  = formatTime (Some (hours ++ ":" ++ minutes)).
Proof.
  intros Fh Fm.
  rewrite (formatTime_parts _ hours minutes (Js.split ":" tail)).
  - rewrite (formatTime_parts _ hours minutes []); [reflexivity | | |].
    + now apply nonEmpty_between.
    + apply includes_colon_between.
    + change (hours ++ ":" ++ minutes) with (hours ++ String ":" minutes).
      rewrite (split_first _ _ _ Fh). now rewrite (split_without _ _ Fm).
  - now apply nonEmpty_between.
  - apply includes_colon_between.
  - change (hours ++ ":" ++ minutes ++ ":" ++ tail)
      with (hours ++ String ":" (minutes ++ String ":" tail)).
    now rewrite (split_first _ _ _ Fh), (split_first _ _ _ Fm).
Qed.

Lemma formatTime_drops_seconds_witness :
  formatTime (Some ("09" ++ ":" ++ "30" ++ ":" ++ "00")) = formatTime (Some ("09" ++ ":" ++ "30")).
Proof. apply (formatTime_drops_seconds "09" "30" "00"); reflexivity. Defined.

(** X3.  [formatDate] moves the first of three dash-separated parts to
    the end (year-month-day becomes month-day-year), so applying it three
    times gives the date back; it is not its own inverse. *)
Theorem formatDate_rotates_three_parts (year month day : string) :
  free "-" year -> free "-" month -> free "-" day ->
  formatDate (year ++ "-" ++ month ++ "-" ++ day) = month ++ "-" ++ day ++ "-" ++ year
  /\ formatDate (formatDate (formatDate (year ++ "-" ++ month ++ "-" ++ day)))
     = year ++ "-" ++ month ++ "-" ++ day.
Proof.
  assert (R : forall a b c, free "-" a -> free "-" b -> free "-" c ->
              formatDate (a ++ "-" ++ b ++ "-" ++ c) = b ++ "-" ++ c ++ "-" ++ a).
  { intros a b c Fa Fb Fc. unfold formatDate.
    assert (N : Js.nonEmpty (a ++ "-" ++ b ++ "-" ++ c) = true)
      by now apply nonEmpty_append_r.
    assert (I : Js.includes (a ++ "-" ++ b ++ "-" ++ c) "-" = true)
      by (apply includes_append_r; apply (includes_here "-")).
    rewrite N, I. cbn [negb orb].
    change (a ++ "-" ++ b ++ "-" ++ c) with (a ++ String "-" (b ++ String "-" c)).
    now rewrite (split_first _ _ _ Fa), (split_first _ _ _ Fb), (split_without _ _ Fc). }
  intros Fy Fm Fd. split; [now apply R|].
  now rewrite !R.
Qed.

Lemma formatDate_rotates_three_parts_witness :
  formatDate ("2025" ++ "-" ++ "07" ++ "-" ++ "04") = "07" ++ "-" ++ "04" ++ "-" ++ "2025"
  /\ formatDate (formatDate (formatDate ("2025" ++ "-" ++ "07" ++ "-" ++ "04")))
     = "2025" ++ "-" ++ "07" ++ "-" ++ "04".
Proof. apply (formatDate_rotates_three_parts "2025" "07" "04"); reflexivity. Defined.

(** X4.  The flags of [analyzeQuery] are consistent: a specific
    character location is always a specific-location time as well; the
    fireworks, parade and show flags each imply the entertainment flag,
    and the show flag excludes the other two; and the resolved park is
    never Disney Springs or Resorts. *)
Theorem analyzeQuery_flags_are_consistent (input : string) :
  let a := analyzeQuery input in
  (isSpecificCharacterLocation a = true -> isSpecificLocationTime a = true)
  /\ (isFireworksQuery a = true -> isEntertainmentQuery a = true)
  /\ (isParadeQuery a = true -> isEntertainmentQuery a = true)
  /\ (isShowQuery a = true ->
      isEntertainmentQuery a = true
      /\ isFireworksQuery a = false /\ isParadeQuery a = false)
  /\ (forall p, targetPark a = Some p -> exists q : ParkId, p = Park q).
Proof.
  cbv zeta. unfold analyzeQuery.
  cbn [isSpecificCharacterLocation isSpecificLocationTime isFireworksQuery
       isParadeQuery isShowQuery isEntertainmentQuery targetPark].
  set (lower := Js.toLowerCase input).
  assert (T : Js.includes lower "town square theater" = true ->
              Js.includes lower "theater" = true)
    by (intro H; now apply (includes_trans lower "town square theater")).
  assert (S : Js.includes lower "pete's silly sideshow" = true ->
              Js.includes lower "sideshow" = true)
    by (intro H; now apply (includes_trans lower "pete's silly sideshow")).
  split; [|split; [|split; [|split]]].
  - intro H.
    destruct (Js.includes lower "fairytale hall"); [reflexivity|].
    destruct (Js.includes lower "princess fairytale hall"); [reflexivity|].
    destruct (Js.includes lower "fairy hall"); [reflexivity|].
    cbn [orb] in *. apply orb_true_iff in H. destruct H as [H|H].
    + now rewrite (T H).
    + rewrite (S H). now destruct (Js.includes lower "theater").
  - intros ->. now rewrite !orb_true_r.
  - intros ->. now rewrite !orb_true_r.
  - intro H. apply andb_true_iff in H. destruct H as [H Hp].
    apply andb_true_iff in H. destruct H as [Hs Hf].
    apply negb_true_iff in Hp, Hf. rewrite Hs. now repeat split.
  - intros p H.
    destruct (_ || _); [injection H as <-; eauto|].
    destruct (_ || _); [injection H as <-; eauto|].
    destruct (_ || _); [injection H as <-; eauto|].
    destruct (_ || _); [injection H as <-; eauto | discriminate].
Qed.

(** X5.  The ride name [tryPatternMatch] shows in its location-only
    answer is the keyword with letters changed in case only. *)
Theorem titleCase_changes_case_only (rideName : string) :
  Js.toLowerCase (titleCase rideName) = Js.toLowerCase rideName
  /\ forall parkId,
       Js.includes (locationOnlyAnswer rideName parkId) (titleCase rideName) = true.
Proof.
  split.
  - unfold titleCase. rewrite lower_join, map_map.
    rewrite (map_ext _ Js.toLowerCase).
    + rewrite <- (lower_join " "). now rewrite join_split.
    + intros [|c w]; [reflexivity|].
      unfold Js.charAt0, Js.slice1. rewrite lower_append.
      unfold Js.toLowerCase, Js.toUpperCase. cbn [Js.mapChars append].
      now rewrite lower_upper_char.
  - intro parkId. unfold locationOnlyAnswer.
    apply includes_append_r, includes_here.
Qed.

(** X6.  The pattern responder reads its input through [toLowerCase]
    only: two inputs with one lower-cased form are classified alike and
    answered alike, with the same effect on the state. *)
Theorem tryPatternMatch_ignores_letter_case
    (snap : Session) (input1 input2 : string) (contextPark : option ExtendedParkId) :
  Js.toLowerCase input1 = Js.toLowerCase input2 ->
  analyzeQuery input1 = analyzeQuery input2
  /\ forall pending w,
       tryPatternMatch snap input1 contextPark pending w
       = tryPatternMatch snap input2 contextPark pending w.
Proof.
  intro H.
  assert (A : analyzeQuery input1 = analyzeQuery input2)
    by (unfold analyzeQuery; now rewrite H).
  split; [exact A|].
  intros pending w. unfold tryPatternMatch, afterScan. now rewrite H, A.
Qed.

Lemma tryPatternMatch_ignores_letter_case_witness :
  analyzeQuery "EPCOT Hours" = analyzeQuery "epcot hours"
  /\ forall pending w,
       tryPatternMatch (ChatTerms.sessionWith (Park epcot) []) "EPCOT Hours" None pending w
       = tryPatternMatch (ChatTerms.sessionWith (Park epcot) []) "epcot hours" None
           pending w.
Proof.
  apply (tryPatternMatch_ignores_letter_case
           (ChatTerms.sessionWith (Park epcot) []) "EPCOT Hours" "epcot hours" None).
  reflexivity.
Defined.

Lemma analyzeQuery_flags_are_consistent_witness :
  isFireworksQuery (analyzeQuery "When are the fireworks?") = true
  /\ isEntertainmentQuery (analyzeQuery "When are the fireworks?") = true.
Proof.
  destruct (analyzeQuery_flags_are_consistent "When are the fireworks?")
    as (_ & F & _).
  split; [reflexivity | apply F; reflexivity].
Defined.

End HelperFacts.

(** ** More on the pattern responder and the pipeline *)

Module ResponderFacts.

Import Chat ChatTerms MoreTerms JsFacts TextFacts PatternFacts PipelineFacts.

Lemma attractionAnswer_nonEmpty lowerInput effectivePark parkId attraction :
  Js.nonEmpty (attractionAnswer lowerInput effectivePark parkId attraction) = true.
Proof. unfold attractionAnswer. now destruct (_ || _ || _ || _). Qed.

(** What the attraction loop does to the pending state: nothing, or it
    sets the current park to the park of an entry the input names. *)
Lemma scan_effect (snap : Session) (lowerInput : string)
    (effectivePark : ExtendedParkId) (table : list (string * ParkId)) :
  forall pending w,
    let r := scanAttractions snap lowerInput effectivePark table pending w in
    worldOf r = w
    /\ sameData pending (stateOf r)
    /\ conversationContext (stateOf r) = conversationContext pending
    /\ (currentPark (stateOf r) = currentPark pending
        \/ exists rideName parkId,
             In (rideName, parkId) table
             /\ Js.includes lowerInput rideName = true
             /\ currentPark (stateOf r) = Park parkId)
    /\ (forall answer, fst (fst r) = Some answer -> Js.nonEmpty answer = true).
Proof.
  induction table as [|[ride park] rest IH]; intros pending w; cbv zeta.
  - repeat split; try reflexivity; [now left | discriminate].
  - rewrite scan_cons.
    destruct (Js.includes lowerInput ride) eqn:I.
    + destruct (find (liveRecord park ride) (allAttractions snap)) as [a|].
      * destruct (park_eqb park (currentPark snap));
          (repeat split; try reflexivity;
           [ first [ now left | right; exists ride, park; repeat split; trivial; now left ]
           | intros answer H; injection H as <-; apply attractionAnswer_nonEmpty ]).
      * destruct (park_eqb park effectivePark); cbn [negb].
        -- destruct (IH pending w) as (W & D & C & P & N).
           repeat split; try apply D; trivial.
           destruct P as [P | (r0 & p0 & In0 & I0 & P)]; [now left|].
           right. exists r0, p0. repeat split; trivial. now right.
        -- repeat split; try reflexivity.
           ++ right. exists ride, park. repeat split; trivial. now left.
           ++ intros answer H. injection H as <-. reflexivity.
    + destruct (IH pending w) as (W & D & C & P & N).
      repeat split; try apply D; trivial.
      destruct P as [P | (r0 & p0 & In0 & I0 & P)]; [now left|].
      right. exists r0, p0. repeat split; trivial. now right.
Qed.

Lemma afterScan_nonEmpty snap input effectivePark answer :
  afterScan snap input effectivePark = Some answer -> Js.nonEmpty answer = true.
Proof.
  unfold afterScan. destruct effectivePark as [p| |].
  - destruct (_ && _); [|discriminate].
    destruct (find _ _) as [[q [[|today later]|]]|]; intro H; injection H as <-;
      try reflexivity.
    unfold hoursAnswer. now apply nonEmpty_append_r.
  - destruct (isTimeQuery _); intro H; injection H as <-; reflexivity.
  - intro H; injection H as <-; reflexivity.
Qed.

(** [tryPatternMatch] touches nothing but the current park.  The
    world, the messages, the input field, the loading flag, the cached
    data and the recent inputs are as before, and the current park is
    either unchanged or the park of an attraction-table entry that the
    lower-cased input names, so never Disney Springs or Resorts unless
    it already was. *)
Lemma tryPatternMatch_effect
    (snap pending : Session) (input : string) (contextPark : option ExtendedParkId)
    (w : World) :
  let r := tryPatternMatch snap input contextPark pending w in
  worldOf r = w
  /\ sameData pending (stateOf r)
  /\ conversationContext (stateOf r) = conversationContext pending
  /\ (currentPark (stateOf r) = currentPark pending
      \/ exists rideName parkId,
           In (rideName, parkId) ATTRACTION_TO_PARK
           /\ Js.includes (Js.toLowerCase input) rideName = true
           /\ currentPark (stateOf r) = Park parkId).
Proof.
  cbv zeta. unfold tryPatternMatch, bind.
  destruct (scan_effect snap (Js.toLowerCase input) (effective snap contextPark)
              ATTRACTION_TO_PARK pending w) as (W & D & C & P & _).
  fold (effective snap contextPark).
  destruct (scanAttractions _ _ _ _ pending w) as [[[answer|] s'] w'];
    (split; [exact W|]; split; [exact D|]; split; [exact C | exact P]).
Qed.

(** X7.  [tryPatternMatch] touches nothing but the current park: the
    world, the messages, the input field, the loading flag, the cached
    data and the recent inputs are as before, and the current park is
    either unchanged or the park of an attraction-table entry that the
    lower-cased input names. *)
Theorem tryPatternMatch_changes_the_current_park_only
    (snap pending : Session) (input : string) (contextPark : option ExtendedParkId)
    (w : World) :
  let r := tryPatternMatch snap input contextPark pending w in
  worldOf r = w
  /\ sameData pending (stateOf r)
  /\ conversationContext (stateOf r) = conversationContext pending
  /\ (currentPark (stateOf r) = currentPark pending
      \/ exists rideName parkId,
           In (rideName, parkId) ATTRACTION_TO_PARK
           /\ Js.includes (Js.toLowerCase input) rideName = true
           /\ currentPark (stateOf r) = Park parkId).
Proof. apply tryPatternMatch_effect. Qed.

(** Every answer of the pattern responder is a non-empty text, so
    the truthiness test of [processUserInput] lets each of them through:
    when the responder has an answer, [processUserInput] returns exactly
    that answer and sends nothing to the completion endpoint. *)
Lemma pattern_answer_run
    (complete : nat -> string -> FetchOutcome)
    (snap pending : Session) (input : string) (w : World) (answer : string) :
  fst (fst (tryPatternMatch snap input (Some (resolvedPark snap input)) pending w))
  = Some answer ->
  answer <> ""
  /\ exists s',
       processUserInput complete snap input pending w = (Ok (JStr answer), s', w).
Proof.
  intro H.
  assert (NE : Js.nonEmpty answer = true).
  { rewrite tryPatternMatch_answer in H.
    destruct (scan_effect snap (Js.toLowerCase input)
                (effective snap (Some (resolvedPark snap input)))
                ATTRACTION_TO_PARK pending w) as (_ & _ & _ & _ & N).
    destruct (fst (fst (scanAttractions _ _ _ _ pending w))) as [a|].
    - injection H as <-. now apply N.
    - now apply afterScan_nonEmpty in H. }
  split; [now apply nonEmpty_spec|].
  unfold processUserInput, bind.
  fold (resolvedPark snap input). set (t := resolvedPark snap input) in *.
  unfold setConversationContext at 1. cbv beta iota.
  set (p0 := {| currentPark := currentPark pending; conversationContext := _ |}).
  assert (W : worldOf (when (negb (park_eqb t (currentPark snap)))
                            (setCurrentPark t) p0 w) = w)
    by (destruct (park_eqb t (currentPark snap)); reflexivity).
  destruct (when _ _ p0 w) as [[u1 p1] w1].
  unfold worldOf in W. simpl in W. subst w1.
  assert (E : fst (fst (tryPatternMatch snap input (Some t) p1 w)) = Some answer).
  { rewrite tryPatternMatch_answer in *.
    now rewrite (scan_answer_eq snap snap _ _ _ eq_refl eq_refl p1 pending w w). }
  pose proof (tryPatternMatch_world snap input (Some t) p1 w) as V.
  destruct (tryPatternMatch snap input (Some t) p1 w) as [[r s2] w2].
  unfold worldOf in V. simpl in E, V. subst r w2.
  unfold present. rewrite NE. unfold ret. now exists s2.
Qed.

(** X8.  Every answer of the pattern responder is a non-empty text, so
    the truthiness test of [processUserInput] lets each of them through:
    when the responder has an answer, [processUserInput] returns exactly
    that answer and sends nothing to the completion endpoint. *)
Theorem pattern_answer_is_returned_without_request
    (complete : nat -> string -> FetchOutcome)
    (snap pending : Session) (input : string) (w : World) (answer : string) :
  fst (fst (tryPatternMatch snap input (Some (resolvedPark snap input)) pending w))
  = Some answer ->
  answer <> ""
  /\ exists s',
       processUserInput complete snap input pending w = (Ok (JStr answer), s', w).
Proof. apply pattern_answer_run. Qed.

Lemma pattern_answer_is_returned_without_request_witness :
  let snap := sessionWith (Park epcot) [] in
  exists answer,
    answer <> ""
    /\ exists s',
         processUserInput (fun _ _ => NetworkError) snap "what are epcot's hours" snap
           emptyWorld
         = (Ok (JStr answer), s', emptyWorld).
Proof.
  cbv zeta. eexists.
  apply (pattern_answer_is_returned_without_request (fun _ _ => NetworkError)
           (sessionWith (Park epcot) []) (sessionWith (Park epcot) [])
           "what are epcot's hours" emptyWorld).
  vm_compute. reflexivity.
Defined.

(** X9.  A question whose resolved park is Disney Springs or Resorts
    is always answered by the pattern responder; [processUserInput]
    returns that answer and never sends such a question to the
    completion endpoint, so its own two static district texts are never
    reached. *)
Theorem district_questions_are_answered_without_request
    (complete : nat -> string -> FetchOutcome)
    (snap pending : Session) (input : string) (w : World) :
  resolvedPark snap input = disneySprings \/ resolvedPark snap input = resorts ->
  exists answer s',
    fst (fst (tryPatternMatch snap input (Some (resolvedPark snap input)) pending w))
    = Some answer
    /\ answer <> ""
    /\ processUserInput complete snap input pending w = (Ok (JStr answer), s', w).
Proof.
  intro D.
  assert (A : exists answer,
             fst (fst (tryPatternMatch snap input (Some (resolvedPark snap input))
                         pending w)) = Some answer).
  { rewrite tryPatternMatch_answer.
    destruct (fst (fst (scanAttractions _ _ _ _ pending w))) as [a|]; [now exists a|].
    unfold effective, afterScan.
    destruct D as [-> | ->]; [destruct (isTimeQuery _)|]; now eexists. }
  destruct A as [answer A].
  destruct (pattern_answer_run complete snap pending input w answer A) as (N & s' & R).
  now exists answer, s'.
Qed.

Lemma district_questions_are_answered_without_request_witness :
  let snap := sessionWith disneySprings [] in
  exists answer s',
    fst (fst (tryPatternMatch snap "when do the shops close"
                (Some (resolvedPark snap "when do the shops close")) snap emptyWorld))
    = Some answer
    /\ answer <> ""
    /\ processUserInput (fun _ _ => NetworkError) snap "when do the shops close" snap
         emptyWorld
       = (Ok (JStr answer), s', emptyWorld).
Proof.
  cbv zeta.
  apply (district_questions_are_answered_without_request (fun _ _ => NetworkError)
           (sessionWith disneySprings []) (sessionWith disneySprings [])
           "when do the shops close" emptyWorld).
  left. reflexivity.
Defined.

(** X10.  A time query (not of a specific location) that no attraction
    entry answers, asked of a theme park for which no day of hours is
    cached, is answered from the table of typical hours: the answer
    names the park and carries its typical opening hours, and nothing
    changes. *)
Theorem time_query_without_cached_hours_gets_typical_hours
    (snap pending : Session) (input : string) (contextPark : option ExtendedParkId)
    (w : World) (park : ParkId) :
  isTimeQuery (analyzeQuery input) = true ->
  isSpecificLocationTime (analyzeQuery input) = false ->
  find (answers snap (effective snap contextPark) (Js.toLowerCase input))
       ATTRACTION_TO_PARK = None ->
  effective snap contextPark = Park park ->
  cachedDays snap (Park park) = [] ->
  tryPatternMatch snap input contextPark pending w
  = (Some (typicalHoursAnswer (Park park)), pending, w)
  /\ Js.includes (typicalHoursAnswer (Park park)) (generalHours (Park park)) = true
  /\ Js.includes (typicalHoursAnswer (Park park)) (PARK_NAMES (Park park)) = true.
Proof.
  intros Ht Hs Hscan He Hd. split; [|split].
  - unfold tryPatternMatch, bind. fold (effective snap contextPark).
    rewrite (scan_no_answer _ _ _ _ pending w Hscan). unfold ret, afterScan.
    rewrite Ht, Hs, He. cbn [andb negb]. unfold cachedDays in Hd.
    destruct (find _ (allParkHours snap)) as [[q [days|]]|]; simpl in Hd;
      [now subst days | reflexivity | reflexivity].
  - unfold typicalHoursAnswer. cbv zeta. find_text.
  - unfold typicalHoursAnswer. cbv zeta. find_text.
Qed.

Lemma time_query_without_cached_hours_gets_typical_hours_witness :
  let snap := sessionWith (Park magicKingdom) [] in
  tryPatternMatch snap "what are epcot's hours" (Some (Park epcot)) snap emptyWorld
  = (Some (typicalHoursAnswer (Park epcot)), snap, emptyWorld)
  /\ Js.includes (typicalHoursAnswer (Park epcot)) "9:00 AM - 9:00 PM" = true
  /\ Js.includes (typicalHoursAnswer (Park epcot)) "EPCOT" = true.
Proof.
  cbv zeta.
  apply (time_query_without_cached_hours_gets_typical_hours
           (sessionWith (Park magicKingdom) []) (sessionWith (Park magicKingdom) [])
           "what are epcot's hours" (Some (Park epcot)) emptyWorld epcot);
    reflexivity.
Defined.

(** X11.  An input that no attraction entry answers and that is not a
    plain time query, asked of a theme park, gets no pattern answer, and
    [processUserInput] then sends exactly one request, whose prompt is
    the one built for that park. *)
Theorem unmatched_input_goes_to_the_completion_endpoint
    (complete : nat -> string -> FetchOutcome)
    (snap pending : Session) (input : string) (w : World) (park : ParkId) :
  isTimeQuery (analyzeQuery input) = false
  \/ isSpecificLocationTime (analyzeQuery input) = true ->
  resolvedPark snap input = Park park ->
  find (answers snap (Park park) (Js.toLowerCase input)) ATTRACTION_TO_PARK = None ->
  (forall p v, tryPatternMatch snap input (Some (Park park)) p v = (None, p, v))
  /\ worldOf (processUserInput complete snap input pending w)
     = afterRequest w (aiPrompt snap input (Park park)).
Proof.
  intros Hq Hr Hscan.
  assert (T : forall p v,
             tryPatternMatch snap input (Some (Park park)) p v = (None, p, v)).
  { intros p v. unfold tryPatternMatch, bind.
    rewrite (scan_no_answer _ _ _ _ p v Hscan). unfold ret, afterScan.
    destruct Hq as [-> | ->]; [reflexivity|].
    now rewrite andb_false_r. }
  split; [exact T|].
  unfold processUserInput, bind. fold (resolvedPark snap input). rewrite Hr.
  unfold setConversationContext at 1. cbv beta iota.
  destruct (when _ _ _ w) as [[u1 p1] w1] eqn:E.
  assert (W : w1 = w).
  { unfold when in E. destruct (negb _); unfold setCurrentPark, ret in E;
      now injection E as _ _ <-. }
  subst w1. rewrite T. cbn [present].
  destruct (composeFallback_run complete snap input (Park park) p1 w) as (v & R & _).
  now rewrite R.
Qed.

Lemma unmatched_input_goes_to_the_completion_endpoint_witness :
  let snap := sessionWith (Park magicKingdom) [] in
  (forall p v, tryPatternMatch snap "tell me a story" (Some (Park magicKingdom)) p v
               = (None, p, v))
  /\ worldOf (processUserInput (fun _ _ => NetworkError) snap "tell me a story" snap
                emptyWorld)
     = afterRequest emptyWorld (aiPrompt snap "tell me a story" (Park magicKingdom)).
Proof.
  cbv zeta.
  apply (unmatched_input_goes_to_the_completion_endpoint (fun _ _ => NetworkError)
           (sessionWith (Park magicKingdom) []) (sessionWith (Park magicKingdom) [])
           "tell me a story" emptyWorld magicKingdom).
  - left. reflexivity.
  - reflexivity.
  - reflexivity.
Defined.

End ResponderFacts.

(** ** More on the session *)

Module SessionFacts.

Import Chat ChatTerms MoreTerms JsFacts TextFacts PatternFacts PipelineFacts
  ResponderFacts.

Lemma sameData_refl (s : Session) : sameData s s.
Proof. now repeat split. Qed.

Lemma sameData_trans (a b c : Session) : sameData a b -> sameData b c -> sameData a c.
Proof.
  unfold sameData. intros (A1 & A2 & A3 & A4 & A5 & A6 & A7)
                          (B1 & B2 & B3 & B4 & B5 & B6 & B7).
  repeat split; congruence.
Qed.

Lemma lastN_length {A} (n : nat) (xs : list A) : (length (lastN n xs) <= n)%nat.
Proof. unfold lastN. rewrite length_skipn. lia. Qed.

Section Oracles.

Variable clock : nat -> Z.
Variable random : nat -> string.
Variable toISOString : Z -> string.
Variable complete : nat -> string -> FetchOutcome.

(** What [processUserInput] does to the pending state. *)
Lemma processUserInput_effect snap input pending w :
  exists v s' w',
    processUserInput complete snap input pending w = (v, s', w')
    /\ sameData pending s'
    /\ conversationContext s'
       = (lastN 4 (conversationContext pending) ++ [input])%list
    /\ tick w' = tick w
    /\ feedbackStore w' = feedbackStore w.
Proof.
  unfold processUserInput, bind.
  fold (resolvedPark snap input). set (t := resolvedPark snap input).
  unfold setConversationContext at 1. cbv beta iota.
  set (p0 := {| currentPark := currentPark pending; conversationContext := _ |}).
  assert (D0 : sameData pending p0) by now repeat split.
  assert (E : exists p1, when (negb (park_eqb t (currentPark snap)))
                              (setCurrentPark t) p0 w = (tt, p1, w)
                         /\ sameData p0 p1
                         /\ conversationContext p1 = conversationContext p0).
  { destruct (park_eqb t (currentPark snap)); eexists;
      (split; [reflexivity|]); now repeat split. }
  destruct E as (p1 & -> & D1 & C1).
  destruct (tryPatternMatch_effect snap p1 input (Some t) w) as (W & D2 & C2 & _).
  destruct (tryPatternMatch snap input (Some t) p1 w) as [[r s2] w2].
  unfold stateOf, worldOf in W, D2, C2. simpl in W, D2, C2. subst w2.
  assert (D : sameData pending s2)
    by (apply (sameData_trans _ p1);
        [apply (sameData_trans _ p0); assumption | exact D2]).
  assert (C : conversationContext s2
              = (lastN 4 (conversationContext pending) ++ [input])%list)
    by (rewrite C2, C1; reflexivity).
  destruct (present r); [unfold ret; (do 3 eexists; split; [reflexivity|]; split; [exact D|]; split; [exact C|]; split; reflexivity)|].
  destruct t as [park| |]; [|unfold ret; (do 3 eexists; split; [reflexivity|]; split; [exact D|]; split; [exact C|]; split; reflexivity)..].
  destruct (composeFallback_run complete snap input (Park park) s2 w) as (v & R & _).
  rewrite R. (do 3 eexists; split; [reflexivity|]; split; [exact D|]; split; [exact C|]; split; reflexivity).
Qed.

(** X12.  [processUserInput] keeps the four most recent earlier inputs
    and appends the new one, so the list of recent inputs never holds
    more than five and always ends with the input just processed. *)
Theorem recent_inputs_are_bounded snap input pending w :
  let s' := stateOf (processUserInput complete snap input pending w) in
  conversationContext s' = (lastN 4 (conversationContext pending) ++ [input])%list
  /\ (length (conversationContext s') <= 5)%nat
  /\ last (conversationContext s') EmptyString = input.
Proof.
  cbv zeta.
  destruct (processUserInput_effect snap input pending w)
    as (v & s' & w' & R & _ & C & _).
  rewrite R. unfold stateOf. cbn [fst snd]. rewrite C. split; [reflexivity|]. split.
  - rewrite length_app. cbn [length]. pose proof (lastN_length 4 (conversationContext pending)).
    lia.
  - apply last_last.
Qed.

(** X13.  An accepted submission appends exactly two messages, the
    user's text and then one reply that is never the empty value, keeps
    every earlier message and the cached attractions, clears the input field,
    ends with the loading flag off, and sends at most one request to the
    completion endpoint. *)
Theorem accepted_submission_appends_question_and_reply
    (snap pending : Session) (messageText : option string) (w : World) :
  let text :=
    if present messageText then render messageText else Js.trim (inputText snap) in
  text <> "" ->
  isLoading snap = false ->
  exists user reply s' w',
    sendMessage clock random complete snap messageText pending w = (tt, s', w')
    /\ messages s' = (messages pending ++ [user; reply])%list
    /\ m_text user = JStr text /\ m_isUser user = true
    /\ m_isUser reply = false /\ m_showFeedback reply = Some true
    /\ Val.truthyJ (m_text reply) = true
    /\ inputText s' = "" /\ isLoading s' = false
    /\ allAttractions s' = allAttractions pending
    /\ (completionLog w' = completionLog w
        \/ exists prompt, completionLog w' = (completionLog w ++ [prompt])%list).
Proof.
  cbv zeta. intros NE L. unfold sendMessage.
  apply nonEmpty_spec in NE. rewrite NE, L. cbn [negb].
  unfold bind, newMessage, bind, readClock, readRandom, setMessages, setInputText,
    setIsLoading, ret.
  cbv beta iota zeta.
  match goal with
  | |- context [processUserInput complete snap ?t ?p ?v] =>
      destruct (processUserInput_run complete snap t p v)
        as (r & s1 & w1 & Hrun & _ & Hw & Htext);
      destruct (processUserInput_effect snap t p v)
        as (r' & s1' & w1' & Hrun' & (M & I & Lo & A & _) & _);
      rewrite Hrun in Hrun'; injection Hrun' as <- <- <-;
      rewrite Hrun
  end.
  cbv beta iota zeta. cbn [messages inputText isLoading allAttractions] in *.
  do 4 eexists. split; [reflexivity|].
  cbn [messages inputText isLoading allAttractions m_text m_isUser m_showFeedback
       completionLog tick].
  rewrite M, A. rewrite <- app_assoc. cbn [app].
  repeat split; trivial.
  - destruct Hw as [-> | (t & -> & [(text & -> & Ht) | (_ & T & _)])].
    + destruct (Htext eq_refl) as (text & -> & Ht). now apply nonEmpty_spec.
    + now apply nonEmpty_spec.
    + exact T.
  - destruct Hw as [-> | (t & -> & _)]; [now left | right; now eexists].
Qed.

Lemma messageTextOf_unknown snap messageId :
  (forall m, In m (messages snap) -> m_id m <> messageId) ->
  messageTextOf snap messageId = Ok None.
Proof.
  intro H. unfold messageTextOf.
  destruct (find _ (messages snap)) as [m|] eqn:F; [|reflexivity].
  apply find_some in F. destruct F as [Hin E].
  apply String.eqb_eq in E. now destruct (H m Hin).
Qed.

(** X14.  Feedback for an id that no message has changes no message
    and reads the clock once, for the log.  When the stored item is
    absent or holds an array, the entry is appended to it all the same,
    without a message text and with that reading as its time; when the
    stored item cannot be read, it is left as it was. *)
Theorem feedback_for_unknown_message_is_still_logged
    (snap pending : Session) (w : World) (messageId : string)
    (feedbackType : FeedbackType) (comment : option string) :
  (forall m, In m (messages snap) -> m_id m <> messageId) ->
  (forall m, In m (messages pending) -> m_id m <> messageId) ->
  let r := handleFeedback clock toISOString snap messageId feedbackType comment
             pending w in
  let entry :=
    feedbackData messageId feedbackType comment (toISOString (clock (tick w)))
      (currentPark snap) None in
  fst (fst r) = Ok tt
  /\ messages (stateOf r) = messages pending
  /\ tick (worldOf r) = S (tick w)
  /\ (forall log,
        logOf (feedbackStore w) = Some log ->
        logOf (feedbackStore (worldOf r)) = Some (log ++ [entry])%list)
  /\ (logOf (feedbackStore w) = None -> feedbackStore (worldOf r) = feedbackStore w)
  /\ Val.field "messageText"
       match entry with
       | JObj fields => fields
       | _ => []
       end = None.
Proof.
  intros Hs Hp. cbv zeta.
  pose proof (proj2 (carriers_none messageId (messages pending)) Hp) as Hn.
  rewrite handleFeedback_run_any. cbv zeta.
  rewrite Hn, (messageTextOf_unknown _ _ Hs).
  unfold stateOf, worldOf. cbn [fst snd tick feedbackStore withMessages messages plus].
  split; [reflexivity|]. split; [now apply attached_unknown|].
  split; [reflexivity|]. split; [|split].
  - intros log Hl. destruct (feedbackStore w) as [| |[]]; try discriminate;
      now injection Hl as <-.
  - intro Hl. destruct (feedbackStore w) as [| |[]]; try discriminate; reflexivity.
  - unfold feedbackData, member. destruct comment; reflexivity.
Qed.

(** X15.  When the stored feedback item cannot be read as a log (its
    text does not parse, or parses to something that is not an array),
    the handler still attaches the feedback in memory and returns
    normally, and it leaves the stored item exactly as it was: the entry
    is lost without a sign.  The messages are those the updater leaves,
    which with at most one message of the id is each message with the
    feedback of the call's first clock reading attached. *)
Theorem unreadable_feedback_store_is_left_alone
    (snap pending : Session) (w : World) (messageId : string)
    (feedbackType : FeedbackType) (comment : option string) :
  (forall m, In m (messages snap) -> exists text, m_text m = JStr text) ->
  logOf (feedbackStore w) = None ->
  let r := handleFeedback clock toISOString snap messageId feedbackType comment
             pending w in
  fst (fst r) = Ok tt
  /\ feedbackStore (worldOf r) = feedbackStore w
  /\ messages (stateOf r)
     = attached clock messageId feedbackType comment (tick w) (messages pending)
  /\ ((carriers messageId (messages pending) <= 1)%nat ->
      messages (stateOf r)
      = map (attach messageId
               {| f_type := feedbackType; f_comment := comment;
                  f_timestamp := clock (tick w) |})
            (messages pending)).
Proof.
  intros Ht Hl. cbv zeta. split; [|split; [|split]].
  - destruct (messageTextOf_texts snap messageId Ht) as [text E].
    rewrite handleFeedback_run_any. cbv zeta. now rewrite E.
  - now apply handleFeedback_unreadable_store.
  - now rewrite handleFeedback_memory.
  - intro Hc. rewrite handleFeedback_memory. cbn [withMessages messages].
    destruct (carriers messageId (messages pending)) as [|[|k]] eqn:C; [| |lia].
    + pose proof (proj1 (carriers_none messageId (messages pending)) C) as U.
      now rewrite (attached_unknown _ _ _ _ _ _ U), (map_attach_unknown _ _ _ U).
    + now apply attached_single.
Qed.

(** X16.  The prompt sent to the completion endpoint carries the user's
    input verbatim between double quotes, and one line for every cached
    attraction of the target park. *)
Theorem prompt_carries_input_and_attractions
    (snap : Session) (input : string) (targetPark : ExtendedParkId) :
  Js.includes (aiPrompt snap input targetPark) (Js.dq ++ input ++ Js.dq) = true
  /\ forall a,
       In a (allAttractions snap) -> inPark targetPark a = true ->
       Js.includes (aiPrompt snap input targetPark) (attractionLine a) = true.
Proof.
  unfold aiPrompt. cbv zeta. split.
  - do 9 apply includes_append_r.
    match goal with
    | |- Js.includes (Js.dq ++ input ++ Js.dq ++ ?rest) _ = true =>
        replace (Js.dq ++ input ++ Js.dq ++ rest)
          with ((Js.dq ++ input ++ Js.dq) ++ rest)
          by now rewrite !append_assoc
    end.
    apply includes_here.
  - intros a Hin Hpark. do 21 apply includes_append_r.
    apply includes_append_l, includes_join, in_map, filter_In. now split.
Qed.

(** X17.  When the completion endpoint answers with an ok status and a
    body whose first choice holds a non-empty text as message content,
    the composer returns that text unchanged, whatever else the body
    holds. *)
Theorem completion_text_is_returned_verbatim
    (snap pending : Session) (input : string) (targetPark : ExtendedParkId)
    (w : World) (status : Z) (fields : list (string * JSON))
    (choice : JSON) (others : list JSON) (text : string) :
  complete (length (completionLog w)) (aiPrompt snap input targetPark)
  = Response status (Parsed (JObj fields)) ->
  statusOk status = true ->
  Val.field "choices" fields = Some (JArr (choice :: others)) ->
  Val.getOpt (Val.getOpt (Some choice) "message") "content" = Some (JStr text) ->
  text <> "" ->
  composeFallback complete snap input targetPark pending w
  = (Ok (JStr text), pending, afterRequest w (aiPrompt snap input targetPark)).
Proof.
  intros Hc Hs Hf Hg Ht.
  unfold composeFallback, askCompletion, fetchCompletion, bind, ret.
  rewrite Hc, Hs. cbn [negb]. unfold completionBody, obind. cbn [Val.get].
  rewrite Hf. cbn [Val.first hd_error]. rewrite Hg. cbn [Val.truthyJ].
  apply nonEmpty_spec in Ht. now rewrite Ht.
Qed.

End Oracles.

Lemma accepted_submission_appends_question_and_reply_witness :
  let snap :=
    {| currentPark := Park epcot; messages := []; inputText := " where is soarin ";
       isLoading := false; allAttractions := []; allEntertainment := [];
       allParkHours := []; allCharacterMeets := []; conversationContext := [] |} in
  exists user reply s' w',
    sendMessage (fun n => Z.of_nat n) (fun _ => "0.5") (fun _ _ => NetworkError)
      snap None snap emptyWorld = (tt, s', w')
    /\ messages s' = [user; reply]
    /\ m_text user = JStr "where is soarin".
Proof.
  cbv zeta.
  destruct (accepted_submission_appends_question_and_reply
              (fun n => Z.of_nat n) (fun _ => "0.5") (fun _ _ => NetworkError)
              {| currentPark := Park epcot; messages := [];
                 inputText := " where is soarin "; isLoading := false;
                 allAttractions := []; allEntertainment := []; allParkHours := [];
                 allCharacterMeets := []; conversationContext := [] |}
              {| currentPark := Park epcot; messages := [];
                 inputText := " where is soarin "; isLoading := false;
                 allAttractions := []; allEntertainment := []; allParkHours := [];
                 allCharacterMeets := []; conversationContext := [] |}
              None emptyWorld)
    as (user & reply & s' & w' & R & M & T & _).
  - discriminate.
  - reflexivity.
  - exists user, reply, s', w'. split; [exact R|]. split; [exact M | exact T].
Defined.


Lemma feedback_for_unknown_message_is_still_logged_witness :
  let snap := sessionWith (Park epcot) [] in
  let r := handleFeedback (fun n => Z.of_nat n) (fun t => Js.ofZ t) snap "ai_1" positive
             None snap emptyWorld in
  fst (fst r) = Ok tt
  /\ messages (stateOf r) = []
  /\ logOf (feedbackStore (worldOf r))
     = Some [feedbackData "ai_1" positive None "0" (Park epcot) None].
Proof.
  cbv zeta.
  destruct (feedback_for_unknown_message_is_still_logged
              (fun n => Z.of_nat n) (fun t => Js.ofZ t)
              (sessionWith (Park epcot) []) (sessionWith (Park epcot) [])
              emptyWorld "ai_1" positive None)
    as (R & M & _ & L & _).
  - intros m [].
  - intros m [].
  - split; [exact R|]. split; [exact M | exact (L [] eq_refl)].
Defined.

Lemma unreadable_feedback_store_is_left_alone_witness :
  let snap := sessionWith (Park epcot) [] in
  let w := {| tick := 0; completionLog := []; feedbackStore := Garbage |} in
  fst (fst (handleFeedback (fun n => Z.of_nat n) (fun t => Js.ofZ t) snap "ai_1"
              negative None snap w)) = Ok tt
  /\ feedbackStore
       (worldOf (handleFeedback (fun n => Z.of_nat n) (fun t => Js.ofZ t) snap "ai_1"
                   negative None snap w)) = Garbage.
Proof.
  cbv zeta.
  destruct (unreadable_feedback_store_is_left_alone
              (fun n => Z.of_nat n) (fun t => Js.ofZ t)
              (sessionWith (Park epcot) []) (sessionWith (Park epcot) [])
              {| tick := 0; completionLog := []; feedbackStore := Garbage |}
              "ai_1" negative None)
    as (R & S & _).
  - intros m [].
  - reflexivity.
  - split; [exact R | exact S].
Defined.

Lemma completion_text_is_returned_verbatim_witness :
  let snap := sessionWith (Park epcot) [] in
  let body :=
    [("id", JStr "c1");
     ("choices", JArr [JObj [("message", JObj [("role", JStr "assistant");
                                               ("content", JStr "Go early!")])]])] in
  composeFallback (fun _ _ => Response 200 (Parsed (JObj body))) snap "any tips" (Park epcot)
    snap emptyWorld
  = (Ok (JStr "Go early!"), snap, afterRequest emptyWorld (aiPrompt snap "any tips" (Park epcot))).
Proof.
  cbv zeta.
  apply (completion_text_is_returned_verbatim
           (fun _ _ => Response 200 (Parsed (JObj
              [("id", JStr "c1");
               ("choices", JArr [JObj [("message", JObj [("role", JStr "assistant");
                                                         ("content", JStr "Go early!")])]])])))
           (sessionWith (Park epcot) []) (sessionWith (Park epcot) [])
           "any tips" (Park epcot) emptyWorld 200
           [("id", JStr "c1");
            ("choices", JArr [JObj [("message", JObj [("role", JStr "assistant");
                                                      ("content", JStr "Go early!")])]])]
           (JObj [("message", JObj [("role", JStr "assistant");
                                    ("content", JStr "Go early!")])])
           [] "Go early!");
    try reflexivity.
  discriminate.
Defined.

Lemma prompt_carries_input_and_attractions_witness :
  let snap := sessionWith (Park magicKingdom) [spaceMountain "sm1" true None] in
  Js.includes (aiPrompt snap "any tips" (Park magicKingdom)) (Js.dq ++ "any tips" ++ Js.dq)
  = true
  /\ Js.includes (aiPrompt snap "any tips" (Park magicKingdom)) (attractionLine (spaceMountain "sm1" true None))
     = true.
Proof.
  cbv zeta.
  destruct (prompt_carries_input_and_attractions
              (sessionWith (Park magicKingdom) [spaceMountain "sm1" true None]) "any tips"
              (Park magicKingdom)) as (Q & A).
  split; [exact Q | apply A; [left; reflexivity | reflexivity]].
Defined.

End SessionFacts.

(** ** More on the park-data service and the loader *)

Module DataFacts.

Import DataService ServiceTerms MoreTerms JsFacts ServiceFacts.

Lemma normalizeOne_null stampAt parkId index :
  normalizeOne stampAt parkId index JNull = Raised.
Proof. reflexivity. Qed.

(** On an element that is not [null] only the rendering of the id can
    throw. *)
Lemma normalizeOne_rendering stampAt parkId index attraction :
  attraction <> JNull ->
  (exists a, normalizeOne stampAt parkId index attraction = Ok a)
  \/ (normalizeOne stampAt parkId index attraction = Raised /\ unreadableId attraction).
Proof.
  intro N. unfold unreadableId, raw.
  destruct attraction as [| | | | |fields]; try (now destruct N);
    try (left; unfold normalizeOne, obind; cbn [Val.get orJ Val.strJ];
         eexists; reflexivity).
  unfold normalizeOne, obind. cbn [Val.get Val.getOpt].
  destruct (Val.field "id" fields) as [v|] eqn:F; cbn [orJ].
  - destruct (Val.truthyJ v) eqn:T.
    + destruct (Val.strJ v) as [text|] eqn:R.
      * left. eexists. reflexivity.
      * right. split; [reflexivity|]. now exists v.
    + left. cbn [Val.strJ]. eexists. reflexivity.
  - left. cbn [Val.strJ]. eexists. reflexivity.
Qed.

Lemma normalizeOne_unreadable stampAt parkId index attraction :
  unreadableId attraction -> normalizeOne stampAt parkId index attraction = Raised.
Proof.
  intros (v & F & T & R). unfold raw in F.
  destruct attraction as [| | | | |fields]; try discriminate.
  cbn [Val.getOpt] in F. unfold normalizeOne, obind. cbn [Val.get].
  rewrite F. cbn [orJ]. now rewrite T, R.
Qed.

Lemma normalizeFrom_unreadable stampAt parkId items :
  forall index,
    (exists x, In x items /\ (x = JNull \/ unreadableId x)) ->
    normalizeFrom stampAt parkId index items = Raised.
Proof.
  induction items as [|x rest IH]; intros index (y & Hin & Hy); [destruct Hin|].
  cbn [normalizeFrom]. unfold obind. destruct Hin as [<- | Hin].
  - destruct Hy as [-> | U]; [reflexivity | now rewrite normalizeOne_unreadable].
  - destruct (normalizeOne stampAt parkId index x); [|reflexivity].
    rewrite IH; [reflexivity|]. now exists y.
Qed.

Lemma normalizeFrom_values stampAt parkId items :
  forall index,
    (forall x, In x items -> x <> JNull /\ ~ unreadableId x) ->
    exists out, normalizeFrom stampAt parkId index items = Ok out
                /\ length out = length items.
Proof.
  induction items as [|x rest IH]; intros index N; cbn [normalizeFrom].
  - now exists [].
  - destruct (N x (or_introl eq_refl)) as (Nx & Ux).
    destruct (normalizeOne_rendering stampAt parkId index x Nx) as [[a E] | [_ U]];
      [|now destruct Ux].
    destruct (IH (S index)) as (out & F & L).
    { intros y Hy. apply N. now right. }
    exists (a :: out). unfold obind. rewrite E, F. split; [reflexivity|].
    simpl. now rewrite L.
Qed.

Lemma plainId_readable (x : JSON) : plainId x = true -> ~ unreadableId x.
Proof.
  unfold plainId. intros P (v & F & _ & R). rewrite F in P.
  destruct v as [| [] | | | |]; discriminate.
Qed.

Lemma null_element_or_not (items : list JSON) : In JNull items \/ ~ In JNull items.
Proof.
  induction items as [|x rest [IH | IH]]; [now right | left; now right |].
  destruct x; try (right; intros [E | H]; [discriminate | now apply IH]).
  left. now left.
Qed.

Lemma prefix_key (k x : string) : String.prefix (k ++ "-") (k ++ "-" ++ x) = true.
Proof. rewrite <- append_assoc. apply prefix_append. Qed.

Lemma normalizeOne_id stampAt parkId index attraction a :
  normalizeOne stampAt parkId index attraction = Ok a ->
  String.prefix (parkKey parkId ++ "-") (id a) = true.
Proof.
  unfold normalizeOne, obind. intro H.
  repeat match type of H with
         | match Val.get ?x ?k with _ => _ end = _ =>
             destruct (Val.get x k); [|discriminate]
         end.
  destruct (Val.strJ _) as [idText|]; [|discriminate].
  injection H as <-. exact (prefix_key (parkKey parkId) idText).
Qed.

Lemma normalizeFrom_ids stampAt parkId items :
  forall index out,
    normalizeFrom stampAt parkId index items = Ok out ->
    Forall (fun a => park a = parkId
                     /\ String.prefix (parkKey parkId ++ "-") (id a) = true) out.
Proof.
  induction items as [|x rest IH]; intros index out H; cbn [normalizeFrom] in H.
  - injection H as <-. constructor.
  - unfold obind in H.
    destruct (normalizeOne stampAt parkId index x) as [a|] eqn:E; [|discriminate].
    destruct (normalizeFrom stampAt parkId (S index) rest) as [r|] eqn:F;
      [|discriminate].
    injection H as <-. constructor; [|eauto].
    split; [|now apply normalizeOne_id in E].
    apply normalizeOne_normalised in E. apply E.
Qed.

(** X18.  [normalizeAttractions] throws on a list exactly when one of
    its elements is [null] or has a truthy [id] that the template literal
    cannot render (an object with a [toString] member of its own, or an
    array that holds one); on any other list it returns one record per
    element.  When every [id] is missing or is [null], a boolean, a
    number or a text, it throws exactly when an element is [null]. *)
Theorem normalizeAttractions_raises_exactly_on_unreadable_elements
    (stampAt : nat -> string) (parkId : ParkId) (items : list JSON) :
  ((exists x, In x items /\ (x = JNull \/ unreadableId x)) ->
   normalizeAttractions stampAt (JArr items) parkId = Raised)
  /\ ((forall x, In x items -> x <> JNull /\ ~ unreadableId x) ->
      exists out,
        normalizeAttractions stampAt (JArr items) parkId = Ok out
        /\ length out = length items)
  /\ ((forall x, In x items -> plainId x = true) ->
      (In JNull items <-> normalizeAttractions stampAt (JArr items) parkId = Raised)).
Proof.
  cbn [normalizeAttractions]. split; [|split].
  - apply normalizeFrom_unreadable.
  - apply normalizeFrom_values.
  - intro P. split.
    + intro H. apply normalizeFrom_unreadable. exists JNull. split; [exact H | now left].
    + intro R. destruct (null_element_or_not items) as [H | H]; [exact H|].
      destruct (normalizeFrom_values stampAt parkId items 0) as (out & E & _).
      * intros x Hx. split; [now intros -> | now apply plainId_readable, P].
      * rewrite E in R. discriminate.
Qed.

(** X19.  Whatever the request yields, the record [getWaitTimes] returns
    is for the requested park, carries its display name and the time of
    the call, holds only attractions of that park whose ids start with
    the park's key, and is marked [disney_proxy] or else [fallback] with
    the one placeholder attraction. *)
Theorem getWaitTimes_result_is_well_formed
    (stampAt : nat -> string) (stampEnd : string) (parkId : ParkId)
    (response : FetchOutcome) :
  let data := getWaitTimes stampAt stampEnd parkId response in
  pd_parkId data = parkId
  /\ pd_parkName data = PARK_NAMES parkId
  /\ pd_lastUpdated data = stampEnd
  /\ Forall (fun a => park a = parkId
                      /\ String.prefix (parkKey parkId ++ "-") (id a) = true)
            (pd_attractions data)
  /\ (pd_source data = "disney_proxy"
      \/ pd_source data = "fallback"
         /\ map name (pd_attractions data) = [JStr "Check Disney World App"]).
Proof.
  cbv zeta. unfold getWaitTimes.
  destruct (waitTimesBody stampAt stampEnd parkId response) as [data|] eqn:B.
  - unfold waitTimesBody, obind in B.
    destruct response as [|status [|payload]]; try discriminate;
      destruct (statusOk status); try discriminate.
    destruct (Val.get (Some payload) "attractions") as [v|]; [|discriminate].
    destruct (normalizeAttractions stampAt (orJ v (JArr [])) parkId) as [l|] eqn:N;
      [|discriminate].
    injection B as <-. cbn [pd_parkId pd_parkName pd_lastUpdated pd_attractions pd_source].
    repeat split; [|now left].
    unfold normalizeAttractions in N.
    destruct (orJ v (JArr [])); try discriminate.
    now apply normalizeFrom_ids in N.
  - cbn [getFallbackWaitTimes pd_parkId pd_parkName pd_lastUpdated pd_attractions
         pd_source].
    repeat split; [|now right].
    constructor; [|constructor]. cbn [park id]. split; [reflexivity|].
    exact (prefix_key (parkKey parkId) "fallback-1").
Qed.

Import Loader.

Lemma collect_allData stamps ends responses :
  allData (collect stamps ends responses)
  = flat_map (fun p => map (fromService p) (pd_attractions (waitTimesOf stamps ends responses p)))
      parks.
Proof.
  unfold collect, parks, waitTimesOf. cbn [fold_left flat_map].
  rewrite !loadPark_allData. cbn [nothing allData].
  now rewrite app_nil_r, <- !app_assoc.
Qed.

(** X20.  The attractions a load collects are those of the four
    wait-times results, in the order of the parks, whatever the other
    requests yield; each is recorded as open, whatever the payload said. *)
Theorem collected_attractions_come_from_wait_times
    (stamps : ParkId -> nat -> string) (ends : ParkId -> string)
    (responses : ParkId -> ParkResponses) :
  allData (collect stamps ends responses)
  = flat_map (fun p => map (fromService p)
                         (pd_attractions (waitTimesOf stamps ends responses p)))
      [magicKingdom; epcot; hollywoodStudios; animalKingdom]
  /\ Forall (fun a => Loader.isOpen a = true) (allData (collect stamps ends responses)).
Proof.
  split; [apply collect_allData|].
  rewrite collect_allData. apply Forall_forall. intros a H.
  apply in_flat_map in H. destruct H as (p & _ & H).
  apply in_map_iff in H. now destruct H as (x & <- & _).
Qed.

(** X21.  A park whose wait-times request fails does not leave the cache
    empty: the load stores what it collected, and that holds the park's
    placeholder attraction. *)
Theorem failed_wait_times_cache_a_placeholder
    (stamps : ParkId -> nat -> string) (ends : ParkId -> string)
    (responses : ParkId -> ParkResponses) (p : ParkId) :
  failed (waitTimes (responses p)) ->
  exists c a,
    loadAttractions stamps ends responses = Some c
    /\ In a (allData c)
    /\ Loader.name a = JStr "Check Disney World App"
    /\ Loader.park a = p
    /\ Loader.waitTime a = 0.
Proof.
  intro F.
  set (a := fromService p
              {| DataService.id := parkKey p ++ "-fallback-1";
                 DataService.name := JStr "Check Disney World App";
                 DataService.land := None; DataService.waitTime := 0;
                 DataService.isOpen := true;
                 DataService.hasLightningLane := JBool false;
                 DataService.lastUpdated := None; DataService.park := p |}).
  assert (H : In a (allData (collect stamps ends responses))).
  { rewrite collect_allData. apply in_flat_map. exists p. split.
    - unfold parks. destruct p; simpl; tauto.
    - unfold waitTimesOf. rewrite (failed_waitTimes _ _ _ _ F).
      cbn [getFallbackWaitTimes pd_attractions map]. now left. }
  exists (collect stamps ends responses), a.
  split; [|split; [exact H | now repeat split]].
  unfold loadAttractions. cbv zeta.
  destruct (allData (collect stamps ends responses)); [destruct H | reflexivity].
Qed.

(** X22.  A throw while a park's entertainment or character meets are
    collected ends the work on that park.  When the entertainment member
    is truthy but has no readable list of shows, only the park's
    attractions are collected: its character meets and hours are skipped
    although their requests succeeded.  When the character-meet member is
    truthy but not an array, the park's hours are skipped. *)
Theorem throw_while_collecting_skips_the_rest_of_the_park
    (stampAt : nat -> string) (stampEnd : string) (parkId : ParkId)
    (r : ParkResponses) (acc : Collected) :
  (forall shows,
     Val.getOpt (directFetch (entertainment r)) "entertainment" = Some shows ->
     Val.truthyJ shows = true ->
     typesReadable shows = false ->
     loadPark stampAt stampEnd parkId r acc
     = pushAttractions parkId (getWaitTimes stampAt stampEnd parkId (waitTimes r)) acc)
  /\ (forall meets,
        Val.getOpt (directFetch (characterMeets r)) "characterMeets" = Some meets ->
        Val.truthyJ meets = true ->
        (forall items, meets <> JArr items) ->
        allParkHours (loadPark stampAt stampEnd parkId r acc) = allParkHours acc
        /\ allCharacterMeets (loadPark stampAt stampEnd parkId r acc)
           = allCharacterMeets acc).
Proof.
  split.
  - intros shows G T U. unfold loadPark. cbv zeta. unfold pushEntertainment.
    rewrite G.
    destruct (directFetch (entertainment r)) as [[]|]; try discriminate.
    cbn [Val.truthy Val.truthyJ andb]. now rewrite T, U.
  - intros meets G T N. unfold loadPark. cbv zeta.
    set (acc1 := pushAttractions _ _ acc).
    destruct (pushEntertainment _ _ acc1) as [acc2|] eqn:E; [|now split].
    apply pushEntertainment_others in E. destruct E as (_ & E1 & E2).
    unfold pushCharacterMeets. rewrite G.
    destruct (directFetch (characterMeets r)) as [[]|]; try discriminate.
    cbn [Val.truthy Val.truthyJ andb]. rewrite T.
    destruct meets; try (now split). now destruct (N items).
Qed.

(** X23.  The hours, entertainment and parade fetchers hand on a truthy
    member of an ok response as it is: they do not check that it is a
    list. *)
Theorem truthy_member_is_returned_unvalidated
    (parkId : ParkId) (status : Z) (fields : list (string * JSON)) (v : JSON) :
  statusOk status = true ->
  Val.truthyJ v = true ->
  let response := Response status (Parsed (JObj fields)) in
  (Val.field "schedule" fields = Some v -> getParkHours parkId response = v)
  /\ (Val.field "entertainment" fields = Some v -> getEntertainment parkId response = v)
  /\ (Val.field "parades" fields = Some v ->
      ServiceMore.getParadeTimes parkId response = v).
Proof.
  intros S T. cbv zeta.
  unfold getParkHours, getEntertainment, ServiceMore.getParadeTimes, memberBody, obind.
  rewrite S. cbn [Val.get].
  repeat split; intros ->; unfold orJ; now rewrite T.
Qed.

(** X24.  When the proxy cannot be reached for entertainment and for
    parades, the parades of the combined park data are exactly the
    parade entries of its entertainment. *)
Theorem fallback_parades_are_the_parades_of_the_fallback_entertainment
    (stampAt : nat -> string) (stampEnd : string) (parkId : ParkId)
    (waitTimes parkHours entertainment parades : FetchOutcome) :
  failed entertainment -> failed parades ->
  let d := ServiceMore.getCompleteParkData stampAt stampEnd parkId
             waitTimes parkHours entertainment parades in
  ServiceMore.cp_parades d = paradesOf (ServiceMore.cp_entertainment d).
Proof.
  intros Fe Fp. cbv zeta.
  unfold ServiceMore.getCompleteParkData.
  cbn [ServiceMore.cp_parades ServiceMore.cp_entertainment].
  unfold ServiceMore.getParadeTimes, getEntertainment.
  rewrite (failed_body _ _ Fe), (failed_body _ _ Fp).
  now destruct parkId.
Qed.

Lemma normalizeAttractions_raises_exactly_on_unreadable_elements_witness :
  normalizeAttractions (fun _ => noon)
    (JArr [JObj []; JObj [("id", JObj [("toString", JNum 1)])]]) epcot = Raised
  /\ normalizeAttractions (fun _ => noon) (JArr [JObj []; JNull]) epcot = Raised
  /\ exists out,
       normalizeAttractions (fun _ => noon)
         (JArr [JStr "x"; JObj [("id", JObj [])]]) epcot = Ok out
       /\ length out = 2%nat.
Proof.
  destruct (normalizeAttractions_raises_exactly_on_unreadable_elements
              (fun _ => noon) epcot [JObj []; JObj [("id", JObj [("toString", JNum 1)])]])
    as (Unreadable & _).
  destruct (normalizeAttractions_raises_exactly_on_unreadable_elements
              (fun _ => noon) epcot [JObj []; JNull]) as (_ & _ & Plain).
  destruct (normalizeAttractions_raises_exactly_on_unreadable_elements
              (fun _ => noon) epcot [JStr "x"; JObj [("id", JObj [])]])
    as (_ & Readable & _).
  split; [|split].
  - apply Unreadable.
    exists (JObj [("id", JObj [("toString", JNum 1)])]). split; [simpl; tauto|].
    right. exists (JObj [("toString", JNum 1)]). repeat split.
  - apply Plain.
    + intros x [<- | [<- | []]]; reflexivity.
    + simpl. tauto.
  - apply Readable.
    intros x [<- | [<- | []]]; (split; [discriminate|]);
      intros (v & F & _ & R); vm_compute in F; try discriminate.
    injection F as <-. discriminate.
Defined.

Lemma failed_wait_times_cache_a_placeholder_witness :
  exists c a,
    loadAttractions (fun _ _ => noon) (fun _ => noon) (fun _ => offline) = Some c
    /\ In a (allData c)
    /\ Loader.name a = JStr "Check Disney World App"
    /\ Loader.park a = animalKingdom
    /\ Loader.waitTime a = 0.
Proof.
  apply (failed_wait_times_cache_a_placeholder
           (fun _ _ => noon) (fun _ => noon) (fun _ => offline) animalKingdom).
  left. reflexivity.
Defined.

Lemma throw_while_collecting_skips_the_rest_of_the_park_witness :
  let r := {| waitTimes := NetworkError;
              entertainment :=
                Response 200 (Parsed (JObj [("entertainment", JArr [JNull])]));
              characterMeets :=
                Response 200 (Parsed (JObj [("characterMeets", JArr [JObj []])]));
              parkHours := Response 200 (Parsed (JObj [("schedule", JArr [])])) |} in
  loadPark (fun _ => noon) noon epcot r nothing
  = pushAttractions epcot (getWaitTimes (fun _ => noon) noon epcot NetworkError) nothing.
Proof.
  cbv zeta.
  apply (proj1 (throw_while_collecting_skips_the_rest_of_the_park
                  (fun _ => noon) noon epcot
                  {| waitTimes := NetworkError;
                     entertainment :=
                       Response 200 (Parsed (JObj [("entertainment", JArr [JNull])]));
                     characterMeets :=
                       Response 200 (Parsed (JObj [("characterMeets", JArr [JObj []])]));
                     parkHours := Response 200 (Parsed (JObj [("schedule", JArr [])])) |}
                  nothing) (JArr [JNull]));
    reflexivity.
Defined.

Lemma truthy_member_is_returned_unvalidated_witness :
  getParkHours epcot (Response 200 (Parsed (JObj [("schedule", JStr "soon")])))
  = JStr "soon".
Proof.
  apply (truthy_member_is_returned_unvalidated epcot 200 [("schedule", JStr "soon")]
           (JStr "soon")); reflexivity.
Defined.

Lemma fallback_parades_are_the_parades_of_the_fallback_entertainment_witness :
  let d := ServiceMore.getCompleteParkData (fun _ => noon) noon magicKingdom
             NetworkError NetworkError NetworkError (Response 500 Unparsable) in
  ServiceMore.cp_parades d = paradesOf (ServiceMore.cp_entertainment d).
Proof.
  apply (fallback_parades_are_the_parades_of_the_fallback_entertainment
           (fun _ => noon) noon magicKingdom NetworkError NetworkError NetworkError
           (Response 500 Unparsable)).
  - left. reflexivity.
  - right. exists 500, Unparsable. split; reflexivity.
Defined.

End DataFacts.

(** ** The chat formatters of the service *)

Module FormatFacts.

Import ServiceFormat MoreTerms JsFacts TextFacts.

(** X25.  [formatParkHours] reads the first four days of a schedule and
    nothing after them. *)
Theorem formatParkHours_reads_four_days (schedule : list ParkHours) :
  formatParkHours schedule = formatParkHours (firstn 4 schedule).
Proof.
  destruct schedule as [|today rest]; [reflexivity|].
  change (firstn 4 (today :: rest)) with (today :: firstn 3 rest).
  unfold formatParkHours. destruct (type today); [|reflexivity].
  cbv zeta. destruct rest as [|day rest]; [reflexivity|].
  rewrite firstn_firstn. reflexivity.
Qed.

Lemma filter_nonempty {A} (f : A -> bool) (x : A) (xs : list A) :
  In x xs -> f x = true -> filter f xs <> [].
Proof.
  intros H F E. assert (I : In x (filter f xs)) by (apply filter_In; now split).
  rewrite E in I. destruct I.
Qed.

(** X26.  Every parade, fireworks display and show of the list has its
    line in the text [formatEntertainment] returns. *)
Theorem listed_events_have_a_line
    (events : list EntertainmentEvent) (e : EntertainmentEvent) :
  In e events -> listed e = true ->
  Js.includes (formatEntertainment events) (eventLine e) = true.
Proof.
  intros Hin Hl. unfold formatEntertainment.
  destruct events as [|e0 es]; [destruct Hin|]. cbv zeta.
  apply includes_join.
  set (P := filter (hasType parade) (e0 :: es)).
  set (F := filter (hasType fireworks) (e0 :: es)).
  set (S := filter (hasType show) (e0 :: es)).
  assert (H : In (eventLine e) (map eventLine P)
              \/ In (eventLine e) (map eventLine F)
              \/ In (eventLine e) (map eventLine S)).
  { unfold listed in Hl. apply orb_true_iff in Hl. destruct Hl as [Hl | Hl];
      [apply orb_true_iff in Hl; destruct Hl as [Hl | Hl]|].
    - left. apply in_map, filter_In. now split.
    - right; left. apply in_map, filter_In. now split.
    - right; right. apply in_map, filter_In. now split. }
  destruct P as [|p ps], F as [|f fs], S as [|s ss];
    repeat rewrite in_app_iff; cbn [In map] in *; tauto.
Qed.

Lemma filter_listed (t : EventType) (events : list EntertainmentEvent) :
  t <> characterMeet ->
  filter (hasType t) (filter listed events) = filter (hasType t) events.
Proof.
  intro N. induction events as [|e es IH]; [reflexivity|].
  cbn [filter]. unfold listed at 1.
  destruct (hasType t e) eqn:T.
  - assert (L : hasType parade e || hasType fireworks e || hasType show e = true).
    { unfold hasType in *. destruct (ev_type e) as [[]|], t; try discriminate;
        try reflexivity; now destruct N. }
    rewrite L. cbn [filter]. now rewrite T, IH.
  - destruct (_ || _); [cbn [filter]; now rewrite T, IH | exact IH].
Qed.

(** X27.  Character meets and events without a type are left out: two
    non-empty lists with the same parades, fireworks and shows give the
    same text. *)
Theorem unlisted_events_are_left_out (events events' : list EntertainmentEvent) :
  events <> [] -> events' <> [] ->
  filter listed events = filter listed events' ->
  formatEntertainment events = formatEntertainment events'.
Proof.
  intros N N' E.
  assert (H : forall t, t <> characterMeet ->
                filter (hasType t) events = filter (hasType t) events').
  { intros t Ht. now rewrite <- (filter_listed t events Ht), E, filter_listed. }
  destruct events as [|e es]; [now destruct N|].
  destruct events' as [|e' es']; [now destruct N'|].
  unfold formatEntertainment. cbv zeta.
  rewrite (H parade), (H fireworks), (H show) by discriminate. reflexivity.
Qed.

(** X28.  Every parade of the list has its name, time and location lines
    in the text [formatParadeTimes] returns.  The time shown is the first
    of [times] whenever the parade has that member, so a parade whose
    [times] is empty is shown with the time [undefined], whatever its
    [time] holds. *)
Theorem every_parade_is_shown
    (parades : list EntertainmentEvent) (p : EntertainmentEvent) :
  In p parades ->
  Js.includes (formatParadeTimes parades) (paradeNameLine p) = true
  /\ Js.includes (formatParadeTimes parades) (paradeTimeLine p) = true
  /\ Js.includes (formatParadeTimes parades) (paradeLocationLine p) = true
  /\ (ev_times p = Some [] ->
      Js.includes (formatParadeTimes parades) ("⏰ Time: " ++ "undefined") = true).
Proof.
  intro Hin.
  assert (L : forall line, In line (paradeLines p) ->
                Js.includes (formatParadeTimes parades) line = true).
  { intros line Hl. unfold formatParadeTimes.
    destruct parades as [|p0 ps]; [destruct Hin|].
    apply includes_join. apply in_or_app. right. apply in_or_app. left.
    apply in_flat_map. now exists p. }
  split; [|split; [|split]].
  - apply L. unfold paradeLines. cbn [app In]. tauto.
  - apply L. unfold paradeLines. cbn [app In]. tauto.
  - apply L. unfold paradeLines. cbn [app In]. tauto.
  - intro T.
    replace ("⏰ Time: " ++ "undefined") with (paradeTimeLine p).
    + apply L. unfold paradeLines. cbn [app In]. tauto.
    + unfold paradeTimeLine, timeValueOf. now rewrite T.
Qed.

Lemma listed_events_have_a_line_witness :
  let castle := {| ev_name := "Fantasmic!"; ev_time := Some "8:30 PM";
                   ev_times := None; ev_location := "Amphitheater";
                   ev_duration := None; ev_type := Some show |} in
  Js.includes (formatEntertainment [castle]) (eventLine castle) = true.
Proof.
  cbv zeta.
  apply (listed_events_have_a_line
           [{| ev_name := "Fantasmic!"; ev_time := Some "8:30 PM";
               ev_times := None; ev_location := "Amphitheater";
               ev_duration := None; ev_type := Some show |}]).
  - left. reflexivity.
  - reflexivity.
Defined.

Lemma unlisted_events_are_left_out_witness :
  let showing := {| ev_name := "Fantasmic!"; ev_time := Some "8:30 PM";
                    ev_times := None; ev_location := "Amphitheater";
                    ev_duration := None; ev_type := Some show |} in
  let meet := {| ev_name := "Mickey"; ev_time := None; ev_times := None;
                 ev_location := "Town Square"; ev_duration := None;
                 ev_type := Some characterMeet |} in
  formatEntertainment [meet; showing] = formatEntertainment [showing].
Proof.
  cbv zeta.
  apply (unlisted_events_are_left_out
           [{| ev_name := "Mickey"; ev_time := None; ev_times := None;
               ev_location := "Town Square"; ev_duration := None;
               ev_type := Some characterMeet |};
            {| ev_name := "Fantasmic!"; ev_time := Some "8:30 PM";
               ev_times := None; ev_location := "Amphitheater";
               ev_duration := None; ev_type := Some show |}]
           [{| ev_name := "Fantasmic!"; ev_time := Some "8:30 PM";
               ev_times := None; ev_location := "Amphitheater";
               ev_duration := None; ev_type := Some show |}]);
    [discriminate | discriminate | reflexivity].
Defined.

Lemma every_parade_is_shown_witness :
  let festival := {| ev_name := "Festival of Fantasy"; ev_time := Some "3:00 PM";
                     ev_times := Some []; ev_location := "Frontierland";
                     ev_duration := Some (Minutes 20); ev_type := Some parade |} in
  Js.includes (formatParadeTimes [festival]) (paradeNameLine festival) = true
  /\ Js.includes (formatParadeTimes [festival]) ("⏰ Time: " ++ "undefined") = true.
Proof.
  cbv zeta.
  destruct (every_parade_is_shown
              [{| ev_name := "Festival of Fantasy"; ev_time := Some "3:00 PM";
                  ev_times := Some []; ev_location := "Frontierland";
                  ev_duration := Some (Minutes 20); ev_type := Some parade |}]
              {| ev_name := "Festival of Fantasy"; ev_time := Some "3:00 PM";
                 ev_times := Some []; ev_location := "Frontierland";
                 ev_duration := Some (Minutes 20); ev_type := Some parade |})
    as (N & _ & _ & T).
  - left. reflexivity.
  - split; [exact N | apply T; reflexivity].
Defined.

End FormatFacts.

(** ** The welcome message *)

Module ScreenFacts.

Import Chat ChatMore ChatTerms MoreTerms PipelineFacts.

(** X29.  [addWelcomeMessage] replaces whatever messages there were by
    the one welcome message, and that message can be rated like a reply:
    feedback given on its id is attached to it, and, when the stored item
    is absent or holds an array, it is logged with the first 100 UTF-16
    code units of the welcome text, which end with its third line; when
    the stored item cannot be read, it is left as it was. *)
Theorem welcome_message_can_be_rated
    (clock : nat -> Z) (toISOString : Z -> string) (s : Session) (w : World)
    (feedbackType : FeedbackType) (comment : option string) :
  let welcomed := addWelcomeMessage clock s w in
  let welcomeId := "welcome_" ++ Js.ofZ (clock (tick w)) in
  let rated :=
    handleFeedback clock toISOString (stateOf welcomed) welcomeId feedbackType comment
      (stateOf welcomed) (worldOf welcomed) in
  let entry :=
    feedbackData welcomeId feedbackType comment
      (toISOString (clock (S (S (S (tick w)))))) (currentPark s) (Some welcomeShown) in
  exists m,
    messages (stateOf welcomed) = [m]
    /\ m_id m = welcomeId /\ m_isUser m = false /\ m_feedback m = None
    /\ fst (fst rated) = Ok tt
    /\ messages (stateOf rated)
       = [attach welcomeId
            {| f_type := feedbackType; f_comment := comment;
               f_timestamp := clock (S (S (tick w))) |} m]
    /\ Js.substring0 100 welcomeText = welcomeShown
    /\ (forall log,
          logOf (feedbackStore w) = Some log ->
          logOf (feedbackStore (worldOf rated)) = Some (log ++ [entry])%list)
    /\ (logOf (feedbackStore w) = None ->
        feedbackStore (worldOf rated) = feedbackStore w).
Proof.
  cbv zeta.
  set (welcomeId := "welcome_" ++ Js.ofZ (clock (tick w))).
  set (m := {| m_id := welcomeId; m_text := JStr welcomeText; m_isUser := false;
               m_timestamp := clock (S (tick w)); m_showFeedback := Some true;
               m_feedback := None |}).
  assert (R : addWelcomeMessage clock s w
              = (tt, withMessages s [m],
                 {| tick := S (S (tick w)); completionLog := completionLog w;
                    feedbackStore := feedbackStore w |})) by reflexivity.
  assert (Shown : Js.substring0 100 welcomeText = welcomeShown)
    by (vm_compute; reflexivity).
  rewrite R. unfold stateOf, worldOf. cbn [fst snd].
  assert (T : messageTextOf (withMessages s [m]) welcomeId = Ok (Some welcomeShown)).
  { unfold messageTextOf, m. cbn [withMessages messages find m_id].
    rewrite String.eqb_refl. cbn [m_text]. now rewrite Shown. }
  assert (C : carriers welcomeId [m] = 1%nat).
  { unfold carriers. cbn [filter m_id m]. now rewrite String.eqb_refl. }
  rewrite handleFeedback_run_any. cbv zeta. rewrite T.
  cbn [withMessages messages currentPark tick completionLog feedbackStore fst snd].
  rewrite C. cbn [plus].
  exists m. split; [reflexivity|]. split; [reflexivity|]. split; [reflexivity|].
  split; [reflexivity|]. split; [reflexivity|]. split.
  - cbn [attached m_id m]. now rewrite String.eqb_refl.
  - split; [exact Shown|]. split.
    + intros log Hl. destruct (feedbackStore w) as [| |[]]; try discriminate;
        now injection Hl as <-.
    + intro Hl. destruct (feedbackStore w) as [| |[]]; try discriminate; reflexivity.
Qed.

Lemma welcome_message_can_be_rated_witness :
  let welcomed :=
    addWelcomeMessage (fun n => Z.of_nat n) (sessionWith (Park epcot) []) emptyWorld in
  let rated :=
    handleFeedback (fun n => Z.of_nat n) (fun t => Js.ofZ t) (stateOf welcomed)
      "welcome_0" positive None (stateOf welcomed) (worldOf welcomed) in
  fst (fst rated) = Ok tt
  /\ logOf (feedbackStore (worldOf rated))
     = Some [feedbackData "welcome_0" positive None "3" (Park epcot) (Some welcomeShown)].
Proof.
  cbv zeta.
  destruct (welcome_message_can_be_rated (fun n => Z.of_nat n) (fun t => Js.ofZ t)
              (sessionWith (Park epcot) []) emptyWorld positive None)
    as (m & _ & _ & _ & _ & R & _ & _ & L & _).
  split; [exact R | exact (L [] eq_refl)].
Defined.

End ScreenFacts.
